(** * InfraRed antivirus front end: batch scan orchestrator and quarantine manager

    A shallow embedding of the orchestration logic of [antivirus.py]:
    the worker loop [BatchScanThread.run], the file enumerators of the
    scan entry points, [quarantine_file] with its retry loop and forced
    handle release, [clear_quarantine], [add_hash] and the wiring between
    the worker's signals and the window's slots.

    Conventions.
    - A Python [str] is a Rocq [string] holding its UTF-8 encoding;
      [len] counts code points and [strip] removes the white space
      characters of Unicode, as Python does. The case tables of
      [str.lower] belong to the interpreter and are not part of the
      program: [lower] is a parameter of the model (a field of [OS], an
      argument of [add_hash]), and everything proved holds for every such
      function.
    - Paths follow [posixpath] (separator [/]).
    - Everything the operating system, the clock, the detection engine and
      the person in front of the window decide is an explicit input: an
      oracle field of a record, never a constant. *)

From stdpp Require Import gmap strings list pretty.
From Stdlib Require Import ZArith Lia Ascii.

Local Open Scope Z_scope.
Local Open Scope nat_scope.

(* ===================================================================== *)
(** ** Python string and path helpers *)
(* ===================================================================== *)

Module PyStr.

Definition chars (s : string) : list ascii := String.list_ascii_of_string s.
Definition of_chars (l : list ascii) : string := String.string_of_list_ascii l.

Definition code (c : ascii) : nat := nat_of_ascii c.

(** What [s.lower()] gives for a text of ASCII characters: [A]..[Z] move
    down by 32. It stands in for [str.lower] in the concrete examples,
    all of which are ASCII texts; it is not the model of [str.lower]. *)
Definition ascii_lower_char (c : ascii) : ascii :=
  if (65 <=? code c) && (code c <=? 90) then ascii_of_nat (code c + 32) else c.

Definition ascii_lower (s : string) : string :=
  of_chars (map ascii_lower_char (chars s)).

(** [len(s)]: the number of code points, that is of the bytes that are
    not continuation bytes (0x80..0xBF) of the encoding. *)
Definition is_continuation (c : ascii) : bool :=
  (128 <=? code c) && (code c <=? 191).

Definition len (s : string) : nat :=
  length (List.filter (λ c, negb (is_continuation c)) (chars s)).

(** The characters [str.strip()] removes, those with [str.isspace()]:
    among the ASCII characters TAB, LF, VT, FF, CR, the separators
    0x1c..0x1f and the blank; beyond them U+0085 and U+00A0 (two bytes
    after 0xC2), U+1680, U+2000..U+200A, U+2028, U+2029, U+202F, U+205F
    and U+3000 (three bytes). *)
Definition is_space (c : ascii) : bool :=
  ((9 <=? code c) && (code c <=? 13)) || ((28 <=? code c) && (code c <=? 32)).

Definition is_space2 (b1 b2 : ascii) : bool :=
  (code b1 =? 194) && ((code b2 =? 133) || (code b2 =? 160)).

Definition is_space3 (b1 b2 b3 : ascii) : bool :=
  ((code b1 =? 225) && (code b2 =? 154) && (code b3 =? 128))
  || ((code b1 =? 226) && (code b2 =? 128)
      && (((128 <=? code b3) && (code b3 <=? 138))
          || (code b3 =? 168) || (code b3 =? 169) || (code b3 =? 175)))
  || ((code b1 =? 226) && (code b2 =? 129) && (code b3 =? 159))
  || ((code b1 =? 227) && (code b2 =? 128) && (code b3 =? 128)).

(** [s.lstrip()] *)
Fixpoint lstrip_chars (l : list ascii) : list ascii :=
  match l with
  | [] => []
  | b1 :: r1 =>
      if is_space b1 then lstrip_chars r1
      else
        match r1 with
        | [] => l
        | b2 :: r2 =>
            if is_space2 b1 b2 then lstrip_chars r2
            else
              match r2 with
              | [] => l
              | b3 :: r3 => if is_space3 b1 b2 b3 then lstrip_chars r3 else l
              end
        end
  end.

(** [s.rstrip()] on the reversed text: the last byte of a character comes
    first. *)
Fixpoint rstrip_rev (l : list ascii) : list ascii :=
  match l with
  | [] => []
  | b1 :: r1 =>
      if is_space b1 then rstrip_rev r1
      else
        match r1 with
        | [] => l
        | b2 :: r2 =>
            if is_space2 b2 b1 then rstrip_rev r2
            else
              match r2 with
              | [] => l
              | b3 :: r3 => if is_space3 b3 b2 b1 then rstrip_rev r3 else l
              end
        end
  end.

(** [s.strip()] *)
Definition strip (s : string) : string :=
  of_chars (rev (rstrip_rev (rev (lstrip_chars (chars s))))).

(** [s.split(sep)[0]] for a one character separator: the text before the
    first occurrence of [sep], the whole text when there is none. *)
Fixpoint split_first_chars (sep : ascii) (l : list ascii) : list ascii :=
  match l with
  | [] => []
  | c :: r => if decide (c = sep) then [] else c :: split_first_chars sep r
  end.
Definition split_first (sep : ascii) (s : string) : string :=
  of_chars (split_first_chars sep (chars s)).

(** [s.replace(c, '')] for a one character [c]. *)
Definition remove_char (c : ascii) (s : string) : string :=
  of_chars (filter (λ x, x ≠ c) (chars s)).

(** The text after the last [/]: [os.path.basename]. *)
Fixpoint basename_chars (acc l : list ascii) : list ascii :=
  match l with
  | [] => acc
  | c :: r => if decide (c = "/"%char) then basename_chars r r
              else basename_chars acc r
  end.
Definition basename (p : string) : string :=
  of_chars (basename_chars (chars p) (chars p)).

(** Position of the last dot of [l], counted from the left. *)
Fixpoint rfind_dot (i : nat) (l : list ascii) : option nat :=
  match l with
  | [] => None
  | c :: r =>
      match rfind_dot (S i) r with
      | Some j => Some j
      | None => if decide (c = "."%char) then Some i else None
      end
  end.

(** [os.path.splitext] on a name without separator: split at the last
    dot unless only dots precede it. *)
Definition splitext (name : string) : string * string :=
  let l := chars name in
  match rfind_dot 0 l with
  | Some d =>
      if forallb (λ c, bool_decide (c = "."%char)) (take d l)
      then (name, "")
      else (of_chars (take d l), of_chars (drop d l))
  | None => (name, "")
  end.

Definition starts_with_sep (s : string) : bool :=
  match s with String "/" _ => true | _ => false end.

Definition ends_with_sep (s : string) : bool :=
  match rev (chars s) with "/"%char :: _ => true | _ => false end.

(** [os.path.join(a, b)] *)
Definition join (a b : string) : string :=
  if starts_with_sep b then b
  else if bool_decide (a = "") || ends_with_sep a then a +:+ b
  else a +:+ "/" +:+ b.

(** Decimal digits of a number, most significant first, padded with
    zeros to [width] digits (the [%02d] style of [strftime]). *)
Definition digit_char (d : nat) : ascii := ascii_of_nat (48 + d mod 10).

Fixpoint pad_digits (width n : nat) : list ascii :=
  match width with
  | 0 => []
  | S w => pad_digits w (n / 10) ++ [digit_char n]
  end.

Definition pad (width n : nat) : string := of_chars (pad_digits width n).

End PyStr.

(* ===================================================================== *)
(** ** The detection engine (the loaded DLL) *)
(* ===================================================================== *)

(** The dict that [engine.scan_file_detailed] returns after JSON decoding.
    A key read with [dict.get] may be absent, hence the options. The
    [entropy] key is a float that no code path of the front end reads;
    it is left out. *)
Record ResultDict := {
  rd_status : option Z;
  rd_threat_type : string;
  rd_threat_name : option string;
  rd_md5 : option string;
  rd_sha256 : string;
  rd_file_size : option Z;
  rd_filepath : option string
}.

Definition set_filepath (d : ResultDict) (p : string) : ResultDict :=
  {| rd_status := rd_status d; rd_threat_type := rd_threat_type d;
     rd_threat_name := rd_threat_name d; rd_md5 := rd_md5 d;
     rd_sha256 := rd_sha256 d; rd_file_size := rd_file_size d;
     rd_filepath := Some p |}.

(** The capabilities found when the library is loaded. A detailed scan
    that raises (in the call or in the JSON decoding) is [None], and so
    is a hash registration that raises. *)
Record Engine := {
  scan_file : string → Z;
  has_detailed_scan : bool;
  engine_scan_file_detailed : string → option ResultDict;
  has_add_hash : bool;
  engine_add_hash : string → string → Z → bool → option Z
}.

(* ===================================================================== *)
(** ** Scan statistics *)
(* ===================================================================== *)

Record ScanStats := {
  total_scanned : nat;
  clean_files : nat;
  malicious_files : nat;
  suspicious_files : nat;
  errors : nat;
  quarantined : nat
}.

(** [ScanStats.__init__] *)
Definition ScanStats_init : ScanStats :=
  {| total_scanned := 0; clean_files := 0; malicious_files := 0;
     suspicious_files := 0; errors := 0; quarantined := 0 |}.

(** The dict sent with [stats_update]. *)
Record StatsSnapshot := {
  snap_total : nat;
  snap_clean : nat;
  snap_malicious : nat;
  snap_suspicious : nat;
  snap_errors : nat
}.

(* ===================================================================== *)
(** ** Scan functions *)
(* ===================================================================== *)

Definition status_map (code : Z) : option string :=
  match code with
  | 0%Z => Some "정상"
  | 1%Z => Some "악성-시그니처"
  | 2%Z => Some "악성-해시"
  | 3%Z => Some "의심-휴리스틱"
  | (-1)%Z => Some "오류"
  | _ => None
  end.

Definition status_text (code : Z) : string := default "알수없음" (status_map code).

Definition scan_file_basic (eng : Engine) (filepath : string) : string * Z :=
  let result := scan_file eng filepath in
  ("[" +:+ status_text result +:+ "] " +:+ filepath, result).

Definition scan_file_detailed (eng : Engine) (filepath : string) : ResultDict :=
  if negb (has_detailed_scan eng) then
    let '(msg, code) := scan_file_basic eng filepath in
    {| rd_status := Some code; rd_threat_type := "unknown";
       rd_threat_name :=
         Some (PyStr.remove_char "["%char (PyStr.split_first "]"%char msg));
       rd_md5 := Some ""; rd_sha256 := ""; rd_file_size := Some 0%Z;
       rd_filepath := None |}
  else
    match engine_scan_file_detailed eng filepath with
    | Some d => d
    | None =>
        let '(msg, code) := scan_file_basic eng filepath in
        {| rd_status := Some code; rd_threat_type := "unknown";
           rd_threat_name := Some "Scan Error";
           rd_md5 := Some ""; rd_sha256 := ""; rd_file_size := Some 0%Z;
           rd_filepath := None |}
    end.

(* ===================================================================== *)
(** ** The batch scan worker *)
(* ===================================================================== *)

(** The five signals of [BatchScanThread]. *)
Inductive Signal :=
| progress (i : nat)
| result_msg (msg : string)
| result_detailed (d : ResultDict)
| stats_update (s : StatsSnapshot)
| finished.

(** What the worker does, in order: it completes the scan of one file
    (the call of [scan_file_detailed] or [scan_file_basic] made by one
    iteration), or it emits a signal. *)
Inductive Action :=
| Scan (filepath : string)
| Emit (s : Signal).

(** The tally of one verdict: the [if]/[elif] chain of [run]. *)
Definition tally (status : Z) (st : ScanStats) : ScanStats :=
  let st := {| total_scanned := total_scanned st + 1;
               clean_files := clean_files st;
               malicious_files := malicious_files st;
               suspicious_files := suspicious_files st;
               errors := errors st; quarantined := quarantined st |} in
  if (status =? 0)%Z then
    {| total_scanned := total_scanned st; clean_files := clean_files st + 1;
       malicious_files := malicious_files st;
       suspicious_files := suspicious_files st;
       errors := errors st; quarantined := quarantined st |}
  else if ((status =? 1) || (status =? 2))%Z then
    {| total_scanned := total_scanned st; clean_files := clean_files st;
       malicious_files := malicious_files st + 1;
       suspicious_files := suspicious_files st;
       errors := errors st; quarantined := quarantined st |}
  else if (status =? 3)%Z then
    {| total_scanned := total_scanned st; clean_files := clean_files st;
       malicious_files := malicious_files st;
       suspicious_files := suspicious_files st + 1;
       errors := errors st; quarantined := quarantined st |}
  else
    {| total_scanned := total_scanned st; clean_files := clean_files st;
       malicious_files := malicious_files st;
       suspicious_files := suspicious_files st;
       errors := errors st + 1; quarantined := quarantined st |}.

Definition snapshot (st : ScanStats) : StatsSnapshot :=
  {| snap_total := total_scanned st; snap_clean := clean_files st;
     snap_malicious := malicious_files st;
     snap_suspicious := suspicious_files st; snap_errors := errors st |}.

Definition stopped_msg : string := "
[중지됨] 사용자가 스캔을 중지했습니다.
".

Section BatchScanThread.

Variable eng : Engine.
(** [self.use_detailed] *)
Variable use_detailed : bool.
(** The other thread: [stop_during i] tells whether [stop()] is called
    while iteration [i] is in flight, that is after the flag was read at
    the top of iteration [i] and before it is read at the top of
    iteration [i+1]; [stop_during 0] is a call before the first read. *)
Variable stop_during : nat → bool.

(** The body of one iteration below the stop test: the actions up to
    the tally, and the statistics after it. *)
Definition scan_one (filepath : string) (st : ScanStats)
  : list Action * ScanStats :=
  if use_detailed then
    let result_dict := set_filepath (scan_file_detailed eng filepath) filepath in
    let status := default (-1)%Z (rd_status result_dict) in
    let st' := tally status st in
    let status_txt := status_text (default (-1)%Z (rd_status result_dict)) in
    let threat := default "Unknown" (rd_threat_name result_dict) in
    let msg := "[" +:+ status_txt +:+ "] " +:+ threat +:+ " - "
               +:+ PyStr.basename filepath in
    ([Scan filepath; Emit (result_detailed result_dict); Emit (result_msg msg)],
     st')
  else
    let '(msg, code) := scan_file_basic eng filepath in
    ([Scan filepath; Emit (result_msg msg)], tally code st).

(** The [for i, filepath in enumerate(self.file_list, 1)] loop, with
    [_stop_requested] as it stands when iteration [i] reads it. *)
Fixpoint run_loop (i : nat) (_stop_requested : bool) (file_list : list string)
    (st : ScanStats) : list Action * ScanStats :=
  match file_list with
  | [] => ([], st)
  | filepath :: rest =>
      if _stop_requested then ([Emit (result_msg stopped_msg)], st)
      else
        let '(acts, st') := scan_one filepath st in
        let '(later, st'') :=
          run_loop (S i) (_stop_requested || stop_during i) rest st' in
        (acts ++ [Emit (stats_update (snapshot st')); Emit (progress i)]
              ++ later, st'')
  end.

(** [BatchScanThread.run] on a freshly built thread ([__init__] sets the
    flag to [False] and the statistics to zero). *)
Definition run (file_list : list string) : list Action :=
  (run_loop 1 (false || stop_during 0) file_list ScanStats_init).1
  ++ [Emit finished].

End BatchScanThread.

(** Observations on a trace. *)
Fixpoint count_scans (tr : list Action) : nat :=
  match tr with
  | [] => 0
  | Scan _ :: r => S (count_scans r)
  | Emit _ :: r => count_scans r
  end.

Fixpoint scanned (tr : list Action) : list string :=
  match tr with
  | [] => []
  | Scan p :: r => p :: scanned r
  | Emit _ :: r => scanned r
  end.

Fixpoint progress_indices (tr : list Action) : list nat :=
  match tr with
  | [] => []
  | Emit (progress i) :: r => i :: progress_indices r
  | _ :: r => progress_indices r
  end.

Definition balanced (s : StatsSnapshot) : Prop :=
  snap_clean s + snap_malicious s + snap_suspicious s + snap_errors s
  = snap_total s.

(** What a stats or progress signal carries, wherever it stands in a
    trace: the number of iterations completed before the loop was entered
    plus the scans that precede the signal. *)
Definition carries (before : nat) (pre : list Action) (x : Action) : Prop :=
  match x with
  | Emit (stats_update s) =>
      balanced s ∧ snap_total s = before + count_scans pre
  | Emit (progress p) => p = before + count_scans pre
  | _ => True
  end.

(* ===================================================================== *)
(** ** [hashlib.md5(...).hexdigest()] *)
(* ===================================================================== *)

(** MD5 (RFC 1321) on 32-bit words held in [Z], with the wrap-around
    written out. *)
Module Md5.
Local Open Scope Z_scope.

Definition mask32 : Z := 0xffffffff.
Definition add32 (a b : Z) : Z := Z.land (a + b) mask32.
Definition not32 (a : Z) : Z := Z.lxor a mask32.
Definition rotl32 (x c : Z) : Z :=
  Z.land (Z.lor (Z.shiftl x c) (Z.shiftr x (32 - c))) mask32.

Definition shifts : list Z :=
  [7; 12; 17; 22; 7; 12; 17; 22; 7; 12; 17; 22; 7; 12; 17; 22;
   5; 9; 14; 20; 5; 9; 14; 20; 5; 9; 14; 20; 5; 9; 14; 20;
   4; 11; 16; 23; 4; 11; 16; 23; 4; 11; 16; 23; 4; 11; 16; 23;
   6; 10; 15; 21; 6; 10; 15; 21; 6; 10; 15; 21; 6; 10; 15; 21].

Definition sines : list Z :=
  [0xd76aa478; 0xe8c7b756; 0x242070db; 0xc1bdceee;
   0xf57c0faf; 0x4787c62a; 0xa8304613; 0xfd469501;
   0x698098d8; 0x8b44f7af; 0xffff5bb1; 0x895cd7be;
   0x6b901122; 0xfd987193; 0xa679438e; 0x49b40821;
   0xf61e2562; 0xc040b340; 0x265e5a51; 0xe9b6c7aa;
   0xd62f105d; 0x02441453; 0xd8a1e681; 0xe7d3fbc8;
   0x21e1cde6; 0xc33707d6; 0xf4d50d87; 0x455a14ed;
   0xa9e3e905; 0xfcefa3f8; 0x676f02d9; 0x8d2a4c8a;
   0xfffa3942; 0x8771f681; 0x6d9d6122; 0xfde5380c;
   0xa4beea44; 0x4bdecfa9; 0xf6bb4b60; 0xbebfbc70;
   0x289b7ec6; 0xeaa127fa; 0xd4ef3085; 0x04881d05;
   0xd9d4d039; 0xe6db99e5; 0x1fa27cf8; 0xc4ac5665;
   0xf4292244; 0x432aff97; 0xab9423a7; 0xfc93a039;
   0x655b59c3; 0x8f0ccc92; 0xffeff47d; 0x85845dd1;
   0x6fa87e4f; 0xfe2ce6e0; 0xa3014314; 0x4e0811a1;
   0xf7537e82; 0xbd3af235; 0x2ad7d2bb; 0xeb86d391].

Definition bytes_of_string (s : string) : list Z :=
  map (λ c, Z.of_nat (nat_of_ascii c)) (String.list_ascii_of_string s).

(** [n] bytes of [x], least significant first. *)
Fixpoint le_bytes (n : nat) (x : Z) : list Z :=
  match n with
  | O => []
  | S m => Z.land x 0xff :: le_bytes m (Z.shiftr x 8)
  end.

(** The message, the bit 1, zeros up to 56 modulo 64, and the bit
    length on 64 bits. *)
Definition pad_message (msg : list Z) : list Z :=
  let len := Z.of_nat (length msg) in
  msg ++ [0x80] ++ replicate (Z.to_nat ((55 - len) mod 64)) 0
      ++ le_bytes 8 (Z.land (8 * len) 0xffffffffffffffff).

Fixpoint le_words (n : nat) (bytes : list Z) : list Z :=
  match n, bytes with
  | S m, b0 :: b1 :: b2 :: b3 :: rest =>
      (b0 + 256 * b1 + 65536 * b2 + 16777216 * b3) :: le_words m rest
  | _, _ => []
  end.

Definition State : Type := Z * Z * Z * Z.

Definition step (M : list Z) (i : nat) (st : State) : State :=
  let '(A, B, C, D) := st in
  let F :=
    if (i <? 16)%nat then Z.lor (Z.land B C) (Z.land (not32 B) D)
    else if (i <? 32)%nat then Z.lor (Z.land D B) (Z.land (not32 D) C)
    else if (i <? 48)%nat then Z.lxor B (Z.lxor C D)
    else Z.lxor C (Z.lor B (not32 D)) in
  let g :=
    if (i <? 16)%nat then i
    else if (i <? 32)%nat then ((5 * i + 1) mod 16)%nat
    else if (i <? 48)%nat then ((3 * i + 5) mod 16)%nat
    else ((7 * i) mod 16)%nat in
  let F := add32 (add32 (add32 F A) (nth i sines 0)) (nth g M 0) in
  (D, add32 B (rotl32 F (nth i shifts 0)), B, C).

Definition chunk (M : list Z) (st : State) : State :=
  let '(A, B, C, D) := foldl (λ acc i, step M i acc) st (seq 0 64) in
  let '(a0, b0, c0, d0) := st in
  (add32 a0 A, add32 b0 B, add32 c0 C, add32 d0 D).

Fixpoint chunks (n : nat) (bytes : list Z) (st : State) : State :=
  match n with
  | O => st
  | S m => chunks m (drop 64 bytes) (chunk (le_words 16 (take 64 bytes)) st)
  end.

Definition digest (msg : list Z) : list Z :=
  let padded := pad_message msg in
  let '(a0, b0, c0, d0) :=
    chunks (length padded / 64) padded
           (0x67452301, 0xefcdab89, 0x98badcfe, 0x10325476) in
  le_bytes 4 a0 ++ le_bytes 4 b0 ++ le_bytes 4 c0 ++ le_bytes 4 d0.

Definition hex_digit (d : Z) : ascii :=
  if d <? 10 then ascii_of_nat (48 + Z.to_nat d)
  else ascii_of_nat (87 + Z.to_nat d).

Definition hexdigest (s : string) : string :=
  String.string_of_list_ascii
    (flat_map (λ b, [hex_digit (b / 16); hex_digit (b mod 16)])
              (digest (bytes_of_string s))).
End Md5.

(* ===================================================================== *)
(** ** The clock *)
(* ===================================================================== *)

(** What [datetime.now()] returns, to the second. *)
Record Datetime := {
  year : nat; month : nat; day : nat;
  hour : nat; minute : nat; second : nat
}.

(** [strftime('%Y%m%d_%H%M%S')] *)
Definition strftime_compact (d : Datetime) : string :=
  PyStr.pad 4 (year d) +:+ PyStr.pad 2 (month d) +:+ PyStr.pad 2 (day d)
  +:+ "_" +:+ PyStr.pad 2 (hour d) +:+ PyStr.pad 2 (minute d)
  +:+ PyStr.pad 2 (second d).

(** [strftime('%Y-%m-%d %H:%M:%S')] *)
Definition strftime_iso (d : Datetime) : string :=
  PyStr.pad 4 (year d) +:+ "-" +:+ PyStr.pad 2 (month d) +:+ "-"
  +:+ PyStr.pad 2 (day d) +:+ " " +:+ PyStr.pad 2 (hour d) +:+ ":"
  +:+ PyStr.pad 2 (minute d) +:+ ":" +:+ PyStr.pad 2 (second d).

(** A date and time of the four digit years, as the clock gives them. *)
Definition well_formed (d : Datetime) : Prop :=
  (Z.of_nat (year d) < 10000)%Z ∧ month d < 100 ∧ day d < 100 ∧
  hour d < 100 ∧ minute d < 100 ∧ second d < 100.

(* ===================================================================== *)
(** ** Work enumeration *)
(* ===================================================================== *)

(** What [os.walk] yields: each directory with the names of the files in
    it, in traversal order (the list of sub-directories is ignored by
    every caller). *)
Definition Walk : Type := list (string * list string).

Module Enumerate.

Section Capped.
(** The constant of the [len(file_list) > ...] test. *)
Variable limit : Z.

(** [for name in files: file_list.append(...); if len(file_list) >
    limit: break]. The [break] leaves this loop only. *)
Fixpoint add_files (root : string) (files : list string)
    (file_list : list string) : list string :=
  match files with
  | [] => file_list
  | name :: rest =>
      let file_list := file_list ++ [PyStr.join root name] in
      if (limit <? Z.of_nat (length file_list))%Z then file_list
      else add_files root rest file_list
  end.

(** [for root, _, files in os.walk(...)] around it. *)
Fixpoint walk_collect (w : Walk) (file_list : list string) : list string :=
  match w with
  | [] => file_list
  | (root, files) :: later => walk_collect later (add_files root files file_list)
  end.

(** The same two loops with the [drive_files] counter of
    [scan_all_drives]. *)
Fixpoint add_files_counting (root : string) (files : list string)
    (file_list : list string) (drive_files : nat) : list string * nat :=
  match files with
  | [] => (file_list, drive_files)
  | name :: rest =>
      let file_list := file_list ++ [PyStr.join root name] in
      let drive_files := drive_files + 1 in
      if (limit <? Z.of_nat (length file_list))%Z then (file_list, drive_files)
      else add_files_counting root rest file_list drive_files
  end.

Fixpoint walk_collect_counting (w : Walk) (file_list : list string)
    (drive_files : nat) : list string * nat :=
  match w with
  | [] => (file_list, drive_files)
  | (root, files) :: later =>
      let '(file_list, drive_files) :=
        add_files_counting root files file_list drive_files in
      walk_collect_counting later file_list drive_files
  end.
End Capped.

(** The file list of [full_system_scan], from the walk of the root. *)
Definition full_system_scan (w : Walk) : list string := walk_collect 10000%Z w [].

(** The file list of [scan_drive], from the walk of the chosen drive. *)
Definition scan_drive (w : Walk) : list string := walk_collect 50000%Z w [].

(** The file list of [scan_usb], from the walk of the chosen drive. *)
Definition scan_usb (w : Walk) : list string := walk_collect 50000%Z w [].

(** One drive of [scan_all_drives]: its name, what its walk yields, and
    whether the walk then raises (the [except] clause skips the drive's
    label; what was appended stays in the shared list). *)
Record Drive := { drive_name : string; drive_walk : Walk; drive_raises : bool }.

Fixpoint all_drives_loop (drives : list Drive) (file_list : list string)
    (scanned_drives : list string) : list string * list string :=
  match drives with
  | [] => (file_list, scanned_drives)
  | d :: later =>
      let '(file_list, drive_files) :=
        walk_collect_counting 100000%Z (drive_walk d) file_list 0 in
      if drive_raises d then all_drives_loop later file_list scanned_drives
      else all_drives_loop later file_list
             (scanned_drives ++
                [drive_name d +:+ " (" +:+ pretty drive_files +:+ "개)"])
  end.

(** The file list and the labels of [scan_all_drives]. *)
Definition scan_all_drives (drives : list Drive) : list string * list string :=
  all_drives_loop drives [] [].

(** File names [f0], [f1], ... for building directory listings. *)
Definition names (n : Z) : list string :=
  map (λ i, "f" +:+ pretty i) (seq 0 (Z.to_nat n)).

End Enumerate.

(* ===================================================================== *)
(** ** The file system, the process table and what the code does to them *)
(* ===================================================================== *)

(** The exceptions the retry loop tells apart: [PermissionError] has a
    clause of its own, every other [Exception] shares one. *)
Inductive PyExc := PermissionError | OtherException.

(** The JSON object of a [.meta] sidecar. *)
Record QuarantineMeta := {
  original_path : string;
  original_filename : string;
  threat_name : string;
  quarantine_time : string;
  original_deleted : bool
}.

(** A file: raw bytes, or a sidecar as [json.dump] wrote it. *)
Inductive File :=
| Data (content : list Byte.byte)
| MetaJson (m : QuarantineMeta).

Inductive PsutilError := NoSuchProcess | AccessDenied | ZombieProcess.

(** A process as [psutil.process_iter(['pid', 'name'])] shows it: the
    name is [None] when it could not be read; [open_files()] and [kill()]
    may raise one of the three psutil errors. *)
Record Proc := {
  pid : nat;
  pname : option string;
  open_files : PsutilError + list string;
  kill_result : option PsutilError
}.

Record World := {
  fs : gmap string File;
  procs : list Proc
}.

Definition with_fs (w : World) (f : gmap string File) : World :=
  {| fs := f; procs := procs w |}.
Definition with_procs (w : World) (l : list Proc) : World :=
  {| fs := fs w; procs := l |}.

Inductive DialogKind := Information | Warning | Critical | Question.

(** Observable effects besides the file system: sleeps in milliseconds,
    calls of [force_close_file_handles] with the 0-based attempt during
    which they happen, kills, message boxes, the file explorer (opened
    on Windows only).
    ([gc.collect()] and the [attrib -R] call change nothing that is
    modelled and are left out.) *)
Inductive Effect :=
| Sleep (ms : nat)
| ForceClose (attempt : nat)
| Kill (p : nat)
| Dialog (k : DialogKind) (title : string)
| OpenExplorer (path : string).

(** Where the body of one attempt of the retry loop raises, if it does:
    - [ReadFails]: in [open(filepath, 'rb')] or in [src.read()];
    - [OpenFails]: in [open(quarantine_path, 'wb')], which then creates
      nothing;
    - [WriteFails]: in [dst.write(file_data)] or when the [with] block
      closes the file. [open(..., 'wb')] has created or truncated the
      file by then, and [remains] is what the file holds afterwards (nothing,
      or the part that got written);
    - [RemoveFails]: in [os.remove(filepath)]. *)
Inductive Fault :=
| NoFault
| ReadFails (e : PyExc)
| OpenFails (e : PyExc)
| WriteFails (e : PyExc) (remains : list Byte.byte)
| RemoveFails (e : PyExc).

(** What the interpreter, the operating system, the clock and the user
    decide during one call of [quarantine_file]. [str_lower] is
    [str.lower]: its case tables are the interpreter's, not the
    program's. *)
Record OS := {
  str_lower : string → string;
  abspath : string → string;
  has_psutil : bool;
  attempt_fault : nat → Fault;
  meta_write_raises : bool;
  answer_yes : bool;
  now_name : Datetime;
  now_meta : Datetime
}.

Module Quarantine.

Definition critical_names : list string :=
  ["system"; "csrss.exe"; "smss.exe"; "wininit.exe"].

(** The loop over [proc.open_files()] for one process. *)
Inductive Visit := NoKill | DoKill | Crash.

Fixpoint visit_open_files (lower : string → string) (abs_path : string)
    (name : option string) (items : list string) : Visit :=
  match items with
  | [] => NoKill
  | item :: rest =>
      if bool_decide (lower item = abs_path) then
        match name with
        | None => Crash
        | Some n =>
            if bool_decide (lower n ∈ critical_names)
            then visit_open_files lower abs_path name rest
            else DoKill
        end
      else visit_open_files lower abs_path name rest
  end.

(** The loop over [psutil.process_iter]: the effects, the processes
    still alive afterwards, and [closed_count] ([None] when an
    exception other than the three psutil errors ended the loop). *)
Fixpoint process_loop (lower : string → string) (abs_path : string)
    (ps : list Proc) (closed_count : nat)
    : list Effect * list Proc * option nat :=
  match ps with
  | [] => ([], [], Some closed_count)
  | proc :: rest =>
      match open_files proc with
      | inl _ =>
          let '(effs, alive, r) := process_loop lower abs_path rest closed_count in
          (effs, proc :: alive, r)
      | inr items =>
          match visit_open_files lower abs_path (pname proc) items with
          | NoKill =>
              let '(effs, alive, r) := process_loop lower abs_path rest closed_count in
              (effs, proc :: alive, r)
          | Crash => ([], proc :: rest, None)
          | DoKill =>
              match kill_result proc with
              | Some _ =>
                  let '(effs, alive, r) :=
                    process_loop lower abs_path rest closed_count in
                  (effs, proc :: alive, r)
              | None =>
                  let '(effs, alive, r) :=
                    process_loop lower abs_path rest (closed_count + 1) in
                  (Kill (pid proc) :: Sleep 300 :: effs, alive, r)
              end
          end
      end
  end.

(** [force_close_file_handles(file_path)] *)
Definition force_close_file_handles (os : OS) (file_path : string)
    (w : World) : World * list Effect * bool :=
  if negb (has_psutil os) then (w, [], false)
  else
    let abs_path := str_lower os (abspath os file_path) in
    let '(effs, alive, r) := process_loop (str_lower os) abs_path (procs w) 0 in
    (with_procs w alive, effs,
     match r with Some closed_count => 0 <? closed_count | None => false end).

(** A process holds the target of a forced release when one of its
    open files has the target's absolute path, letter case aside: the
    comparison [item.path.lower() == abs_path]. *)
Definition holds_target (os : OS) (file_path : string) (proc : Proc) : Prop :=
  ∃ items item,
    open_files proc = inr items ∧ item ∈ items
    ∧ str_lower os item = str_lower os (abspath os file_path).

(** Its name is known and, in lower case, is not on the deny-list. *)
Definition not_critical (lower : string → string) (proc : Proc) : Prop :=
  ∃ n, pname proc = Some n ∧ lower n ∉ critical_names.

(** In an effect log every kill comes after some call of
    [force_close_file_handles]. *)
Definition kills_guarded (effs : list Effect) : Prop :=
  ∀ pre p post, effs = pre ++ Kill p :: post → ∃ a, ForceClose a ∈ pre.

(** Effects that are neither a kill nor a forced release. *)
Definition quiet (e : Effect) : Prop :=
  match e with Kill _ | ForceClose _ => False | _ => True end.

(** Effects that show no message box. *)
Definition silent (e : Effect) : Prop :=
  match e with Dialog _ _ | OpenExplorer _ => False | _ => True end.

(** The processes killed and the attempts with a forced release, as an
    effect log records them. *)
Definition killed (effs : list Effect) : list nat :=
  flat_map (λ e, match e with Kill p => [p] | _ => [] end) effs.
Definition forced (effs : list Effect) : list nat :=
  flat_map (λ e, match e with ForceClose a => [a] | _ => [] end) effs.

Definition max_retries : nat := 5.

Inductive BodyResult := Removed | Failed (e : PyExc).

(** The [try] body of one attempt: read all, open the store file, write
    all, sleep, remove. A file that is not there makes the first [open]
    raise [FileNotFoundError]. *)
Definition attempt_body (os : OS) (filepath quarantine_path : string)
    (attempt : nat) (w : World) : World * list Effect * BodyResult :=
  match attempt_fault os attempt with
  | ReadFails e => (w, [], Failed e)
  | fault =>
      match fs w !! filepath with
      | None => (w, [], Failed OtherException)
      | Some file_data =>
          match fault with
          | OpenFails e => (w, [], Failed e)
          | WriteFails e remains =>
              (with_fs w (<[quarantine_path := Data remains]> (fs w)), [], Failed e)
          | fault =>
              let w := with_fs w (<[quarantine_path := file_data]> (fs w)) in
              match fault with
              | RemoveFails e => (w, [Sleep 200], Failed e)
              | _ => (with_fs w (delete filepath (fs w)), [Sleep 200], Removed)
              end
          end
      end
  end.

Inductive LoopOutcome :=
| Finished (success : bool) (last_error : option PyExc)
| Raised (e : PyExc).

(** [for attempt in range(max_retries)] with its two [except] clauses. *)
Fixpoint retry_loop (os : OS) (filepath quarantine_path : string)
    (attempts : list nat) (last_error : option PyExc) (w : World)
    : World * list Effect * LoopOutcome :=
  match attempts with
  | [] => (w, [], Finished false last_error)
  | attempt :: later =>
      let '(w, effs, r) := attempt_body os filepath quarantine_path attempt w in
      match r with
      | Removed => (w, effs, Finished true last_error)
      | Failed PermissionError =>
          if attempt <? max_retries - 1 then
            let '(w, forced) :=
              if 2 <=? attempt then
                let '(w, kills, closed) := force_close_file_handles os filepath w in
                (w, ForceClose attempt :: kills
                      ++ (if closed then [Sleep 1000] else []))
              else (w, []) in
            let '(w, later_effs, out) :=
              retry_loop os filepath quarantine_path later
                         (Some PermissionError) w in
            (w, effs ++ Sleep (500 * (attempt + 1)) :: forced ++ later_effs, out)
          else (w, effs, Finished false (Some PermissionError))
      | Failed OtherException =>
          if attempt <? max_retries - 1 then
            let '(w, later_effs, out) :=
              retry_loop os filepath quarantine_path later
                         (Some OtherException) w in
            (w, effs ++ Sleep 500 :: later_effs, out)
          else (w, effs, Raised OtherException)
      end
  end.

Section WithStore.
(** The global [QUARANTINE_DIR]. *)
Variable QUARANTINE_DIR : string.

(** The name under which a file is stored. *)
Definition quarantine_filename (now : Datetime) (filepath : string) : string :=
  let filename := PyStr.basename filepath in
  let timestamp := strftime_compact now in
  let '(name_part, ext_part) := PyStr.splitext filename in
  let safe_name :=
    PyStr.of_chars (take 8 (PyStr.chars (Md5.hexdigest name_part))) in
  timestamp +:+ "_" +:+ safe_name +:+ ext_part.

Definition quarantine_path (now : Datetime) (filepath : string) : string :=
  PyStr.join QUARANTINE_DIR (quarantine_filename now filepath).

Definition bump_quarantined (st : ScanStats) : ScanStats :=
  {| total_scanned := total_scanned st; clean_files := clean_files st;
     malicious_files := malicious_files st;
     suspicious_files := suspicious_files st; errors := errors st;
     quarantined := quarantined st + 1 |}.

(** [AntivirusGUI.quarantine_file]. It returns nothing; an exception
    raised inside ends in the [critical] message box of the outer
    [except Exception] clause. *)
Definition quarantine_file (os : OS) (filepath threat : string)
    (w : World) (st : ScanStats) : World * ScanStats * list Effect :=
  match fs w !! filepath with
  | None => (w, st, [Dialog Warning "오류"])
  | Some _ =>
      let filename := PyStr.basename filepath in
      let qpath := quarantine_path (now_name os) filepath in
      let '(w, effs, out) :=
        retry_loop os filepath qpath (seq 0 max_retries) None w in
      match out with
      | Raised _ => (w, st, effs ++ [Dialog Critical "오류"])
      | Finished success _ =>
          let asked :=
            if success then []
            else Dialog Question "파일 사용 중"
                 :: (if answer_yes os
                     then [OpenExplorer filepath;
                           Dialog Information "수동 삭제 필요"]
                     else []) in
          if meta_write_raises os then
            (w, st, effs ++ asked ++ [Dialog Critical "오류"])
          else
            let meta_path := qpath +:+ ".meta" in
            let meta :=
              {| original_path := filepath; original_filename := filename;
                 threat_name := threat;
                 quarantine_time := strftime_iso (now_meta os);
                 original_deleted := success |} in
            (with_fs w (<[meta_path := MetaJson meta]> (fs w)),
             bump_quarantined st,
             effs ++ asked
               ++ [if success then Dialog Information "성공"
                   else Dialog Warning "부분 성공"])
      end
  end.

(** [AntivirusGUI.clear_quarantine]: [listing] is what [os.listdir]
    returns, [remove_raises] tells for which paths [os.remove] raises;
    removing a path that is not there raises as well. *)
Fixpoint clear_loop (remove_raises : string → bool) (listing : list string)
    (f : gmap string File) : gmap string File * bool :=
  match listing with
  | [] => (f, true)
  | filename :: rest =>
      let filepath := PyStr.join QUARANTINE_DIR filename in
      if remove_raises filepath then (f, false)
      else match f !! filepath with
           | None => (f, false)
           | Some _ => clear_loop remove_raises rest (delete filepath f)
           end
  end.

(** The store after the entries of [listing] have been removed. *)
Definition removed_all (listing : list string) (f : gmap string File)
    : gmap string File :=
  foldl (λ m x, delete (PyStr.join QUARANTINE_DIR x) m) f listing.

Definition clear_quarantine (reply_yes : bool) (remove_raises : string → bool)
    (listing : list string) (f : gmap string File)
    : gmap string File * list Effect :=
  if reply_yes then
    let '(f, ok) := clear_loop remove_raises listing f in
    (f, [Dialog Question "확인";
         if ok then Dialog Information "성공" else Dialog Critical "오류"])
  else (f, [Dialog Question "확인"]).

End WithStore.

End Quarantine.

(* ===================================================================== *)
(** ** The window: slots, buttons, hash registration *)
(* ===================================================================== *)

Module Gui.

(** What the slot [add_result_to_table] does, in order. *)
Inductive SlotAction :=
| InsertRow (filename status threat md5 size : string)
| AddQuarantineButton (filepath threat : string)
| AddRecentThreat (threat filename : string)
| CallQuarantine (filepath threat : string).

Definition table_status_text (status : Z) : string :=
  match status with
  | 0%Z => "✅ 정상"
  | 1%Z => "🔴 악성"
  | 2%Z => "🔴 악성"
  | 3%Z => "⚠️ 의심"
  | (-1)%Z => "❌ 오류"
  | _ => "❓ 알수없음"
  end.

Definition is_threat (status : Z) : bool :=
  ((status =? 1) || (status =? 2) || (status =? 3))%Z.

(** [AntivirusGUI.add_result_to_table]; [auto_quarantine] is the state
    of the check box when the slot runs. *)
Definition add_result_to_table (auto_quarantine : bool) (result : ResultDict)
    : list SlotAction :=
  let filepath := default "" (rd_filepath result) in
  let filename := PyStr.basename filepath in
  let status := default (-1)%Z (rd_status result) in
  let threat := default "Unknown" (rd_threat_name result) in
  let md5 :=
    match rd_md5 result with
    | Some m => if bool_decide (m = "") then ""
                else PyStr.of_chars (take 16 (PyStr.chars m)) +:+ "..."
    | None => ""
    end in
  let size := default 0%Z (rd_file_size result) in
  InsertRow filename (table_status_text status) threat md5
            (pretty size +:+ " bytes")
  :: (if is_threat status then
        AddQuarantineButton filepath threat
        :: AddRecentThreat threat filename
        :: (if auto_quarantine then [CallQuarantine filepath threat] else [])
      else []).

(** The connections made by [_start_batch_scan]: of the worker's
    signals only [result_detailed] reaches [add_result_to_table]
    ([result_msg] is connected to nothing). The list is what the slot
    does over a whole trace, in the order of the signals. *)
Definition slot_actions (auto_quarantine : bool) (tr : list Action)
    : list SlotAction :=
  flat_map (λ a, match a with
                 | Emit (result_detailed d) => add_result_to_table auto_quarantine d
                 | _ => []
                 end) tr.

Definition quarantine_calls (l : list SlotAction) : list (string * string) :=
  flat_map (λ a, match a with
                 | CallQuarantine p t => [(p, t)]
                 | _ => []
                 end) l.

(** The buttons that start a scan. *)
Inductive Button :=
| quick_scan_btn | select_btn | folder_btn | full_scan_btn
| drive_scan_btn | all_drives_btn | usb_scan_btn.

Global Instance Button_eq_dec : EqDecision Button.
Proof. solve_decision. Defined.

(** The buttons [_start_batch_scan] disables and [scan_finished]
    enables again. *)
Definition toggled (b : Button) : bool :=
  match b with quick_scan_btn => false | _ => true end.

(** A started worker thread. *)
Record Worker := {
  worker_files : list string;
  worker_use_detailed : bool;
  worker_scan_type : string
}.

(** The part of the window's state the scan entry points touch;
    [running] lists the worker threads started and not yet finished,
    oldest first. *)
Record Window := {
  scan_thread : option Worker;
  running : list Worker;
  enabled : Button → bool;
  stop_scan_btn_enabled : bool;
  detailed_check : bool;
  result_rows : nat;
  progress_maximum : nat;
  progress_value : nat
}.

(** The window after [__init__]. *)
Definition initial : Window :=
  {| scan_thread := None; running := []; enabled := λ _, true;
     stop_scan_btn_enabled := false; detailed_check := true;
     result_rows := 0; progress_maximum := 100; progress_value := 0 |}.

(** [AntivirusGUI._start_batch_scan] *)
Definition _start_batch_scan (files : list string) (scan_type : string)
    (g : Window) : Window :=
  match files with
  | [] => g
  | _ :: _ =>
      let t := {| worker_files := files;
                  worker_use_detailed := detailed_check g;
                  worker_scan_type := scan_type |} in
      {| scan_thread := Some t;
         running := running g ++ [t];
         enabled := λ b, if toggled b then false else enabled g b;
         stop_scan_btn_enabled := true;
         detailed_check := detailed_check g;
         result_rows := 0;
         progress_maximum := length files;
         progress_value := 0 |}
  end.

(** A click: a disabled button ignores it; otherwise the handler
    collects [files] (through its dialogs and its enumeration) and, if
    there are any, calls [_start_batch_scan]. *)
Definition click (b : Button) (files : list string) (scan_type : string)
    (g : Window) : Window :=
  if enabled g b then _start_batch_scan files scan_type g else g.

(** [AntivirusGUI.scan_finished], as far as this state goes. *)
Definition scan_finished (g : Window) : Window :=
  {| scan_thread := scan_thread g;
     running := running g;
     enabled := λ b, if toggled b then true else enabled g b;
     stop_scan_btn_enabled := false;
     detailed_check := detailed_check g;
     result_rows := result_rows g;
     progress_maximum := progress_maximum g;
     progress_value := progress_maximum g |}.

(** The [i]-th running worker returns from [run]: the thread is gone
    and its [finished] signal runs [scan_finished]. *)
Definition worker_ends (i : nat) (g : Window) : Window :=
  scan_finished
    {| scan_thread := scan_thread g;
       running := delete i (running g);
       enabled := enabled g;
       stop_scan_btn_enabled := stop_scan_btn_enabled g;
       detailed_check := detailed_check g;
       result_rows := result_rows g;
       progress_maximum := progress_maximum g;
       progress_value := progress_value g |}.

(** How [add_hash] ends. *)
Inductive AddHashOutcome :=
| NoCapability
| MissingInput
| BadLength (expected : nat)
| Registered (hash_value threat_name : string) (severity : Z)
             (is_sha256 : bool) (count : Z)
| AdapterRaised (hash_value threat_name : string) (severity : Z)
                (is_sha256 : bool).

(** [AntivirusGUI.add_hash] from the texts of the two inputs, the
    severity spin box and the text of the type combo box; [lower] is
    [str.lower]. *)
Definition add_hash (lower : string → string) (eng : Engine)
    (hash_text name_text : string) (severity : Z) (type_text : string)
    : AddHashOutcome :=
  if negb (has_add_hash eng) then NoCapability
  else
    let hash_value := lower (PyStr.strip hash_text) in
    let threat_name := PyStr.strip name_text in
    let is_sha256 := bool_decide (type_text = "SHA256") in
    if bool_decide (hash_value = "") || bool_decide (threat_name = "")
    then MissingInput
    else
      let expected_len := if is_sha256 then 64 else 32 in
      if negb (PyStr.len hash_value =? expected_len)
      then BadLength expected_len
      else
        match engine_add_hash eng hash_value threat_name severity is_sha256 with
        | Some count =>
            Registered hash_value threat_name severity is_sha256 count
        | None => AdapterRaised hash_value threat_name severity is_sha256
        end.

(** Whether [engine.add_hash] was called. *)
Definition adapter_called (o : AddHashOutcome) : bool :=
  match o with
  | Registered _ _ _ _ _ | AdapterRaised _ _ _ _ => true
  | _ => false
  end.

(** Hexadecimal digits, for stating what a hash text should be. *)
Definition is_hex_char (c : ascii) : bool :=
  let n := nat_of_ascii c in
  ((48 <=? n) && (n <=? 57)) || ((97 <=? n) && (n <=? 102))
  || ((65 <=? n) && (n <=? 70)).

Definition is_hex (s : string) : bool := forallb is_hex_char (PyStr.chars s).

End Gui.

(* ===================================================================== *)
(** ** Concrete inputs used by the examples *)
(* ===================================================================== *)

Module Demo.

(** An engine without the detailed capability that flags two paths. *)
Definition engine : Engine :=
  {| scan_file := λ p,
       if bool_decide (p = "/tmp/virus.exe") then 1%Z
       else if bool_decide (p = "/tmp/odd.bin") then 3%Z
       else 0%Z;
     has_detailed_scan := false;
     engine_scan_file_detailed := λ _, None;
     has_add_hash := true;
     engine_add_hash := λ _ _ _ _, Some 1%Z |}.

Definition files : list string :=
  ["/tmp/clean.txt"; "/tmp/virus.exe"; "/tmp/odd.bin"].

(** [stop()] is never called. *)
Definition never : nat → bool := λ _, false.

(** [stop()] is called while the second file is being scanned. *)
Definition during_second : nat → bool := λ i, i =? 2.

(** 8 January 2026, 09:05:00, and one second later. *)
Definition now : Datetime :=
  {| year := 2026; month := 1; day := 8; hour := 9; minute := 5; second := 0 |}.
Definition a_second_later : Datetime :=
  {| year := 2026; month := 1; day := 8; hour := 9; minute := 5; second := 1 |}.

(** Thirty-two characters, none of them a hexadecimal digit. *)
Definition not_hex_32 : string := "zzzzzzzzzzzzzzzzzzzzzzzzzzzzzzzz".

(** The letter e with acute accent (U+00E9, two bytes) and 31 times the
    letter a; the no-break space U+00A0. *)
Definition accented_32 : string := "éaaaaaaaaaaaaaaaaaaaaaaaaaaaaaaa".
Definition nbsp : string := PyStr.of_chars [ascii_of_nat 194; ascii_of_nat 160].

(** A window in which a quick scan of one file has been started. *)
Definition scanning : Gui.Window :=
  Gui.click Gui.quick_scan_btn ["/tmp/clean.txt"] "빠른 스캔" Gui.initial.

(** A quarantine store with two files; removing the first one raises. *)
Definition store : gmap string File :=
  {[ "/q/a.bin" := Data []; "/q/b.bin" := Data [] ]}.
Definition first_is_locked : string → bool :=
  λ p, bool_decide (p = "/q/a.bin").

(** A file that stays locked through all five attempts, while an editor
    holds a file whose path differs from it in letter case only. *)
Definition locked_os : OS :=
  {| str_lower := PyStr.ascii_lower; abspath := λ p, p; has_psutil := true;
     attempt_fault := λ _, RemoveFails PermissionError;
     meta_write_raises := false; answer_yes := false;
     now_name := now; now_meta := a_second_later |}.
Definition editor : Proc :=
  {| pid := 7; pname := Some "editor";
     open_files := inr ["/home/a/EVIL.EXE"]; kill_result := None |}.
Definition holder : Proc :=
  {| pid := 8; pname := Some "viewer";
     open_files := inr ["/home/a/evil.exe"]; kill_result := Some AccessDenied |}.
Definition world : World :=
  {| fs := {[ "/home/a/evil.exe" := Data [Byte.x4d; Byte.x5a] ]};
     procs := [editor; holder] |}.

End Demo.

(* ===================================================================== *)
(** ** More path helpers *)
(* ===================================================================== *)

Module PyPath.

(** [s.endswith(suffix)] *)
Definition endswith (s suffix : string) : bool :=
  let l := PyStr.chars s in
  let k := PyStr.chars suffix in
  bool_decide (drop (length l - length k) l = k).

(** One more than the position of the last [/] of [l], 0 when there is
    none: [p.rfind('/') + 1]. *)
Fixpoint after_last_sep (i best : nat) (l : list ascii) : nat :=
  match l with
  | [] => best
  | c :: r => after_last_sep (S i) (if decide (c = "/"%char) then S i else best) r
  end.

Fixpoint lstrip_sep (l : list ascii) : list ascii :=
  match l with
  | c :: r => if decide (c = "/"%char) then lstrip_sep r else l
  | [] => []
  end.

(** [os.path.dirname]: the text up to the last [/], without trailing
    separators unless it consists of separators only. *)
Definition dirname (p : string) : string :=
  let l := PyStr.chars p in
  let head := take (after_last_sep 0 0 l) l in
  match lstrip_sep (rev head) with
  | [] => PyStr.of_chars head
  | stripped => PyStr.of_chars (rev stripped)
  end.

End PyPath.

(* ===================================================================== *)
(** ** The verdict stream of a job *)
(* ===================================================================== *)

(** The snapshots of a trace, in order. *)
Fixpoint snapshots (tr : list Action) : list StatsSnapshot :=
  match tr with
  | [] => []
  | Emit (stats_update s) :: r => s :: snapshots r
  | _ :: r => snapshots r
  end.

(** How often [finished] is emitted. *)
Fixpoint finished_count (tr : list Action) : nat :=
  match tr with
  | [] => 0
  | Emit finished :: r => S (finished_count r)
  | _ :: r => finished_count r
  end.

(** The status one iteration of [run] tallies for a file. *)
Definition verdict (eng : Engine) (use_detailed : bool) (filepath : string) : Z :=
  if use_detailed
  then default (-1)%Z (rd_status (scan_file_detailed eng filepath))
  else scan_file eng filepath.

(** The statistics after the verdicts of [files], from zero. *)
Definition tally_all (eng : Engine) (use_detailed : bool) (files : list string)
    : ScanStats :=
  foldl (λ st f, tally (verdict eng use_detailed f) st) ScanStats_init files.

(** One snapshot is at most another, bucket by bucket. *)
Definition snapshot_le (a b : StatsSnapshot) : Prop :=
  snap_total a ≤ snap_total b ∧ snap_clean a ≤ snap_clean b
  ∧ snap_malicious a ≤ snap_malicious b
  ∧ snap_suspicious a ≤ snap_suspicious b ∧ snap_errors a ≤ snap_errors b.

(** Neither bracket occurs in a text. *)
Definition bracket_free (s : string) : bool :=
  forallb (λ c, negb (bool_decide (c = "]"%char))
                && negb (bool_decide (c = "["%char))) (PyStr.chars s).

(** The sleeps of an effect log, added up (milliseconds). *)
Definition total_sleep (effs : list Effect) : nat :=
  foldr (λ e acc, match e with Sleep ms => ms + acc | _ => acc end) 0 effs.

(* ===================================================================== *)
(** ** The window's side of a job: progress bar, statistics, history *)
(* ===================================================================== *)

(** One entry of [scan_history]. *)
Record HistoryEntry := {
  h_time : string;
  h_type : string;
  h_total : nat;
  h_threats : nat;
  h_status : string
}.

Module Consumer.

(** The fields of the window that the slots of [progress],
    [stats_update] and [finished] read and write. ([self.stats.quarantined]
    is written by [quarantine_file] only and is not among them.) *)
Record View := {
  view_stats : StatsSnapshot;
  view_progress : nat;
  view_progress_max : nat;
  view_history : list HistoryEntry
}.

(** [QProgressBar.setValue]: a value outside the range is ignored. *)
Definition set_progress (i : nat) (v : View) : View :=
  if i <=? view_progress_max v then
    {| view_stats := view_stats v; view_progress := i;
       view_progress_max := view_progress_max v;
       view_history := view_history v |}
  else v.

(** [AntivirusGUI.update_stats] *)
Definition update_stats (s : StatsSnapshot) (v : View) : View :=
  {| view_stats := s; view_progress := view_progress v;
     view_progress_max := view_progress_max v;
     view_history := view_history v |}.

(** [AntivirusGUI.scan_finished], with the clock reading [now]. *)
Definition scan_finished (now : Datetime) (scan_type : string)
    (total_files : nat) (v : View) : View :=
  {| view_stats := view_stats v;
     view_progress := view_progress_max v;
     view_progress_max := view_progress_max v;
     view_history :=
       view_history v ++
         [{| h_time := strftime_iso now; h_type := scan_type;
             h_total := total_files;
             h_threats := snap_malicious (view_stats v)
                          + snap_suspicious (view_stats v);
             h_status := "완료" |}] |}.

(** The part of [_start_batch_scan] on these fields. *)
Definition start (files : list string) (v : View) : View :=
  {| view_stats := view_stats v; view_progress := 0;
     view_progress_max := length files; view_history := view_history v |}.

(** One action of the worker as the window sees it, with the connections
    [_start_batch_scan] makes: [progress] to the bar, [stats_update] to
    [update_stats], [finished] to [scan_finished] with the scan type and
    [len(files)] captured at the start. *)
Definition deliver (now : Datetime) (scan_type : string) (total_files : nat)
    (v : View) (a : Action) : View :=
  match a with
  | Emit (progress i) => set_progress i v
  | Emit (stats_update s) => update_stats s v
  | Emit finished => scan_finished now scan_type total_files v
  | _ => v
  end.

(** A whole job: the start, then every action of the worker in order. *)
Definition job (now : Datetime) (scan_type : string) (files : list string)
    (tr : list Action) (v : View) : View :=
  foldl (deliver now scan_type (length files)) (start files v) tr.

(** [AntivirusGUI.refresh_history]: the rows of the history table, from
    [reversed(self.scan_history[-50:])]. *)
Definition refresh_history (scan_history : list HistoryEntry)
    : list HistoryEntry :=
  rev (drop (length scan_history - 50) scan_history).

End Consumer.

(* ===================================================================== *)
(** ** Restore, delete and the quarantine table *)
(* ===================================================================== *)

(** What the user and the operating system decide during a restore or a
    delete. *)
Record StoreOS := {
  confirm : bool;
  dir_exists : string → bool;
  makedirs_raises : string → bool;
  copy_raises : bool;
  store_remove_raises : string → bool
}.

Module Store.

(** [os.remove]: raises for a path that is not there, or when the
    operating system says so. *)
Definition os_remove (os : StoreOS) (p : string) (f : gmap string File)
    : option (gmap string File) :=
  match f !! p with
  | None => None
  | Some _ => if store_remove_raises os p then None else Some (delete p f)
  end.

(** [AntivirusGUI.restore_file]. A sidecar that is not a JSON object
    makes [json.load] or [meta.get] raise; [shutil.copy2] raises when
    source and target are the same file. The file system of the model
    holds files only: [original_path] is taken not to name a directory
    (into which [shutil.copy2] would copy instead). *)
Definition restore_file (os : StoreOS) (filepath : string)
    (f : gmap string File) : gmap string File * list Effect :=
  match f !! filepath with
  | None => (f, [Dialog Warning "오류"])
  | Some content =>
      let meta_path := filepath +:+ ".meta" in
      match f !! meta_path with
      | None =>
          if confirm os then
            match os_remove os filepath f with
            | None => (f, [Dialog Question "메타데이터 없음"; Dialog Critical "오류"])
            | Some f' =>
                (f', [Dialog Question "메타데이터 없음"; Dialog Information "완료"])
            end
          else (f, [Dialog Question "메타데이터 없음"])
      | Some (Data _) => (f, [Dialog Critical "오류"])
      | Some (MetaJson meta) =>
          let target := original_path meta in
          if bool_decide (target = "") then (f, [Dialog Warning "오류"])
          else
            let original_dir := PyPath.dirname target in
            if negb (dir_exists os original_dir) && makedirs_raises os original_dir
            then (f, [Dialog Critical "오류"])
            else if copy_raises os || bool_decide (target = filepath)
            then (f, [Dialog Critical "오류"])
            else
              let f1 := <[target := content]> f in
              match os_remove os filepath f1 with
              | None => (f1, [Dialog Critical "오류"])
              | Some f2 =>
                  match os_remove os meta_path f2 with
                  | None => (f2, [Dialog Critical "오류"])
                  | Some f3 => (f3, [Dialog Information "성공"])
                  end
              end
      end
  end.

(** [AntivirusGUI.delete_file] *)
Definition delete_file (os : StoreOS) (filepath : string)
    (f : gmap string File) : gmap string File * list Effect :=
  if confirm os then
    match os_remove os filepath f with
    | None => (f, [Dialog Question "확인"; Dialog Critical "오류"])
    | Some f1 =>
        let meta_path := filepath +:+ ".meta" in
        match f1 !! meta_path with
        | None => (f1, [Dialog Question "확인"; Dialog Information "성공"])
        | Some _ =>
            match os_remove os meta_path f1 with
            | None => (f1, [Dialog Question "확인"; Dialog Critical "오류"])
            | Some f2 => (f2, [Dialog Question "확인"; Dialog Information "성공"])
            end
        end
    end
  else (f, [Dialog Question "확인"]).

(** One row of the quarantine table: the three visible columns and the
    path its two buttons are bound to. *)
Record Row := {
  row_original_filename : string;
  row_quarantine_time : string;
  row_threat_name : string;
  row_filepath : string
}.

Section WithStore.
(** The global [QUARANTINE_DIR]. *)
Variable QUARANTINE_DIR : string.

(** [AntivirusGUI.refresh_quarantine] on what [os.listdir] returns. *)
Fixpoint refresh_quarantine (listing : list string) (f : gmap string File)
    : list Row :=
  match listing with
  | [] => []
  | filename :: rest =>
      if PyPath.endswith filename ".meta" then refresh_quarantine rest f
      else
        let filepath := PyStr.join QUARANTINE_DIR filename in
        let meta_path := filepath +:+ ".meta" in
        match f !! meta_path with
        | Some (MetaJson meta) =>
            {| row_original_filename := original_filename meta;
               row_quarantine_time := quarantine_time meta;
               row_threat_name := threat_name meta;
               row_filepath := filepath |}
        | _ =>
            {| row_original_filename := filename;
               row_quarantine_time := "Unknown";
               row_threat_name := "Unknown";
               row_filepath := filepath |}
        end :: refresh_quarantine rest f
  end.

(** [AntivirusGUI.restore_from_quarantine]: the path is built from the
    text of the first column of the selected row ([None]: no row is
    selected). *)
Definition restore_from_quarantine (os : StoreOS) (selected : option Row)
    (f : gmap string File) : gmap string File * list Effect :=
  match selected with
  | Some r =>
      restore_file os (PyStr.join QUARANTINE_DIR (row_original_filename r)) f
  | None => (f, [Dialog Warning "경고"])
  end.

End WithStore.

End Store.

(* ===================================================================== *)
(** ** Settings *)
(* ===================================================================== *)

Module Settings.

Section WithValues.
(** JSON values, and the JSON string for a text. *)
Variable V : Type.
Variable text : string → V.

(** What is found at [SETTINGS_FILE]: nothing; a file that cannot be
    opened or decoded; a JSON object; another JSON value, for which
    [key in settings] is [in_other] ([None]: the test itself raises).
    A value that is no JSON object and does not contain the key makes the
    assignment [settings[key] = value] raise. *)
Inductive SettingsFile :=
| NoFile
| Unreadable
| JsonObject (d : gmap string V)
| JsonOther (in_other : option bool).

(** What [load_settings] returns: a dict, or the decoded value itself
    when it is not a JSON object. *)
Inductive Loaded :=
| Dict (d : gmap string V)
| NotADict.

(** [default_settings], with the directory of the script. *)
Definition default_settings (script_dir : string) : gmap string V :=
  {[ "quarantine_dir" := text (PyStr.join script_dir "quarantine") ]}.

(** The merge loop over [default_settings.items()]. *)
Definition fill_defaults (defaults settings : gmap string V) : gmap string V :=
  map_fold (λ key value acc,
              match acc !! key with
              | None => <[key := value]> acc
              | Some _ => acc
              end) settings defaults.

(** [load_settings] *)
Definition load_settings (script_dir : string) (file : SettingsFile) : Loaded :=
  let default := default_settings script_dir in
  match file with
  | NoFile => Dict default
  | Unreadable => Dict default
  | JsonObject settings => Dict (fill_defaults default settings)
  | JsonOther (Some true) => NotADict
  | JsonOther _ => Dict default
  end.

End WithValues.

End Settings.

(* ===================================================================== *)
(** ** Enumeration without a cap *)
(* ===================================================================== *)

(** The two loops over [os.walk] as [quick_scan] and the recursive
    [scan_folder] have them, with no test of the length: every file of
    every directory of the walk. *)
Definition walk_all (w : Walk) : list string :=
  flat_map (λ '(root, files), map (PyStr.join root) files) w.

(* ===================================================================== *)
(** ** Reading the fault oracle *)
(* ===================================================================== *)

(** The exception a fault raises. *)
Definition fault_exc (f : Fault) : option PyExc :=
  match f with
  | NoFault => None
  | ReadFails e | OpenFails e | WriteFails e _ | RemoveFails e => Some e
  end.

(** The attempt gets as far as [os.remove]: the copy has been written. *)
Definition reaches_removal (f : Fault) : bool :=
  match f with
  | NoFault | RemoveFails _ => true
  | ReadFails _ | OpenFails _ | WriteFails _ _ => false
  end.

(** The attempt raises before anything is created in the store: at
    reading the original or at opening the store file. *)
Definition before_store (f : Fault) : bool :=
  match f with
  | ReadFails _ | OpenFails _ => true
  | _ => false
  end.

(* ===================================================================== *)
(** ** More concrete inputs *)
(* ===================================================================== *)

Module Sample.

(** An engine with the detailed capability that always raises. *)
Definition failing_detailed : Engine :=
  {| scan_file := scan_file Demo.engine;
     has_detailed_scan := true;
     engine_scan_file_detailed := λ _, None;
     has_add_hash := true;
     engine_add_hash := λ _ _ _ _, Some 1%Z |}.

(** The file is locked for two attempts and free at the third. *)
Definition free_at_third : OS :=
  {| str_lower := PyStr.ascii_lower; abspath := λ p, p; has_psutil := false;
     attempt_fault := λ a, if a <? 2 then RemoveFails PermissionError else NoFault;
     meta_write_raises := false; answer_yes := false;
     now_name := Demo.now; now_meta := Demo.a_second_later |}.

(** The file stays locked through all five attempts and the sidecar
    cannot be written. *)
Definition locked_unwritable : OS :=
  {| str_lower := PyStr.ascii_lower; abspath := λ p, p; has_psutil := false;
     attempt_fault := λ _, RemoveFails PermissionError;
     meta_write_raises := true; answer_yes := false;
     now_name := Demo.now; now_meta := Demo.a_second_later |}.

(** Reading fails with a permission error at every attempt. *)
Definition unreadable : OS :=
  {| str_lower := PyStr.ascii_lower; abspath := λ p, p; has_psutil := false;
     attempt_fault := λ _, ReadFails PermissionError;
     meta_write_raises := false; answer_yes := false;
     now_name := Demo.now; now_meta := Demo.a_second_later |}.

(** Removing fails with another exception at every attempt. *)
Definition broken : OS :=
  {| str_lower := PyStr.ascii_lower; abspath := λ p, p; has_psutil := false;
     attempt_fault := λ _, RemoveFails OtherException;
     meta_write_raises := false; answer_yes := false;
     now_name := Demo.now; now_meta := Demo.a_second_later |}.

(** A restore or delete in which everything works. *)
Definition willing : StoreOS :=
  {| confirm := true; dir_exists := λ _, true; makedirs_raises := λ _, false;
     copy_raises := false; store_remove_raises := λ _, false |}.

End Sample.

(* ===================================================================== *)
(** * Properties *)
(* ===================================================================== *)

(** ** The worker loop *)

Section RunProperties.

Variable eng : Engine.
Variable use_detailed : bool.
Variable stop_during : nat → bool.

Lemma tally_total status st :
  total_scanned (tally status st) = total_scanned st + 1.
Proof. unfold tally. repeat case_match; reflexivity. Qed.

Lemma tally_balanced status st :
  balanced (snapshot st) → balanced (snapshot (tally status st)).
Proof.
  unfold balanced, snapshot, tally; simpl.
  repeat case_match; simpl; lia.
Qed.

(** One iteration scans its own file once, emits the result signals
    and tallies one verdict. *)
Lemma scan_one_shape filepath st :
  ∃ status sigs,
    scan_one eng use_detailed filepath st
    = (Scan filepath :: map Emit sigs, tally status st)
    ∧ Forall (λ s, match s with
                   | result_detailed _ | result_msg _ => True
                   | _ => False
                   end) sigs.
Proof.
  unfold scan_one. destruct use_detailed.
  - eexists _, [_; _]. split; [reflexivity|]. repeat constructor.
  - unfold scan_file_basic. eexists _, [_]. split; [reflexivity|].
    repeat constructor.
Qed.

Lemma count_scans_app l k : count_scans (l ++ k) = count_scans l + count_scans k.
Proof. induction l as [|[]]; simpl; lia. Qed.

Lemma scanned_app l k : scanned (l ++ k) = scanned l ++ scanned k.
Proof. induction l as [|[]]; simpl; congruence. Qed.

Lemma progress_indices_app l k :
  progress_indices (l ++ k) = progress_indices l ++ progress_indices k.
Proof. induction l as [|[|[]]]; simpl; congruence. Qed.

Lemma result_signals_silent sigs :
  Forall (λ s, match s with
               | result_detailed _ | result_msg _ => True
               | _ => False
               end) sigs →
  count_scans (map Emit sigs) = 0 ∧ scanned (map Emit sigs) = []
  ∧ progress_indices (map Emit sigs) = [].
Proof.
  induction 1 as [|s sigs Hs _ IH]; [done|].
  destruct s; simpl in *; try done.
Qed.

Lemma run_loop_emitted file_list :
  ∀ i flag st pre x post,
    balanced (snapshot st) →
    total_scanned st + 1 = i →
    (run_loop eng use_detailed stop_during i flag file_list st).1
    = pre ++ x :: post →
    carries (total_scanned st) pre x.
Proof.
  induction file_list as [|filepath rest IH]; intros i flag st pre x post Hbal Hi.
  - simpl. intros H. by destruct pre.
  - simpl. destruct flag.
    + simpl. intros H. destruct pre as [|? [|? ?]]; simplify_eq/=. done.
    + destruct (scan_one_shape filepath st) as (status & sigs & -> & Hsigs).
      destruct (run_loop _ _ _ (S i) _ rest _) as [later st''] eqn:Hlater.
      simpl. intros H.
      pose proof (tally_balanced status st Hbal) as Hbal'.
      pose proof (tally_total status st) as Htot.
      destruct pre as [|a pre]; [by simplify_eq/=|].
      simpl in H. injection H as <- H.
      apply app_eq_inv in H as [(k & Hk1 & Hk2)|(k & Hk1 & Hk2)].
      * (* the signal is one of the result signals *)
        destruct k as [|y k]; simpl in Hk2.
        -- injection Hk2 as -> _. rewrite app_nil_r in Hk1. subst pre.
           simpl. rewrite (proj1 (result_signals_silent _ Hsigs)). split; [done|].
           unfold snapshot; simpl. lia.
        -- injection Hk2 as -> _.
           assert (Hin : y ∈ map Emit sigs).
           { rewrite Hk1. apply elem_of_app. right. by left. }
           apply list_elem_of_fmap in Hin as (s & -> & Hs).
           rewrite Forall_forall in Hsigs. specialize (Hsigs s Hs).
           by destruct s.
      * subst pre.
        assert (Hcount : ∀ l, count_scans (Scan filepath :: map Emit sigs ++ l)
                              = S (count_scans l)).
        { intros l. cbn [count_scans]. rewrite count_scans_app.
          by rewrite (proj1 (result_signals_silent _ Hsigs)). }
        destruct k as [|y k]; simpl in Hk2.
        { injection Hk2 as <- _. unfold carries. rewrite Hcount. simpl.
          split; [done|]. lia. }
        injection Hk2 as <- Hk2.
        destruct k as [|z k]; simpl in Hk2.
        { injection Hk2 as <- _. unfold carries. rewrite Hcount. simpl. lia. }
        injection Hk2 as <- Hk2.
        specialize (IH (S i) (stop_during i) (tally status st) k x post Hbal').
        simpl in Hlater. rewrite Hlater in IH. simpl in IH.
        specialize (IH ltac:(lia) Hk2).
        unfold carries in *. rewrite Htot in IH.
        replace (Scan filepath :: map Emit sigs
                 ++ Emit (stats_update (snapshot (tally status st)))
                 :: Emit (progress i) :: k)
          with (Scan filepath :: map Emit sigs
                ++ ([Emit (stats_update (snapshot (tally status st)));
                     Emit (progress i)] ++ k)) by done.
        rewrite Hcount, count_scans_app. simpl.
        destruct x as [|[]]; try done.
        -- lia.
        -- destruct IH. split; [done|]. lia.
Qed.

Lemma run_emitted file_list pre x post :
  run eng use_detailed stop_during file_list = pre ++ x :: post →
  carries 0 pre x.
Proof.
  unfold run. intros H.
  apply app_eq_inv in H as [(k & Hk1 & Hk2)|(k & Hk1 & Hk2)].
  - destruct k as [|y k]; simplify_eq/=.
    + done.
    + eapply (run_loop_emitted file_list 1 _ ScanStats_init); [done|done|].
      exact Hk1.
  - destruct k as [|y k]; simplify_eq/=.
    + done.
    + by destruct k.
Qed.

(** The scans and the progress indices of the loop when [stop()] is
    first called while iteration [j] is in flight. *)
Lemma run_loop_cancelled file_list :
  ∀ i j st,
    i ≤ j →
    (∀ k, i ≤ k < j → stop_during k = false) →
    stop_during j = true →
    let tr := (run_loop eng use_detailed stop_during i false file_list st).1 in
    scanned tr = take (S (j - i)) file_list
    ∧ progress_indices tr = seq i (min (S (j - i)) (length file_list)).
Proof.
  induction file_list as [|filepath rest IH]; intros i j st Hij Hquiet Hstop; simpl.
  - done.
  - destruct (scan_one_shape filepath st) as (status & sigs & -> & Hsigs).
    destruct (run_loop _ _ _ (S i) _ rest _) as [later st''] eqn:Hlater.
    simpl. rewrite scanned_app, progress_indices_app.
    destruct (result_signals_silent _ Hsigs) as (_ & -> & ->). simpl.
    destruct (decide (i = j)) as [->|Hne].
    + rewrite Hstop in Hlater. rewrite Nat.sub_diag.
      destruct rest; simpl in Hlater; simplify_eq/=; done.
    + rewrite (Hquiet i) in Hlater by lia.
      specialize (IH (S i) j (tally status st) ltac:(lia)).
      rewrite Hlater in IH. simpl in IH.
      destruct IH as [IH1 IH2]; [intros; apply Hquiet; lia|done|].
      replace (j - i) with (S (j - S i)) by lia.
      rewrite IH1, IH2. done.
Qed.

Lemma run_loop_stopped file_list i st :
  let tr := (run_loop eng use_detailed stop_during i true file_list st).1 in
  scanned tr = [] ∧ progress_indices tr = [].
Proof. destruct file_list; done. Qed.

End RunProperties.

(** C1. At every [stats_update] snapshot emitted during one run of the
    worker, clean + malicious + suspicious + errors equals total, and
    total equals the number of files whose scan completed so far. *)
Theorem C1_stats_snapshot_invariant
    (eng : Engine) (use_detailed : bool) (stop_during : nat → bool)
    (file_list : list string) (pre : list Action) (s : StatsSnapshot)
    (post : list Action) :
  run eng use_detailed stop_during file_list
  = pre ++ Emit (stats_update s) :: post →
  snap_clean s + snap_malicious s + snap_suspicious s + snap_errors s
  = snap_total s
  ∧ snap_total s = count_scans pre.
Proof.
  intros H.
  pose proof (run_emitted eng use_detailed stop_during file_list pre
                (Emit (stats_update s)) post H) as Hcarried.
  destruct Hcarried as [Hbalanced Htotal].
  split.
  - exact Hbalanced.
  - rewrite Htotal. reflexivity.
Qed.

Lemma C1_stats_snapshot_invariant_witness :
  let tr := run Demo.engine true Demo.never Demo.files in
  let s := {| snap_total := 2; snap_clean := 1; snap_malicious := 1;
              snap_suspicious := 0; snap_errors := 0 |} in
  (snap_clean s + snap_malicious s + snap_suspicious s + snap_errors s
   = snap_total s)
  ∧ snap_total s = count_scans (take 8 tr).
Proof.
  intros tr s.
  apply (C1_stats_snapshot_invariant Demo.engine true Demo.never Demo.files
           (take 8 tr) s (drop 9 tr)).
  vm_compute. reflexivity.
Defined.

(** C10. When [stop()] is first called while iteration [j] is in flight
    ([j = 0]: before the first iteration), the worker still completes
    that iteration and stops at the next boundary: exactly the first [j]
    files are scanned, each once and in order, the progress indices
    emitted are 1..j, and every progress index equals the number of scans
    completed before it. *)
Theorem C10_cooperative_cancellation
    (eng : Engine) (use_detailed : bool) (stop_during : nat → bool)
    (file_list : list string) (j : nat) :
  (∀ i, i < j → stop_during i = false) →
  stop_during j = true →
  j ≤ length file_list →
  let tr := run eng use_detailed stop_during file_list in
  scanned tr = take j file_list
  ∧ progress_indices tr = seq 1 j
  ∧ (∀ pre p post, tr = pre ++ Emit (progress p) :: post → p = count_scans pre)
  ∧ (NoDup file_list → NoDup (scanned tr)).
Proof.
  intros Hquiet Hstop Hlen tr.
  assert (Hsc : scanned tr = take j file_list ∧ progress_indices tr = seq 1 j).
  { subst tr. unfold run. rewrite scanned_app, progress_indices_app. simpl.
    rewrite !app_nil_r. destruct j as [|j].
    - rewrite Hstop. apply run_loop_stopped.
    - rewrite (Hquiet 0) by lia.
      destruct (run_loop_cancelled eng use_detailed stop_during file_list
                  1 (S j) ScanStats_init) as [H1 H2];
        [lia | intros; apply Hquiet; lia | done |].
      replace (S (S j - 1)) with (S j) in * by lia.
      rewrite Nat.min_l in H2 by lia. done. }
  destruct Hsc as [Hsc Hpr]. repeat split; [done|done| |].
  - intros pre p post H. exact (run_emitted _ _ _ _ _ _ _ H).
  - intros Hnd. rewrite Hsc. exact (sublist_NoDup _ _ Hnd (sublist_take _ _)).
Qed.

Lemma C10_cooperative_cancellation_witness :
  let tr := run Demo.engine true Demo.during_second Demo.files in
  scanned tr = take 2 Demo.files
  ∧ progress_indices tr = seq 1 2
  ∧ (∀ pre p post, tr = pre ++ Emit (progress p) :: post → p = count_scans pre)
  ∧ (NoDup Demo.files → NoDup (scanned tr)).
Proof.
  apply (C10_cooperative_cancellation Demo.engine true Demo.during_second
           Demo.files 2).
  - intros [|[|i]] Hi; [reflexivity | reflexivity | lia].
  - reflexivity.
  - simpl. lia.
Defined.

(** ** Results, the table slot and automatic quarantine *)

Section AutoQuarantine.

Variable eng : Engine.
Variable stop_during : nat → bool.

(** In detailed mode each completed scan is directly followed by the
    [result_detailed] signal of the same file. *)
Lemma run_loop_result_follows file_list :
  ∀ i flag st pre filepath post,
    (run_loop eng true stop_during i flag file_list st).1
    = pre ++ Scan filepath :: post →
    ∃ post',
      post = Emit (result_detailed
                     (set_filepath (scan_file_detailed eng filepath) filepath))
             :: post'.
Proof.
  induction file_list as [|f rest IH]; intros i flag st pre filepath post; simpl.
  - intros H. by destruct pre.
  - destruct flag; simpl.
    + intros H. destruct pre as [|? [|? ?]]; simplify_eq/=.
    + destruct (run_loop _ _ _ (S i) _ rest _) as [later st''] eqn:Hlater.
      simpl. intros H.
      destruct pre as [|a0 pre]; simpl in H.
      { injection H as <- <-. eauto. }
      injection H as _ H.
      do 4 (destruct pre as [|? pre]; simpl in H; [discriminate H|];
            injection H as _ H).
      change later with ((later, st'').1) in H. rewrite <- Hlater in H.
      exact (IH _ _ _ _ _ _ H).
Qed.

(** In basic mode no [result_detailed] signal is emitted, so the table
    slot never runs. *)
Lemma run_loop_basic_no_slot auto file_list :
  ∀ i flag st,
    Gui.slot_actions auto
      (run_loop eng false stop_during i flag file_list st).1 = [].
Proof.
  induction file_list as [|f rest IH]; intros i flag st; simpl; [done|].
  destruct flag; [done|].
  specialize (IH (S i) (stop_during i) (tally (scan_file eng f) st)).
  unfold scan_file_basic. simpl.
  destruct (run_loop _ _ _ (S i) _ rest _) as [later st'']. simpl in *.
  exact IH.
Qed.

End AutoQuarantine.

(** C5. The failing input: detailed scanning is switched off, automatic
    quarantine is switched on, and the first file of the job has verdict
    1 (malicious, signature). The worker scans the file, counts it as
    malicious and goes on to the next file; the result travels in
    [result_msg] only, which no slot is connected to, and
    [quarantine_file] is not called. With detailed scanning on, the same
    job does call [quarantine_file] for that file. In basic mode the slot
    does nothing for any engine, file list and stop schedule. *)
Theorem C5_basic_mode_skips_auto_quarantine :
  let file_list := ["/tmp/virus.exe"; "/tmp/clean.txt"] in
  let basic := run Demo.engine false Demo.never file_list in
  let detailed := run Demo.engine true Demo.never file_list in
  (scan_file Demo.engine "/tmp/virus.exe" = 1%Z
   ∧ scanned basic = file_list
   ∧ map snap_malicious (snapshots basic) = [1; 1]
   ∧ Gui.quarantine_calls (Gui.slot_actions true basic) = []
   ∧ Gui.quarantine_calls (Gui.slot_actions true detailed)
     = [("/tmp/virus.exe", "악성-시그니처")])
  ∧ (∀ eng stop_during files auto,
       Gui.slot_actions auto (run eng false stop_during files) = []).
Proof.
  split; [vm_compute; done|].
  intros eng stop_during files auto. unfold run, Gui.slot_actions.
  rewrite flat_map_app. simpl. rewrite app_nil_r.
  apply run_loop_basic_no_slot.
Qed.

(** ** The capped enumerations *)

Section EnumerateProperties.

Import Enumerate.
Variable limit : Z.
Hypothesis limit_nonneg : (0 ≤ limit)%Z.

(** A directory with enough files fills the list up to one more than
    the constant of the test. *)
Lemma add_files_fill root files :
  ∀ file_list,
    (Z.of_nat (length file_list) ≤ limit)%Z →
    (limit < Z.of_nat (length file_list + length files))%Z →
    Z.of_nat (length (add_files limit root files file_list)) = (limit + 1)%Z.
Proof.
  induction files as [|name rest IH]; intros file_list Hle Hlt; simpl in *.
  - lia.
  - destruct (Z.ltb_spec limit (Z.of_nat (length (file_list ++ [PyStr.join root name]))))
      as [Hbrk|Hgo]; rewrite length_app in *; simpl in *.
    + lia.
    + apply IH; rewrite length_app; simpl; lia.
Qed.

(** Once the list is that long, every later directory that has a file
    still adds one. *)
Lemma add_files_over root name rest file_list :
  (limit ≤ Z.of_nat (length file_list))%Z →
  add_files limit root (name :: rest) file_list
  = file_list ++ [PyStr.join root name].
Proof.
  intros Hle. simpl.
  destruct (Z.ltb_spec limit (Z.of_nat (length (file_list ++ [PyStr.join root name]))))
    as [Hbrk|Hgo]; [done|].
  rewrite length_app in Hgo. simpl in Hgo. lia.
Qed.

Lemma add_files_counting_fst root files :
  ∀ file_list n,
    (add_files_counting limit root files file_list n).1
    = add_files limit root files file_list.
Proof.
  induction files as [|name rest IH]; intros file_list n; simpl; [done|].
  destruct (_ <? _)%Z; [done|]. apply IH.
Qed.

Lemma walk_collect_counting_fst w :
  ∀ file_list n,
    (walk_collect_counting limit w file_list n).1
    = walk_collect limit w file_list.
Proof.
  induction w as [|[root files] later IH]; intros file_list n; simpl; [done|].
  pose proof (add_files_counting_fst root files file_list n) as H.
  destruct (add_files_counting _ _ _ _ _) as [fl m]. simpl in H. subst fl.
  apply IH.
Qed.

Lemma walk_collect_app w1 w2 :
  ∀ file_list,
    walk_collect limit (w1 ++ w2) file_list
    = walk_collect limit w2 (walk_collect limit w1 file_list).
Proof.
  induction w1 as [|[root files] later IH]; intros file_list; simpl; [done|].
  apply IH.
Qed.

(** Two directories, the first with more than [limit + 1] files, the
    second with at least one: the list ends with [limit + 2] entries. *)
Lemma walk_collect_two root1 files1 root2 name2 rest2 :
  (limit < Z.of_nat (length files1))%Z →
  Z.of_nat (length (walk_collect limit
                      [(root1, files1); (root2, name2 :: rest2)] []))
  = (limit + 2)%Z.
Proof.
  intros Hlen. cbn [walk_collect].
  pose proof (add_files_fill root1 files1 [] ltac:(simpl; lia)
                ltac:(simpl; lia)) as Hfill.
  rewrite add_files_over by lia.
  rewrite length_app. simpl. lia.
Qed.

End EnumerateProperties.

Lemma names_length n :
  (0 ≤ n)%Z → Z.of_nat (length (Enumerate.names n)) = n.
Proof.
  intros Hn. unfold Enumerate.names. rewrite length_map, length_seq.
  by apply Z2Nat.id.
Qed.

(** C3, the code at a failing input. The walk yields a directory with
    [cap + 2] files and then a directory with one file. Each of the four
    capped enumerations returns [cap + 2] paths: one more than the cap
    from the first directory (the test is [>], not [>=]) and one more for
    the second directory (the [break] leaves the inner loop only). *)
Theorem C3_enumeration_exceeds_cap :
  Z.of_nat (length (Enumerate.full_system_scan
                      [("/", Enumerate.names 10002); ("/sub", ["g"])]))
  = 10002%Z
  ∧ Z.of_nat (length (Enumerate.scan_drive
                        [("/", Enumerate.names 50002); ("/sub", ["g"])]))
    = 50002%Z
  ∧ Z.of_nat (length (Enumerate.scan_usb
                        [("/", Enumerate.names 50002); ("/sub", ["g"])]))
    = 50002%Z
  ∧ Z.of_nat (length (Enumerate.scan_all_drives
                        [{| Enumerate.drive_name := "C:/";
                            Enumerate.drive_walk :=
                              [("C:/", Enumerate.names 100002)];
                            Enumerate.drive_raises := false |};
                         {| Enumerate.drive_name := "D:/";
                            Enumerate.drive_walk := [("D:/", ["g"])];
                            Enumerate.drive_raises := false |}]).1)
    = 100002%Z.
Proof.
  unfold Enumerate.full_system_scan, Enumerate.scan_drive, Enumerate.scan_usb.
  split; [|split; [|split]].
  - rewrite walk_collect_two; [done|done|by rewrite names_length].
  - rewrite walk_collect_two; [done|done|by rewrite names_length].
  - rewrite walk_collect_two; [done|done|by rewrite names_length].
  - unfold Enumerate.scan_all_drives. cbn [Enumerate.all_drives_loop
      Enumerate.drive_walk Enumerate.drive_raises Enumerate.drive_name].
    pose proof (walk_collect_counting_fst 100000 [("C:/", Enumerate.names 100002)]
                  [] 0) as H1.
    destruct (Enumerate.walk_collect_counting 100000 [("C:/", _)] [] 0)
      as [fl1 n1]. cbn [fst] in H1.
    pose proof (walk_collect_counting_fst 100000 [("D:/", ["g"])] fl1 0) as H2.
    destruct (Enumerate.walk_collect_counting 100000 [("D:/", _)] fl1 0)
      as [fl2 n2]. cbn [fst] in H2 |- *. subst fl2 fl1.
    rewrite <- (walk_collect_app 100000 [_] [_]). cbn [app].
    rewrite (walk_collect_two 100000); [done|done|by rewrite names_length].
Qed.

(** ** Strings as character lists *)

Section StringFacts.

Lemma chars_of_chars l : PyStr.chars (PyStr.of_chars l) = l.
Proof. apply String.list_ascii_of_string_of_list_ascii. Qed.

Lemma of_chars_chars s : PyStr.of_chars (PyStr.chars s) = s.
Proof. apply String.string_of_list_ascii_of_string. Qed.

Lemma chars_app a b : PyStr.chars (a +:+ b) = PyStr.chars a ++ PyStr.chars b.
Proof. induction a as [|c a IH]; simpl; [done|]. by rewrite <- IH. Qed.

Lemma chars_inj a b : PyStr.chars a = PyStr.chars b → a = b.
Proof. intros H. rewrite <- (of_chars_chars a), <- (of_chars_chars b). by rewrite H. Qed.

Lemma string_length_chars s : String.length s = length (PyStr.chars s).
Proof. induction s; simpl; congruence. Qed.

Lemma pad_digits_length w : ∀ n, length (PyStr.pad_digits w n) = w.
Proof.
  induction w as [|w IH]; intros n; simpl; [done|].
  rewrite length_app, IH. simpl. lia.
Qed.

Lemma digit_char_inj a b :
  PyStr.digit_char a = PyStr.digit_char b → a mod 10 = b mod 10.
Proof.
  unfold PyStr.digit_char. intros H.
  apply (f_equal nat_of_ascii) in H.
  pose proof (Nat.mod_upper_bound a 10 ltac:(lia)).
  pose proof (Nat.mod_upper_bound b 10 ltac:(lia)).
  rewrite !nat_ascii_embedding in H by lia. lia.
Qed.

Lemma pad_digits_inj w :
  ∀ n m, PyStr.pad_digits w n = PyStr.pad_digits w m →
         n mod 10 ^ w = m mod 10 ^ w.
Proof.
  induction w as [|w IH]; intros n m H; cbn [PyStr.pad_digits] in H.
  - by rewrite !Nat.mod_1_r.
  - apply app_inj_1 in H as [H1 H2]; [|by rewrite !pad_digits_length].
    injection H2 as H2. apply digit_char_inj in H2. apply IH in H1.
    rewrite Nat.pow_succ_r'.
    rewrite !(Nat.Div0.mod_mul_r _ 10 (10 ^ w)). by rewrite H1, H2.
Qed.

Lemma pad_inj w n m :
  n < 10 ^ w → m < 10 ^ w → PyStr.pad w n = PyStr.pad w m → n = m.
Proof.
  intros Hn Hm H. unfold PyStr.pad in H.
  apply (f_equal PyStr.chars) in H. rewrite !chars_of_chars in H.
  apply pad_digits_inj in H. by rewrite !Nat.mod_small in H.
Qed.

Lemma pad_chars_length w n : length (PyStr.chars (PyStr.pad w n)) = w.
Proof. unfold PyStr.pad. by rewrite chars_of_chars, pad_digits_length. Qed.

End StringFacts.

(** ** Quarantine file names *)

Section QuarantineNames.

Lemma strftime_compact_chars d :
  PyStr.chars (strftime_compact d)
  = PyStr.chars (PyStr.pad 4 (year d)) ++ PyStr.chars (PyStr.pad 2 (month d))
    ++ PyStr.chars (PyStr.pad 2 (day d)) ++ ["_"%char]
    ++ PyStr.chars (PyStr.pad 2 (hour d)) ++ PyStr.chars (PyStr.pad 2 (minute d))
    ++ PyStr.chars (PyStr.pad 2 (second d)).
Proof. unfold strftime_compact. by rewrite !chars_app. Qed.

Lemma strftime_compact_length d :
  length (PyStr.chars (strftime_compact d)) = 15.
Proof.
  rewrite strftime_compact_chars, !length_app, !pad_chars_length. done.
Qed.

Lemma strftime_compact_inj d1 d2 :
  well_formed d1 → well_formed d2 →
  strftime_compact d1 = strftime_compact d2 → d1 = d2.
Proof.
  intros (Hy1 & Hm1 & Hd1 & HH1 & HM1 & HS1) (Hy2 & Hm2 & Hd2 & HH2 & HM2 & HS2) H.
  apply (f_equal PyStr.chars) in H. rewrite !strftime_compact_chars in H.
  apply app_inj_1 in H as [Hy H]; [|by rewrite !pad_chars_length].
  apply app_inj_1 in H as [Hm H]; [|by rewrite !pad_chars_length].
  apply app_inj_1 in H as [Hd H]; [|by rewrite !pad_chars_length].
  apply app_inj_1 in H as [_ H]; [|done].
  apply app_inj_1 in H as [HH H]; [|by rewrite !pad_chars_length].
  apply app_inj_1 in H as [HM HS]; [|by rewrite !pad_chars_length].
  apply chars_inj, pad_inj in Hy, Hm, Hd, HH, HM, HS;
    try (change (10 ^ 2) with 100; lia);
    try (apply Nat2Z.inj_lt; rewrite Nat2Z.inj_pow; simpl; lia).
  destruct d1, d2; simpl in *; by subst.
Qed.

Lemma quarantine_filename_chars now filepath :
  ∃ tail,
    PyStr.chars (Quarantine.quarantine_filename now filepath)
    = PyStr.chars (strftime_compact now) ++ tail.
Proof.
  unfold Quarantine.quarantine_filename.
  destruct (PyStr.splitext _) as [name_part ext_part].
  rewrite chars_app. eauto.
Qed.

End QuarantineNames.

(** C8 (as amended). The quarantine file name is the time stamp to the
    second, an underscore, the first eight hexadecimal digits of the MD5
    of the base name without its extension, and the extension. It
    depends on the original only through its base name: two originals
    with the same base name get the same name when they are quarantined
    within the same second, and any two originals get different names
    when they are quarantined in different seconds. *)
Theorem C8_quarantine_filename_by_second
    (now1 now2 : Datetime) (path1 path2 : string) :
  (PyStr.basename path1 = PyStr.basename path2 → now1 = now2 →
   Quarantine.quarantine_filename now1 path1
   = Quarantine.quarantine_filename now2 path2)
  ∧ (well_formed now1 → well_formed now2 → now1 ≠ now2 →
     Quarantine.quarantine_filename now1 path1
     ≠ Quarantine.quarantine_filename now2 path2).
Proof.
  split.
  - intros Hb ->. unfold Quarantine.quarantine_filename. by rewrite Hb.
  - intros Hw1 Hw2 Hne Heq. apply Hne.
    apply strftime_compact_inj; [done|done|].
    apply (f_equal PyStr.chars) in Heq.
    destruct (quarantine_filename_chars now1 path1) as [t1 H1].
    destruct (quarantine_filename_chars now2 path2) as [t2 H2].
    rewrite H1, H2 in Heq.
    apply app_inj_1 in Heq as [Heq _]; [|by rewrite !strftime_compact_length].
    by apply chars_inj.
Qed.

Lemma C8_quarantine_filename_by_second_witness :
  Quarantine.quarantine_filename Demo.now "/home/a/evil.exe"
  = Quarantine.quarantine_filename Demo.now "/home/b/evil.exe"
  ∧ Quarantine.quarantine_filename Demo.now "/home/a/evil.exe"
    ≠ Quarantine.quarantine_filename Demo.a_second_later "/home/a/evil.exe".
Proof.
  split.
  - apply (proj1 (C8_quarantine_filename_by_second Demo.now Demo.now
                    "/home/a/evil.exe" "/home/b/evil.exe")); reflexivity.
  - apply (proj2 (C8_quarantine_filename_by_second Demo.now Demo.a_second_later
                    "/home/a/evil.exe" "/home/a/evil.exe")).
    + unfold well_formed; simpl; lia.
    + unfold well_formed; simpl; lia.
    + discriminate.
Defined.

(** C8, counterexample. Two different files with the same base name,
    quarantined within the same second, get the same quarantine file
    name. *)
Lemma C8_counterexample :
  "/home/a/evil.exe" ≠ "/home/b/evil.exe"
  ∧ PyStr.basename "/home/a/evil.exe" = PyStr.basename "/home/b/evil.exe"
  ∧ Quarantine.quarantine_filename Demo.now "/home/a/evil.exe"
    = "20260108_090500_4034a346.exe"
  ∧ Quarantine.quarantine_filename Demo.now "/home/b/evil.exe"
    = "20260108_090500_4034a346.exe".
Proof. split; [discriminate|]. vm_compute. done. Qed.

(** ** Hash registration *)

(** C9 (as amended). [add_hash] calls the engine exactly when the
    capability is present, the stripped lower-cased hash text and the
    stripped threat name are not empty, and the hash text has 32
    characters (64 when the type is SHA256); the call then carries these
    two texts, the severity and the type. Texts of any other length are
    rejected without a call.
    Which characters the text consists of is not examined. This holds
    whatever [str.lower] does. *)
Theorem C9_add_hash_checks_length_only
    (lower : string → string) (eng : Engine) (hash_text name_text : string)
    (severity : Z) (type_text : string) :
  let hash_value := lower (PyStr.strip hash_text) in
  let threat_name := PyStr.strip name_text in
  let is_sha256 := bool_decide (type_text = "SHA256") in
  let outcome := Gui.add_hash lower eng hash_text name_text severity type_text in
  (Gui.adapter_called outcome = true ↔
     has_add_hash eng = true ∧ hash_value ≠ "" ∧ threat_name ≠ ""
     ∧ PyStr.len hash_value = (if is_sha256 then 64 else 32))
  ∧ (Gui.adapter_called outcome = true →
     outcome
     = match engine_add_hash eng hash_value threat_name severity is_sha256 with
       | Some count =>
           Gui.Registered hash_value threat_name severity is_sha256 count
       | None => Gui.AdapterRaised hash_value threat_name severity is_sha256
       end).
Proof.
  intros hash_value threat_name is_sha256 outcome.
  subst outcome. unfold Gui.add_hash.
  fold hash_value threat_name is_sha256.
  destruct (has_add_hash eng); simpl;
    [|split; [split; [done|by intros (? & ? & ? & ?)]|done]].
  destruct (bool_decide_reflect (hash_value = "")) as [He|He]; simpl;
    [split; [split; [done|by intros (? & ? & ? & ?)]|done]|].
  destruct (bool_decide_reflect (threat_name = "")) as [Ht|Ht]; simpl;
    [split; [split; [done|by intros (? & ? & ? & ?)]|done]|].
  destruct (Nat.eqb_spec (PyStr.len hash_value) (if is_sha256 then 64 else 32))
    as [Hl|Hl]; simpl.
  - split; [|done]. by destruct (engine_add_hash eng _ _ _ _).
  - split; [split; [done|by intros (? & ? & ? & ?)]|done].
Qed.

Lemma C9_add_hash_checks_length_only_witness :
  Gui.add_hash PyStr.ascii_lower Demo.engine
    "  D41D8CD98F00B204E9800998ECF8427E " "Test" 2 "MD5"
  = Gui.Registered "d41d8cd98f00b204e9800998ecf8427e" "Test" 2 false 1%Z.
Proof.
  apply (proj2 (C9_add_hash_checks_length_only PyStr.ascii_lower Demo.engine
                  "  D41D8CD98F00B204E9800998ECF8427E " "Test" 2 "MD5")).
  reflexivity.
Defined.

(** C9, counterexample. A text of 32 characters none of which is a
    hexadecimal digit (32 times the letter z, which [str.lower] leaves
    as it is) is accepted as an MD5 hash and passed to the engine. *)
Lemma C9_counterexample :
  PyStr.len Demo.not_hex_32 = 32
  ∧ Gui.is_hex Demo.not_hex_32 = false
  ∧ PyStr.ascii_lower Demo.not_hex_32 = Demo.not_hex_32
  ∧ Gui.add_hash PyStr.ascii_lower Demo.engine Demo.not_hex_32 "Test" 2 "MD5"
    = Gui.Registered Demo.not_hex_32 "Test" 2 false 1%Z.
Proof. vm_compute. done. Qed.

(** The length is counted in characters, not in bytes, and the white
    space stripped is that of Unicode: a text of one two-byte letter and
    31 ASCII letters between two no-break spaces (U+00A0) has 32
    characters after stripping and is registered. *)
Lemma add_hash_counts_characters :
  String.length Demo.accented_32 = 33
  ∧ PyStr.len Demo.accented_32 = 32
  ∧ PyStr.strip (Demo.nbsp +:+ Demo.accented_32 +:+ Demo.nbsp) = Demo.accented_32
  ∧ Gui.add_hash PyStr.ascii_lower Demo.engine
      (Demo.nbsp +:+ Demo.accented_32 +:+ Demo.nbsp) "Test" 2 "MD5"
    = Gui.Registered Demo.accented_32 "Test" 2 false 1%Z.
Proof. vm_compute. done. Qed.

(** ** Starting a scan *)

(** C6 (as amended). [_start_batch_scan] does nothing only when the file
    list is empty. With a non-empty list it always starts one more
    worker, whether or not another one is running, makes it the current
    [scan_thread], and disables the six scan buttons it toggles (select,
    folder, full system, drive, all drives, USB), so that a click on any
    of these six does nothing until [scan_finished] enables them again. *)
Theorem C6_start_batch_scan_unguarded
    (g : Gui.Window) (files : list string) (scan_type : string) :
  (files = [] → Gui._start_batch_scan files scan_type g = g)
  ∧ (files ≠ [] →
     let t := {| Gui.worker_files := files;
                 Gui.worker_use_detailed := Gui.detailed_check g;
                 Gui.worker_scan_type := scan_type |} in
     let g' := Gui._start_batch_scan files scan_type g in
     Gui.running g' = Gui.running g ++ [t]
     ∧ Gui.scan_thread g' = Some t
     ∧ (∀ b, Gui.toggled b = true → Gui.enabled g' b = false)
     ∧ (∀ b files' scan_type',
          Gui.toggled b = true → Gui.click b files' scan_type' g' = g')
     ∧ (∀ b, Gui.toggled b = true →
             Gui.enabled (Gui.scan_finished g') b = true)).
Proof.
  split.
  - by intros ->.
  - intros Hne. destruct files as [|f files]; [done|]. simpl.
    repeat split.
    + intros b Hb. by rewrite Hb.
    + intros b files' scan_type' Hb. unfold Gui.click. simpl. by rewrite Hb.
    + intros b Hb. by rewrite Hb.
Qed.

Lemma C6_start_batch_scan_unguarded_witness :
  let g' := Gui._start_batch_scan ["/tmp/odd.bin"] "파일 스캔" Demo.scanning in
  length (Gui.running g') = 2
  ∧ Gui.click Gui.folder_btn ["/tmp/virus.exe"] "폴더 스캔" g' = g'.
Proof.
  destruct (proj2 (C6_start_batch_scan_unguarded Demo.scanning
                     ["/tmp/odd.bin"] "파일 스캔") ltac:(discriminate))
    as (Hrun & _ & _ & Hclick & _).
  split.
  - rewrite Hrun. reflexivity.
  - apply Hclick. reflexivity.
Defined.

(** C6, counterexample. While the worker of a quick scan is running, a
    second start is not rejected: called directly or through the quick
    scan button (which is never disabled), [_start_batch_scan] starts a
    second worker next to the first. *)
Lemma C6_counterexample :
  length (Gui.running Demo.scanning) = 1
  ∧ Gui._start_batch_scan ["/tmp/odd.bin"] "파일 스캔" Demo.scanning
    ≠ Demo.scanning
  ∧ Gui.enabled Demo.scanning Gui.quick_scan_btn = true
  ∧ length (Gui.running
              (Gui.click Gui.quick_scan_btn ["/tmp/odd.bin"] "빠른 스캔"
                         Demo.scanning)) = 2.
Proof.
  split; [reflexivity|]. split; [|split; reflexivity].
  intros H. apply (f_equal (λ g, length (Gui.running g))) in H. discriminate H.
Qed.

(** ** Emptying the quarantine store *)

Section ClearQuarantine.

Variable QUARANTINE_DIR : string.
Variable remove_raises : string → bool.

Local Abbreviation removed_all := (Quarantine.removed_all QUARANTINE_DIR).

Lemma removed_all_lookup listing :
  ∀ f p,
    p ∉ map (PyStr.join QUARANTINE_DIR) listing →
    removed_all listing f !! p = f !! p.
Proof.
  induction listing as [|x rest IH]; intros f p Hp; simpl; [done|].
  simpl in Hp. apply not_elem_of_cons in Hp as [Hne Hp].
  unfold removed_all in *. rewrite IH by done. by apply lookup_delete_ne.
Qed.

Lemma removed_all_gone listing :
  ∀ f x, x ∈ listing →
         removed_all listing f !! PyStr.join QUARANTINE_DIR x = None.
Proof.
  induction listing as [|y rest IH]; intros f x Hx; [by apply elem_of_nil in Hx|].
  cbn [removed_all foldl].
  destruct (decide (x ∈ rest)) as [Hin|Hnin].
  - by apply IH.
  - apply elem_of_cons in Hx as [->|Hx]; [|done].
    destruct (decide (PyStr.join QUARANTINE_DIR y
                      ∈ map (PyStr.join QUARANTINE_DIR) rest)) as [Hj|Hj].
    + apply list_elem_of_fmap in Hj as (z & Hz & Hzin). rewrite Hz.
      by apply IH.
    + fold (removed_all rest (delete (PyStr.join QUARANTINE_DIR y) f)).
      rewrite removed_all_lookup by done. apply lookup_delete_eq.
Qed.

(** The loop removes the entries one after the other and stops at the
    first [os.remove] that raises. *)
Lemma clear_loop_stops pre bad post :
  ∀ f,
    Forall (λ x, remove_raises (PyStr.join QUARANTINE_DIR x) = false) pre →
    NoDup (map (PyStr.join QUARANTINE_DIR) pre) →
    (∀ x, x ∈ pre → is_Some (f !! PyStr.join QUARANTINE_DIR x)) →
    remove_raises (PyStr.join QUARANTINE_DIR bad) = true →
    Quarantine.clear_loop QUARANTINE_DIR remove_raises (pre ++ bad :: post) f
    = (removed_all pre f, false).
Proof.
  induction pre as [|x pre IH]; intros f Hok Hnd Hin Hbad; simpl.
  - by rewrite Hbad.
  - apply Forall_cons in Hok as [Hx Hok]. rewrite Hx.
    simpl in Hnd. apply NoDup_cons in Hnd as [Hxn Hnd].
    destruct (Hin x ltac:(left)) as [v Hv]. rewrite Hv.
    apply IH; [done|done| |done].
    intros y Hy. rewrite lookup_delete_ne.
    + apply Hin. by right.
    + intros Heq. apply Hxn. rewrite Heq. apply list_elem_of_fmap. eauto.
Qed.

Lemma clear_loop_all listing :
  ∀ f,
    Forall (λ x, remove_raises (PyStr.join QUARANTINE_DIR x) = false) listing →
    NoDup (map (PyStr.join QUARANTINE_DIR) listing) →
    (∀ x, x ∈ listing → is_Some (f !! PyStr.join QUARANTINE_DIR x)) →
    Quarantine.clear_loop QUARANTINE_DIR remove_raises listing f
    = (removed_all listing f, true).
Proof.
  induction listing as [|x pre IH]; intros f Hok Hnd Hin; simpl; [done|].
  apply Forall_cons in Hok as [Hx Hok]. rewrite Hx.
  simpl in Hnd. apply NoDup_cons in Hnd as [Hxn Hnd].
  destruct (Hin x ltac:(left)) as [v Hv]. rewrite Hv.
  apply IH; [done|done|].
  intros y Hy. rewrite lookup_delete_ne.
  - apply Hin. by right.
  - intros Heq. apply Hxn. rewrite Heq. apply list_elem_of_fmap. eauto.
Qed.

End ClearQuarantine.

(** C7 (as amended). [clear_quarantine] removes the entries of the store
    in listing order. When every removal succeeds, every listed entry is
    gone. When one removal raises, the loop ends there: the entries
    listed before it are gone, the failing entry and every entry listed
    after it stay as they were, and one error box is shown. The function
    returns nothing; no count of failures exists. *)
Theorem C7_clear_quarantine_stops_at_first_failure
    (QUARANTINE_DIR : string) (remove_raises : string → bool)
    (pre : list string) (bad : string) (post : list string)
    (f : gmap string File) :
  let path := PyStr.join QUARANTINE_DIR in
  Forall (λ x, remove_raises (path x) = false) pre →
  NoDup (map path (pre ++ bad :: post)) →
  (∀ x, x ∈ pre ++ bad :: post → is_Some (f !! path x)) →
  (remove_raises (path bad) = true →
   let '(f', effs) :=
     Quarantine.clear_quarantine QUARANTINE_DIR true remove_raises
       (pre ++ bad :: post) f in
   effs = [Dialog Question "확인"; Dialog Critical "오류"]
   ∧ (∀ x, x ∈ pre → f' !! path x = None)
   ∧ (∀ x, x ∈ bad :: post → f' !! path x = f !! path x))
  ∧ (Forall (λ x, remove_raises (path x) = false) (bad :: post) →
     let '(f', effs) :=
       Quarantine.clear_quarantine QUARANTINE_DIR true remove_raises
         (pre ++ bad :: post) f in
     effs = [Dialog Question "확인"; Dialog Information "성공"]
     ∧ (∀ x, x ∈ pre ++ bad :: post → f' !! path x = None)).
Proof.
  intros path Hok Hnd Hin. split.
  - intros Hbad. unfold Quarantine.clear_quarantine.
    rewrite (clear_loop_stops QUARANTINE_DIR remove_raises pre bad post f);
      [|done| |by intros x Hx; apply Hin, elem_of_app; left|done].
    + split; [done|]. split.
      * intros x Hx. by apply removed_all_gone.
      * intros x Hx. apply removed_all_lookup.
        rewrite map_app in Hnd. apply NoDup_app in Hnd as (_ & Hdisj & _).
        intros Hp. apply (Hdisj _ Hp). apply list_elem_of_fmap. eauto.
    + rewrite map_app in Hnd. by apply NoDup_app in Hnd as (? & _ & _).
  - intros Hrest. unfold Quarantine.clear_quarantine.
    rewrite (clear_loop_all QUARANTINE_DIR remove_raises (pre ++ bad :: post) f);
      [|by apply Forall_app|done|done].
    split; [done|]. intros x Hx. by apply removed_all_gone.
Qed.

Lemma C7_clear_quarantine_stops_at_first_failure_witness :
  let '(f', effs) :=
    Quarantine.clear_quarantine "/q" true (λ p, bool_decide (p = "/q/b.bin"))
      (["a.bin"] ++ "b.bin" :: ["c.bin"])
      {[ "/q/a.bin" := Data []; "/q/b.bin" := Data []; "/q/c.bin" := Data [] ]} in
  effs = [Dialog Question "확인"; Dialog Critical "오류"]
  ∧ (∀ x, x ∈ ["a.bin"] → f' !! PyStr.join "/q" x = None)
  ∧ (∀ x, x ∈ ["b.bin"; "c.bin"] →
          f' !! PyStr.join "/q" x
          = ({[ "/q/a.bin" := Data []; "/q/b.bin" := Data [];
                "/q/c.bin" := Data [] ]} : gmap string File)
              !! PyStr.join "/q" x).
Proof.
  apply (proj1 (C7_clear_quarantine_stops_at_first_failure "/q"
                  (λ p, bool_decide (p = "/q/b.bin")) ["a.bin"] "b.bin" ["c.bin"]
                  {[ "/q/a.bin" := Data []; "/q/b.bin" := Data [];
                     "/q/c.bin" := Data [] ]}
                  ltac:(repeat constructor)
                  ltac:(vm_compute; repeat constructor;
                        rewrite ?elem_of_cons, ?elem_of_nil; intuition discriminate)
                  ltac:(intros x Hx;
                        repeat (apply elem_of_cons in Hx as [->|Hx];
                                [vm_compute; eauto|]);
                        by apply elem_of_nil in Hx))).
  reflexivity.
Defined.

(** C7, counterexample. The store holds [a.bin] and [b.bin]; removing
    [a.bin] raises. [clear_quarantine] stops there: [b.bin], whose
    removal would have succeeded, is still in the store. *)
Lemma C7_counterexample :
  Demo.first_is_locked "/q/b.bin" = false
  ∧ (Quarantine.clear_quarantine "/q" true Demo.first_is_locked
       ["a.bin"; "b.bin"] Demo.store).1 !! "/q/b.bin" = Some (Data [])
  ∧ (Quarantine.clear_quarantine "/q" true Demo.first_is_locked
       ["a.bin"; "b.bin"] Demo.store).2
    = [Dialog Question "확인"; Dialog Critical "오류"].
Proof. vm_compute. done. Qed.

(** ** Forced handle release *)

Section ForcedRelease.

Import Quarantine.

Lemma visit_DoKill lower abs_path name items :
  visit_open_files lower abs_path name items = DoKill →
  (∃ item, item ∈ items ∧ lower item = abs_path)
  ∧ ∃ n, name = Some n ∧ lower n ∉ critical_names.
Proof.
  induction items as [|item rest IH]; simpl; [done|].
  destruct (bool_decide_reflect (lower item = abs_path)) as [Heq|Hne].
  - destruct name as [n|]; [|done].
    destruct (bool_decide_reflect (lower n ∈ critical_names)) as [Hc|Hc].
    + intros H. destruct (IH H) as [(i & Hi & Hl) Hn].
      split; [|done]. exists i. split; [by right|done].
    + intros _. split; [|by eauto]. exists item. split; [by left|done].
  - intros H. destruct (IH H) as [(i & Hi & Hl) Hn].
    split; [|done]. exists i. split; [by right|done].
Qed.

(** One pass over the process table kills only processes of the table
    that have the path open and are not on the deny-list. *)
Lemma process_loop_scope lower abs_path ps :
  ∀ closed_count,
    let '(effs, alive, r) := process_loop lower abs_path ps closed_count in
    alive ⊆ ps
    ∧ (∀ a, ForceClose a ∉ effs)
    ∧ (∀ p, Kill p ∈ effs →
         ∃ proc, proc ∈ ps ∧ pid proc = p
           ∧ (∃ items item, open_files proc = inr items ∧ item ∈ items
                            ∧ lower item = abs_path)
           ∧ not_critical lower proc).
Proof.
  induction ps as [|proc rest IH]; intros closed_count; simpl.
  { split; [done|]. split; intros ? H; by apply elem_of_nil in H. }
  assert (Hskip : ∀ c,
    let '(effs, alive, r) := process_loop lower abs_path rest c in
    proc :: alive ⊆ proc :: rest
    ∧ (∀ a, ForceClose a ∉ effs)
    ∧ (∀ p, Kill p ∈ effs →
         ∃ proc0, proc0 ∈ proc :: rest ∧ pid proc0 = p
           ∧ (∃ items item, open_files proc0 = inr items ∧ item ∈ items
                            ∧ lower item = abs_path)
           ∧ not_critical lower proc0)).
  { intros c. specialize (IH c).
    destruct (process_loop lower abs_path rest c) as [[effs alive] r].
    destruct IH as (Hsub & Hfc & Hk).
    split; [by apply list_subseteq_skip|]. split; [done|].
    intros p Hp. destruct (Hk p Hp) as (q & Hq & Hrest).
    exists q. split; [by right|done]. }
  destruct (open_files proc) as [err|items] eqn:Hopen.
  { specialize (Hskip closed_count).
    by destruct (process_loop lower abs_path rest closed_count) as [[effs alive] r]. }
  destruct (visit_open_files lower abs_path (pname proc) items) eqn:Hvisit.
  - specialize (Hskip closed_count).
    by destruct (process_loop lower abs_path rest closed_count) as [[effs alive] r].
  - destruct (kill_result proc) as [err|].
    + specialize (Hskip closed_count).
      by destruct (process_loop lower abs_path rest closed_count) as [[effs alive] r].
    + specialize (IH (closed_count + 1)).
      destruct (process_loop lower abs_path rest (closed_count + 1)) as [[effs alive] r].
      destruct IH as (Hsub & Hfc & Hk).
      split; [by apply list_subseteq_cons|]. split.
      * intros a Ha. apply elem_of_cons in Ha as [Ha|Ha]; [done|].
        apply elem_of_cons in Ha as [Ha|Ha]; [done|]. by apply (Hfc a).
      * intros p Hp. apply elem_of_cons in Hp as [Hp|Hp].
        -- injection Hp as ->. exists proc. split; [by left|]. split; [done|].
           apply visit_DoKill in Hvisit as [(item & Hi & Hl) Hn].
           split; [by eauto|done].
        -- apply elem_of_cons in Hp as [Hp|Hp]; [done|].
           destruct (Hk p Hp) as (q & Hq & Hrest).
           exists q. split; [by right|done].
  - split; [done|]. split; intros ? H; by apply elem_of_nil in H.
Qed.

Lemma force_close_scope os file_path w :
  let '(w', effs, closed) := force_close_file_handles os file_path w in
  fs w' = fs w
  ∧ procs w' ⊆ procs w
  ∧ (∀ a, ForceClose a ∉ effs)
  ∧ (∀ p, Kill p ∈ effs →
       ∃ proc, proc ∈ procs w ∧ pid proc = p
               ∧ holds_target os file_path proc ∧ not_critical (str_lower os) proc).
Proof.
  unfold force_close_file_handles. destruct (has_psutil os); simpl.
  - pose proof (process_loop_scope (str_lower os) (str_lower os (abspath os file_path))
                  (procs w) 0) as H.
    destruct (process_loop _ _ (procs w) 0) as [[effs alive] r].
    destruct H as (Hsub & Hfc & Hk). simpl. done.
  - split; [done|]. split; [done|]. split; intros ? H; by apply elem_of_nil in H.
Qed.

Lemma attempt_body_shape os filepath qpath attempt w :
  let '(w', effs, r) := attempt_body os filepath qpath attempt w in
  procs w' = procs w ∧ Forall quiet effs.
Proof.
  unfold attempt_body.
  destruct (attempt_fault os attempt); destruct (fs w !! filepath);
    simpl; repeat split; repeat constructor.
Qed.

Lemma kills_guarded_quiet l : Forall quiet l → kills_guarded l.
Proof.
  intros Hq pre p post ->. rewrite Forall_app, Forall_cons in Hq.
  by destruct Hq as (_ & [] & _).
Qed.

Lemma kills_guarded_after_quiet l k :
  Forall quiet l → kills_guarded k → kills_guarded (l ++ k).
Proof.
  intros Hq Hk pre p post H.
  apply app_eq_inv in H as [(m & H1 & H2)|(m & H1 & H2)].
  - subst l. rewrite Forall_app in Hq. destruct Hq as [_ Hq].
    destruct m as [|e m]; simpl in H2.
    + destruct (Hk [] p post (eq_sym H2)) as [a Ha]. by apply elem_of_nil in Ha.
    + injection H2 as <- _. rewrite Forall_cons in Hq. by destruct Hq as [[] _].
  - destruct (Hk m p post H2) as [a Ha]. exists a. subst pre.
    apply elem_of_app. by right.
Qed.


Lemma kills_guarded_force a l : kills_guarded (ForceClose a :: l).
Proof.
  intros pre p post H. destruct pre as [|e pre]; simpl in H; [discriminate H|].
  injection H as <- _. exists a. by left.
Qed.

(** The retry loop: who is killed, when a forced release is attempted,
    and that a kill only happens within one. *)
Lemma retry_loop_scope os filepath qpath attempts :
  ∀ last_error w,
    let '(w', effs, out) :=
      retry_loop os filepath qpath attempts last_error w in
    procs w' ⊆ procs w
    ∧ (∀ p, Kill p ∈ effs →
         ∃ proc, proc ∈ procs w ∧ pid proc = p
                 ∧ holds_target os filepath proc ∧ not_critical (str_lower os) proc)
    ∧ (∀ a, ForceClose a ∈ effs → a ∈ attempts ∧ 2 ≤ a < max_retries - 1)
    ∧ kills_guarded effs.
Proof.
  induction attempts as [|attempt later IH]; intros last_error w;
    cbn [retry_loop].
  { split; [done|]. split; [intros ? H; by apply elem_of_nil in H|].
    split; [intros ? H; by apply elem_of_nil in H|].
    by apply kills_guarded_quiet. }
  pose proof (attempt_body_shape os filepath qpath attempt w) as Hbody.
  destruct (attempt_body os filepath qpath attempt w) as [[w1 effs1] r].
  destruct Hbody as [Hprocs Hq1].
  assert (Hnk1 : ∀ p, Kill p ∉ effs1).
  { intros p Hp. rewrite Forall_forall in Hq1. exact (Hq1 _ Hp). }
  assert (Hnf1 : ∀ a, ForceClose a ∉ effs1).
  { intros a Ha. rewrite Forall_forall in Hq1. exact (Hq1 _ Ha). }
  assert (Hquiet_only :
    procs w1 ⊆ procs w
    ∧ (∀ p, Kill p ∈ effs1 →
         ∃ proc, proc ∈ procs w ∧ pid proc = p
                 ∧ holds_target os filepath proc ∧ not_critical (str_lower os) proc)
    ∧ (∀ a, ForceClose a ∈ effs1 →
            a ∈ attempt :: later ∧ 2 ≤ a < max_retries - 1)
    ∧ kills_guarded effs1).
  { rewrite Hprocs. split; [done|]. split; [intros p Hp; by destruct (Hnk1 p)|].
    split; [intros a Ha; by destruct (Hnf1 a)|]. by apply kills_guarded_quiet. }
  destruct r as [|[|]]; [done| |].
  - (* PermissionError *)
    destruct (Nat.ltb_spec attempt (max_retries - 1)) as [Hlt|Hge]; [|done].
    destruct (Nat.leb_spec 2 attempt) as [Hforce|Hnoforce].
    + pose proof (force_close_scope os filepath w1) as Hfc.
      destruct (force_close_file_handles os filepath w1) as [[w2 kills] closed].
      destruct Hfc as (_ & Hsub2 & Hnf2 & Hk2).
      specialize (IH (Some PermissionError) w2).
      destruct (retry_loop os filepath qpath later (Some PermissionError) w2)
        as [[w3 effs3] out].
      destruct IH as (Hsub3 & Hk3 & Hf3 & Hg3).
      split; [rewrite <- Hprocs; by etrans|]. split; [|split].
      * intros p Hp.
        rewrite elem_of_app, elem_of_cons, elem_of_app, elem_of_cons,
          elem_of_app in Hp.
        destruct Hp as [Hp|[Hp|[[Hp|[Hp|Hp]]|Hp]]];
          [by destruct (Hnk1 p)|done|done| | |].
        -- destruct (Hk2 p Hp) as (q & Hq & Hrest). exists q.
           split; [|done]. rewrite <- Hprocs. done.
        -- destruct closed; [|by apply elem_of_nil in Hp].
           apply elem_of_cons in Hp as [Hp|Hp]; [done|by apply elem_of_nil in Hp].
        -- destruct (Hk3 p Hp) as (q & Hq & Hrest). exists q.
           split; [|done]. rewrite <- Hprocs. by apply Hsub2.
      * intros a Ha.
        rewrite elem_of_app, elem_of_cons, elem_of_app, elem_of_cons,
          elem_of_app in Ha.
        destruct Ha as [Ha|[Ha|[[Ha|[Ha|Ha]]|Ha]]];
          [by destruct (Hnf1 a)|done| | | |].
        -- injection Ha as ->. split; [by left|lia].
        -- by destruct (Hnf2 a).
        -- destruct closed; [|by apply elem_of_nil in Ha].
           apply elem_of_cons in Ha as [Ha|Ha]; [done|by apply elem_of_nil in Ha].
        -- destruct (Hf3 a Ha). split; [by right|done].
      * replace (effs1 ++ Sleep (500 * (attempt + 1))
                   :: (ForceClose attempt
                         :: kills ++ (if closed then [Sleep 1000] else []))
                   ++ effs3)
          with ((effs1 ++ [Sleep (500 * (attempt + 1))])
                  ++ ForceClose attempt
                     :: ((kills ++ (if closed then [Sleep 1000] else []))
                           ++ effs3))
          by (by rewrite <- app_assoc).
        apply kills_guarded_after_quiet; [|apply kills_guarded_force].
        apply Forall_app. split; [done|]. by repeat constructor.
    + specialize (IH (Some PermissionError) w1).
      destruct (retry_loop os filepath qpath later (Some PermissionError) w1)
        as [[w3 effs3] out].
      destruct IH as (Hsub3 & Hk3 & Hf3 & Hg3). rewrite Hprocs in *.
      split; [done|]. split; [|split].
      * intros p Hp. rewrite elem_of_app, elem_of_cons in Hp. simpl in Hp.
        destruct Hp as [Hp|[Hp|Hp]]; [by destruct (Hnk1 p)|done|by apply Hk3].
      * intros a Ha. rewrite elem_of_app, elem_of_cons in Ha. simpl in Ha.
        destruct Ha as [Ha|[Ha|Ha]]; [by destruct (Hnf1 a)|done|].
        destruct (Hf3 a Ha). split; [by right|done].
      * replace (effs1 ++ Sleep (500 * (attempt + 1)) :: [] ++ effs3)
          with ((effs1 ++ [Sleep (500 * (attempt + 1))]) ++ effs3)
          by (by rewrite <- app_assoc).
        apply kills_guarded_after_quiet; [|done].
        apply Forall_app. split; [done|]. by repeat constructor.
  - (* any other exception *)
    destruct (Nat.ltb_spec attempt (max_retries - 1)) as [Hlt|Hge]; [|done].
    specialize (IH (Some OtherException) w1).
    destruct (retry_loop os filepath qpath later (Some OtherException) w1)
      as [[w3 effs3] out].
    destruct IH as (Hsub3 & Hk3 & Hf3 & Hg3). rewrite Hprocs in *.
    split; [done|]. split; [|split].
    + intros p Hp. rewrite elem_of_app, elem_of_cons in Hp.
      destruct Hp as [Hp|[Hp|Hp]]; [by destruct (Hnk1 p)|done|by apply Hk3].
    + intros a Ha. rewrite elem_of_app, elem_of_cons in Ha.
      destruct Ha as [Ha|[Ha|Ha]]; [by destruct (Hnf1 a)|done|].
      destruct (Hf3 a Ha). split; [by right|done].
    + replace (effs1 ++ Sleep 500 :: effs3)
        with ((effs1 ++ [Sleep 500]) ++ effs3) by (by rewrite <- app_assoc).
      apply kills_guarded_after_quiet; [|done].
      apply Forall_app. split; [done|]. by repeat constructor.
Qed.

End ForcedRelease.





(** ** Quarantine of a file that stays locked *)

Section LockedOriginal.

Import Quarantine.
Variable os : OS.
Variables filepath qpath : string.
Variable file_data : File.

Lemma process_loop_silent lower abs_path ps :
  ∀ closed_count, Forall silent (fst (fst (process_loop lower abs_path ps closed_count))).
Proof.
  induction ps as [|proc rest IH]; intros closed_count; simpl; [done|].
  pose proof (IH closed_count) as IH0. pose proof (IH (closed_count + 1)) as IH1.
  destruct (process_loop lower abs_path rest closed_count) as [[effs0 alive0] r0].
  destruct (process_loop lower abs_path rest (closed_count + 1)) as [[effs1 alive1] r1].
  destruct (open_files proc); [done|].
  destruct (visit_open_files _ _ _ _); [done| |done].
  destruct (kill_result proc); [done|]. simpl in *. by repeat constructor.
Qed.

Lemma force_close_silent file_path w :
  Forall silent (snd (fst (force_close_file_handles os file_path w))).
Proof.
  unfold force_close_file_handles. destruct (has_psutil os); simpl; [|done].
  pose proof (process_loop_silent (str_lower os) (str_lower os (abspath os file_path))
                (procs w) 0) as H.
  by destruct (process_loop _ _ (procs w) 0) as [[effs alive] r].
Qed.

(** While every attempt fails at the removal with a permission error,
    the loop ends without success and without raising; the copy is in
    the store and nothing else changed in the file system. *)
Lemma retry_loop_locked attempts :
  ∀ last_error w,
    Forall (λ a, attempt_fault os a = RemoveFails PermissionError) attempts →
    fs w !! filepath = Some file_data →
    let '(w', effs, out) :=
      retry_loop os filepath qpath attempts last_error w in
    (∃ e, out = Finished false e)
    ∧ fs w' = match attempts with
              | [] => fs w
              | _ :: _ => <[qpath := file_data]> (fs w)
              end
    ∧ Forall silent effs.
Proof.
  induction attempts as [|attempt later IH]; intros last_error w Hall Hfs;
    cbn [retry_loop].
  { split; [by eauto|]. done. }
  apply Forall_cons in Hall as [Hfault Hall].
  unfold attempt_body. rewrite Hfault, Hfs.
  assert (Hfs' : <[qpath := file_data]> (fs w) !! filepath = Some file_data).
  { destruct (decide (qpath = filepath)) as [->|Hne].
    - apply lookup_insert_eq.
    - by rewrite lookup_insert_ne. }
  destruct (attempt <? max_retries - 1);
    [|split; [by eauto|split; [done|by repeat constructor]]].
  destruct (2 <=? attempt).
  - pose proof (force_close_scope os filepath
                  (with_fs w (<[qpath := file_data]> (fs w)))) as Hfc.
    pose proof (force_close_silent filepath
                  (with_fs w (<[qpath := file_data]> (fs w)))) as Hsil.
    destruct (force_close_file_handles os filepath _) as [[w2 kills] closed].
    destruct Hfc as (Hfs2 & _). simpl in Hfs2, Hsil.
    specialize (IH (Some PermissionError) w2 Hall).
    rewrite Hfs2 in IH. specialize (IH Hfs').
    destruct (retry_loop os filepath qpath later _ w2) as [[w3 effs3] out].
    destruct IH as (Hout & Hfs3 & Hsil3). split; [done|]. split.
    + rewrite Hfs3. destruct later; [done|]. apply insert_insert_eq.
    + repeat (apply Forall_cons; split; [done|]).
      apply Forall_app. split; [|done].
      apply Forall_app. split; [done|].
      destruct closed; by repeat constructor.
  - specialize (IH (Some PermissionError)
                   (with_fs w (<[qpath := file_data]> (fs w))) Hall Hfs').
    destruct (retry_loop os filepath qpath later _ _) as [[w3 effs3] out].
    destruct IH as (Hout & Hfs3 & Hsil3). split; [done|]. split.
    + rewrite Hfs3. simpl. destruct later; [done|]. apply insert_insert_eq.
    + by repeat (apply Forall_cons; split; [done|]).
Qed.

End LockedOriginal.

Lemma meta_path_fresh qpath : qpath +:+ ".meta" ≠ qpath.
Proof.
  intros H. apply (f_equal String.length) in H.
  rewrite !string_length_chars, chars_app, length_app in H. simpl in H. lia.
Qed.

(** *** Where the copy is stored *)

Section StoredName.

Lemma le_bytes_range n :
  ∀ x, Forall (λ b, (0 ≤ b < 256)%Z) (Md5.le_bytes n x).
Proof.
  induction n as [|n IH]; intros x; cbn [Md5.le_bytes]; constructor; [|done].
  change 255%Z with (Z.ones 8). rewrite Z.land_ones by lia.
  apply Z.mod_pos_bound. lia.
Qed.

Lemma digest_range msg : Forall (λ b, (0 ≤ b < 256)%Z) (Md5.digest msg).
Proof.
  unfold Md5.digest. destruct (Md5.chunks _ _ _) as [[[a b] c] d].
  rewrite !Forall_app. repeat split; apply le_bytes_range.
Qed.

Lemma hex_digit_not_sep d : (0 ≤ d < 16)%Z → Md5.hex_digit d ≠ ("/"%char).
Proof.
  intros Hd H. apply (f_equal nat_of_ascii) in H. unfold Md5.hex_digit in H.
  destruct (d <? 10)%Z; rewrite nat_ascii_embedding in H by lia;
    cbn [nat_of_ascii] in H; vm_compute (nat_of_ascii "/") in H; lia.
Qed.

Lemma hexdigest_no_sep s : "/"%char ∉ PyStr.chars (Md5.hexdigest s).
Proof.
  unfold Md5.hexdigest, PyStr.chars.
  rewrite String.list_ascii_of_string_of_list_ascii.
  intros Hin. apply list_elem_of_In, in_flat_map in Hin as (b & Hb & Hin).
  pose proof (digest_range (Md5.bytes_of_string s)) as Hr.
  rewrite Forall_forall in Hr. apply list_elem_of_In, Hr in Hb.
  destruct Hin as [Hin|[Hin|[]]]; revert Hin; apply hex_digit_not_sep.
  - split; [apply Z.div_pos; lia|apply Z.div_lt_upper_bound; lia].
  - apply Z.mod_pos_bound. lia.
Qed.

Lemma pad_digits_no_sep w : ∀ n, "/"%char ∉ PyStr.pad_digits w n.
Proof.
  induction w as [|w IH]; intros n; cbn [PyStr.pad_digits];
    [apply not_elem_of_nil|].
  apply not_elem_of_app. split; [apply IH|].
  intros H%list_elem_of_singleton. apply (f_equal nat_of_ascii) in H.
  unfold PyStr.digit_char in H.
  pose proof (Nat.mod_upper_bound n 10 ltac:(lia)).
  rewrite nat_ascii_embedding in H by lia.
  vm_compute (nat_of_ascii "/") in H. lia.
Qed.

Lemma pad_no_sep w n : "/"%char ∉ PyStr.chars (PyStr.pad w n).
Proof. unfold PyStr.pad. rewrite chars_of_chars. apply pad_digits_no_sep. Qed.

Lemma strftime_compact_no_sep d :
  "/"%char ∉ PyStr.chars (strftime_compact d).
Proof.
  rewrite strftime_compact_chars.
  repeat (apply not_elem_of_app; split); try apply pad_no_sep.
  by intros H%list_elem_of_singleton.
Qed.

(** [basename]: the whole text when it has no separator, the text after
    the last separator otherwise. *)
Lemma basename_chars_spec l :
  ∀ acc,
    (("/"%char ∉ l) ∧ PyStr.basename_chars acc l = acc)
    ∨ (∃ pre suf, l = pre ++ "/"%char :: suf ∧ ("/"%char ∉ suf)
                  ∧ PyStr.basename_chars acc l = suf).
Proof.
  induction l as [|c r IH]; intros acc; cbn [PyStr.basename_chars].
  { left. split; [apply not_elem_of_nil|done]. }
  destruct (decide (c = "/"%char)) as [->|Hc].
  - right. destruct (IH r) as [[Hno Heq]|(pre & suf & -> & Hno & Heq)].
    + exists [], r. by rewrite Heq.
    + exists ("/"%char :: pre), suf. by rewrite Heq.
  - destruct (IH acc) as [[Hno Heq]|(pre & suf & -> & Hno & Heq)].
    + left. split; [|done]. apply not_elem_of_cons. split; [by apply not_eq_sym|done].
    + right. exists (c :: pre), suf. by rewrite Heq.
Qed.

Lemma basename_chars_plain l acc :
  "/"%char ∉ l → PyStr.basename_chars acc l = acc.
Proof.
  intros Hno. destruct (basename_chars_spec l acc)
    as [[_ Heq]|(pre & suf & -> & _ & _)]; [done|].
  destruct Hno. apply elem_of_app. right. by left.
Qed.

Lemma basename_chars_after pre suf :
  ∀ acc, "/"%char ∉ suf →
         PyStr.basename_chars acc (pre ++ "/"%char :: suf) = suf.
Proof.
  induction pre as [|c pre IH]; intros acc Hno; cbn [app PyStr.basename_chars].
  - rewrite decide_True by done. by apply basename_chars_plain.
  - destruct (decide (c = "/"%char)); by apply IH.
Qed.

Lemma basename_no_sep p : "/"%char ∉ PyStr.chars (PyStr.basename p).
Proof.
  unfold PyStr.basename. rewrite chars_of_chars.
  destruct (basename_chars_spec (PyStr.chars p) (PyStr.chars p))
    as [[Hno ->]|(pre & suf & _ & Hno & ->)]; done.
Qed.

Lemma splitext_ext_subset name c :
  c ∈ PyStr.chars (PyStr.splitext name).2 → c ∈ PyStr.chars name.
Proof.
  unfold PyStr.splitext.
  destruct (PyStr.rfind_dot 0 (PyStr.chars name)) as [d|]; cbn [snd];
    [|by intros H%elem_of_nil].
  destruct (forallb _ _); cbn [snd]; [by intros H%elem_of_nil|].
  rewrite chars_of_chars. apply subseteq_drop.
Qed.

(** The stored name consists of the time stamp, an underscore, eight
    hexadecimal digits and the extension of the base name: it has no
    separator. *)
Lemma stored_name_no_sep now filepath :
  "/"%char ∉ PyStr.chars (Quarantine.quarantine_filename now filepath).
Proof.
  unfold Quarantine.quarantine_filename.
  pose proof (splitext_ext_subset (PyStr.basename filepath) "/"%char) as Hext.
  destruct (PyStr.splitext (PyStr.basename filepath)) as [name_part ext_part].
  cbn [snd] in Hext. rewrite !chars_app.
  repeat (apply not_elem_of_app; split).
  - apply strftime_compact_no_sep.
  - by intros H%list_elem_of_singleton.
  - rewrite chars_of_chars. intros H%subseteq_take.
    by apply hexdigest_no_sep in H.
  - intros H. by apply Hext, basename_no_sep in H.
Qed.

Lemma starts_with_sep_spec s :
  PyStr.starts_with_sep s = true → "/"%char ∈ PyStr.chars s.
Proof.
  destruct s as [|c r]; [done|].
  destruct (decide (c = "/"%char)) as [->|Hc]; [intros _; by left|].
  intros H. destruct Hc.
  destruct c as [[] [] [] [] [] [] [] []]; simpl in H; done.
Qed.

Lemma ends_with_sep_spec s :
  PyStr.ends_with_sep s = true → ∃ pre, PyStr.chars s = pre ++ ["/"%char].
Proof.
  unfold PyStr.ends_with_sep. intros H.
  destruct (rev (PyStr.chars s)) as [|c r] eqn:Hrev; [done|].
  assert (c = "/"%char) as ->.
  { destruct c as [[] [] [] [] [] [] [] []]; simpl in H; done. }
  exists (rev r). by rewrite <- (rev_involutive (PyStr.chars s)), Hrev.
Qed.

(** A name without separator joined to a folder lies directly in the
    folder, and is the base name of the joined path. *)
Lemma join_plain a b :
  "/"%char ∉ PyStr.chars b →
  (PyStr.join a b = a +:+ b ∨ PyStr.join a b = a +:+ "/" +:+ b)
  ∧ PyStr.basename (PyStr.join a b) = b.
Proof.
  intros Hno. unfold PyStr.join.
  destruct (PyStr.starts_with_sep b) eqn:Hstart.
  { by apply starts_with_sep_spec in Hstart. }
  destruct (bool_decide_reflect (a = "")) as [->|Ha]; cbn [orb].
  { split; [by left|]. unfold PyStr.basename. cbn [String.app].
    by rewrite basename_chars_plain, of_chars_chars. }
  destruct (PyStr.ends_with_sep a) eqn:Hend.
  - split; [by left|]. apply ends_with_sep_spec in Hend as [pre Hpre].
    unfold PyStr.basename. rewrite chars_app, Hpre, <- app_assoc. cbn [app].
    by rewrite basename_chars_after, of_chars_chars.
  - split; [by right|].
    unfold PyStr.basename. rewrite !chars_app. cbn [app PyStr.chars
      String.list_ascii_of_string].
    by rewrite basename_chars_after, of_chars_chars.
Qed.

End StoredName.

(** C2 (as amended). An existing file is quarantined while every one of
    the five attempts fails at the removal with a permission error, and
    the sidecar can be written. Then [quarantine_file] ends with the
    partial success box and no error box. The copy, with the content of
    the file, lies directly in the quarantine folder under the name made
    of the time stamp, eight digits of the MD5 of the base name's stem
    and the extension; it is another path than the original unless the
    original is that very entry of the store. The sidecar is written
    with [original_deleted = false], and the original is still there
    (with its content, as long as it is not the sidecar's own path). *)
Theorem C2_locked_original_partial_success
    (QUARANTINE_DIR : string) (os : OS) (filepath threat : string)
    (w : World) (st : ScanStats) (file_data : File) :
  fs w !! filepath = Some file_data →
  (∀ a, a < Quarantine.max_retries →
        attempt_fault os a = RemoveFails PermissionError) →
  meta_write_raises os = false →
  let '(w', st', effs) :=
    Quarantine.quarantine_file QUARANTINE_DIR os filepath threat w st in
  let stem_ext := PyStr.splitext (PyStr.basename filepath) in
  let stored_name :=
    strftime_compact (now_name os) +:+ "_"
    +:+ PyStr.of_chars (take 8 (PyStr.chars (Md5.hexdigest (fst stem_ext))))
    +:+ snd stem_ext in
  let qpath := PyStr.join QUARANTINE_DIR stored_name in
  ("/"%char ∉ PyStr.chars stored_name)
  ∧ (qpath = QUARANTINE_DIR +:+ stored_name
     ∨ qpath = QUARANTINE_DIR +:+ "/" +:+ stored_name)
  ∧ (PyStr.basename filepath ≠ stored_name → qpath ≠ filepath)
  ∧ fs w' !! qpath = Some file_data
  ∧ fs w' !! (qpath +:+ ".meta")
    = Some (MetaJson {| original_path := filepath;
                        original_filename := PyStr.basename filepath;
                        threat_name := threat;
                        quarantine_time := strftime_iso (now_meta os);
                        original_deleted := false |})
  ∧ is_Some (fs w' !! filepath)
  ∧ (filepath ≠ qpath +:+ ".meta" → fs w' !! filepath = Some file_data)
  ∧ last effs = Some (Dialog Warning "부분 성공")
  ∧ (∀ title, Dialog Critical title ∉ effs)
  ∧ quarantined st' = quarantined st + 1.
Proof.
  intros Hfs Hlocked Hmeta.
  pose proof (stored_name_no_sep (now_name os) filepath) as Hno.
  unfold Quarantine.quarantine_file, Quarantine.quarantine_path.
  unfold Quarantine.quarantine_filename in *.
  rewrite Hfs, Hmeta.
  destruct (PyStr.splitext (PyStr.basename filepath)) as [name_part ext_part].
  cbv zeta. cbn [fst snd].
  remember (strftime_compact (now_name os) +:+ "_"
            +:+ PyStr.of_chars (take 8 (PyStr.chars (Md5.hexdigest name_part)))
            +:+ ext_part) as stored_name eqn:Hname.
  clear Hname.
  destruct (join_plain QUARANTINE_DIR stored_name Hno) as [Hform Hbase].
  remember (PyStr.join QUARANTINE_DIR stored_name) as qpath eqn:Hq.
  clear Hq.
  pose proof (retry_loop_locked os filepath qpath file_data
                (seq 0 Quarantine.max_retries) None w) as Hloop.
  destruct (Quarantine.retry_loop _ _ _ _ _ _) as [[w1 effs] out].
  destruct Hloop as ([e ->] & Hfs1 & Hsil); [|done|].
  { apply Forall_forall. intros a Ha. apply Hlocked.
    apply elem_of_seq in Ha. lia. }
  simpl in Hfs1. simpl.
  assert (Horig : <[qpath := file_data]> (fs w) !! filepath = Some file_data).
  { destruct (decide (qpath = filepath)) as [Heq|Hne].
    - rewrite Heq. apply lookup_insert_eq.
    - by rewrite lookup_insert_ne. }
  rewrite Hfs1. split; [done|]. split; [done|].
  split; [|split; [|split; [|split; [|split; [|split; [|split]]]]]].
  - intros Hne Heq. apply Hne. by rewrite <- Heq.
  - rewrite lookup_insert_ne by apply meta_path_fresh. apply lookup_insert_eq.
  - apply lookup_insert_eq.
  - destruct (decide (qpath +:+ ".meta" = filepath)) as [Heq|Hne].
    + rewrite <- Heq. rewrite lookup_insert_eq. by eauto.
    + rewrite lookup_insert_ne by done. by eauto.
  - intros Hne. by rewrite lookup_insert_ne.
  - rewrite last_app_cons. by destruct (answer_yes os).
  - intros title Hin. apply elem_of_app in Hin as [Hin|Hin].
    + rewrite Forall_forall in Hsil. exact (Hsil _ Hin).
    + destruct (answer_yes os);
        repeat (apply elem_of_cons in Hin as [Hin|Hin]; [discriminate Hin|]);
        by apply elem_of_nil in Hin.
  - reflexivity.
Qed.

Lemma C2_locked_original_partial_success_witness :
  let '(w', st', effs) :=
    Quarantine.quarantine_file "/q" Demo.locked_os "/home/a/evil.exe" "Trojan"
      Demo.world ScanStats_init in
  let stem_ext := PyStr.splitext (PyStr.basename "/home/a/evil.exe") in
  let stored_name :=
    strftime_compact (now_name Demo.locked_os) +:+ "_"
    +:+ PyStr.of_chars (take 8 (PyStr.chars (Md5.hexdigest (fst stem_ext))))
    +:+ snd stem_ext in
  let qpath := PyStr.join "/q" stored_name in
  ("/"%char ∉ PyStr.chars stored_name)
  ∧ (qpath = "/q" +:+ stored_name ∨ qpath = "/q" +:+ "/" +:+ stored_name)
  ∧ (PyStr.basename "/home/a/evil.exe" ≠ stored_name →
     qpath ≠ "/home/a/evil.exe")
  ∧ fs w' !! qpath = Some (Data [Byte.x4d; Byte.x5a])
  ∧ fs w' !! (qpath +:+ ".meta")
    = Some (MetaJson {| original_path := "/home/a/evil.exe";
                        original_filename := PyStr.basename "/home/a/evil.exe";
                        threat_name := "Trojan";
                        quarantine_time := strftime_iso Demo.a_second_later;
                        original_deleted := false |})
  ∧ is_Some (fs w' !! "/home/a/evil.exe")
  ∧ ("/home/a/evil.exe" ≠ qpath +:+ ".meta" →
     fs w' !! "/home/a/evil.exe" = Some (Data [Byte.x4d; Byte.x5a]))
  ∧ last effs = Some (Dialog Warning "부분 성공")
  ∧ (∀ title, Dialog Critical title ∉ effs)
  ∧ quarantined st' = quarantined ScanStats_init + 1.
Proof.
  apply (C2_locked_original_partial_success "/q" Demo.locked_os
           "/home/a/evil.exe" "Trojan" Demo.world ScanStats_init
           (Data [Byte.x4d; Byte.x5a])).
  - reflexivity.
  - intros a _. reflexivity.
  - reflexivity.
Defined.

(** C2, counterexample. The file stays locked through all five attempts
    and the write of the sidecar fails. The copy is in the store and the
    original is still there, but no sidecar is persisted, the call ends
    in the error box and the quarantine is not counted. *)
Lemma C2_counterexample :
  let '(w', st', effs) :=
    Quarantine.quarantine_file "/q" Sample.locked_unwritable "/home/a/evil.exe"
      "Trojan" Demo.world ScanStats_init in
  let qpath := "/q/20260108_090500_4034a346.exe" in
  (∀ a, attempt_fault Sample.locked_unwritable a = RemoveFails PermissionError)
  ∧ fs Demo.world !! "/home/a/evil.exe" = Some (Data [Byte.x4d; Byte.x5a])
  ∧ fs w' !! qpath = Some (Data [Byte.x4d; Byte.x5a])
  ∧ fs w' !! "/home/a/evil.exe" = Some (Data [Byte.x4d; Byte.x5a])
  ∧ fs w' !! (qpath +:+ ".meta") = None
  ∧ last effs = Some (Dialog Critical "오류")
  ∧ quarantined st' = 0.
Proof. vm_compute. done. Qed.

(* ===================================================================== *)
(** * Further properties *)
(* ===================================================================== *)

(** ** The worker loop as a fold over verdicts *)

Section VerdictStream.

Variable eng : Engine.
Variable use_detailed : bool.
Variable stop_during : nat → bool.

Local Abbreviation tallyf := (λ st f, tally (verdict eng use_detailed f) st).

Lemma scan_one_verdict filepath st :
  ∃ sigs,
    scan_one eng use_detailed filepath st
    = (Scan filepath :: map Emit sigs, tally (verdict eng use_detailed filepath) st)
    ∧ Forall (λ s, match s with
                   | result_detailed _ | result_msg _ => True
                   | _ => False
                   end) sigs.
Proof.
  unfold scan_one, verdict. destruct use_detailed.
  - eexists [_; _]. split; [reflexivity|]. repeat constructor.
  - unfold scan_file_basic. eexists [_]. split; [reflexivity|].
    repeat constructor.
Qed.

Lemma snapshots_app l k : snapshots (l ++ k) = snapshots l ++ snapshots k.
Proof. induction l as [|[|[]]]; simpl; congruence. Qed.

Lemma finished_count_app l k :
  finished_count (l ++ k) = finished_count l + finished_count k.
Proof. induction l as [|[|[]]]; simpl; congruence. Qed.

Lemma result_signals_plain sigs :
  Forall (λ s, match s with
               | result_detailed _ | result_msg _ => True
               | _ => False
               end) sigs →
  snapshots (map Emit sigs) = [] ∧ finished_count (map Emit sigs) = 0.
Proof.
  induction 1 as [|s sigs Hs _ IH]; [done|].
  destruct s; simpl in *; done.
Qed.

Lemma map_seq_shift {A} (g : nat → A) m :
  ∀ a, map g (seq (S a) m) = map (λ k, g (S k)) (seq a m).
Proof. induction m as [|m IH]; intros a; simpl; [done|]. by rewrite IH. Qed.

(** The shape of the loop's trace, whatever the stop schedule: a prefix
    of the list is scanned, the k-th snapshot is the fold of [tally] over
    the first k verdicts, and [finished] is not emitted inside. *)
Lemma run_loop_fold file_list :
  ∀ i flag st,
    let tr := (run_loop eng use_detailed stop_during i flag file_list st).1 in
    let m := length (scanned tr) in
    scanned tr = take m file_list
    ∧ m ≤ length file_list
    ∧ snapshots tr
      = map (λ k, snapshot (foldl tallyf st (take k file_list))) (seq 1 m)
    ∧ finished_count tr = 0.
Proof.
  induction file_list as [|f rest IH]; intros i flag st; simpl.
  { done. }
  destruct flag; [simpl; split; [done|split; [lia|done]]|].
  destruct (scan_one_verdict f st) as (sigs & -> & Hsigs).
  specialize (IH (S i) (false || stop_during i) (tally (verdict eng use_detailed f) st)).
  destruct (run_loop _ _ _ (S i) _ rest _) as [later st'']. simpl in IH |- *.
  destruct IH as (Hsc & Hm & Hsn & Hfin).
  destruct (result_signals_silent _ Hsigs) as (_ & Hs1 & _).
  destruct (result_signals_plain _ Hsigs) as (Hs2 & Hs3).
  rewrite scanned_app, snapshots_app, finished_count_app, Hs1, Hs2, Hs3.
  simpl. split; [by f_equal|]. split; [lia|]. split; [|exact Hfin].
  f_equal. rewrite Hsn. by rewrite (map_seq_shift _ _ 1).
Qed.

Lemma run_scanned_prefix file_list :
  let tr := run eng use_detailed stop_during file_list in
  scanned tr = take (length (scanned tr)) file_list
  ∧ length (scanned tr) ≤ length file_list.
Proof.
  unfold run. simpl. rewrite scanned_app. simpl. rewrite app_nil_r.
  destruct (run_loop_fold file_list 1 (false || stop_during 0) ScanStats_init)
    as (H1 & H2 & _). done.
Qed.

Lemma run_loop_never file_list :
  (∀ k, stop_during k = false) →
  ∀ i st,
    let tr := (run_loop eng use_detailed stop_during i false file_list st).1 in
    scanned tr = file_list ∧ progress_indices tr = seq i (length file_list).
Proof.
  intros Hnever. induction file_list as [|f rest IH]; intros i st; simpl; [done|].
  destruct (scan_one_verdict f st) as (sigs & -> & Hsigs).
  specialize (IH (S i) (tally (verdict eng use_detailed f) st)).
  rewrite Hnever. simpl in IH.
  destruct (run_loop _ _ _ (S i) _ rest _) as [later st'']. simpl in IH |- *.
  destruct IH as [H1 H2].
  destruct (result_signals_silent _ Hsigs) as (_ & Hs1 & Hs2).
  rewrite scanned_app, progress_indices_app, Hs1, Hs2. simpl.
  by rewrite H1, H2.
Qed.

Lemma tally_le status st : snapshot_le (snapshot st) (snapshot (tally status st)).
Proof.
  unfold snapshot_le, snapshot, tally.
  repeat case_match; simpl; lia.
Qed.

Lemma foldl_tally_le l :
  ∀ st, snapshot_le (snapshot st) (snapshot (foldl tallyf st l)).
Proof.
  induction l as [|f l IH]; intros st; simpl.
  - unfold snapshot_le. lia.
  - specialize (IH (tally (verdict eng use_detailed f) st)).
    pose proof (tally_le (verdict eng use_detailed f) st) as H.
    unfold snapshot_le in *. lia.
Qed.

Lemma foldl_tally_total l :
  ∀ st, total_scanned (foldl tallyf st l) = total_scanned st + length l.
Proof.
  induction l as [|f l IH]; intros st; simpl; [lia|].
  rewrite IH, tally_total. lia.
Qed.

End VerdictStream.

(** X1. When [stop()] is never called, every file of the list is scanned,
    in order, and the progress indices run from 1 to the length of the
    list. *)
Theorem X1_run_without_stop_scans_all
    (eng : Engine) (use_detailed : bool) (stop_during : nat → bool)
    (file_list : list string) :
  (∀ k, stop_during k = false) →
  let tr := run eng use_detailed stop_during file_list in
  scanned tr = file_list
  ∧ progress_indices tr = seq 1 (length file_list)
  ∧ length (snapshots tr) = length file_list.
Proof.
  intros Hnever tr.
  assert (Hsc : scanned tr = file_list
                ∧ progress_indices tr = seq 1 (length file_list)).
  { subst tr. unfold run. rewrite scanned_app, progress_indices_app. simpl.
    rewrite !app_nil_r, Hnever. by apply run_loop_never. }
  destruct Hsc as [Hsc Hpr]. split; [done|]. split; [done|].
  subst tr. unfold run in *. rewrite snapshots_app. simpl. rewrite app_nil_r.
  destruct (run_loop_fold eng use_detailed stop_during file_list 1
              (false || stop_during 0) ScanStats_init) as (_ & _ & Hsn & _).
  simpl in Hsn. rewrite Hsn, length_map, length_seq.
  rewrite scanned_app in Hsc. simpl in Hsc. rewrite app_nil_r in Hsc.
  by rewrite Hsc.
Qed.

Lemma X1_run_without_stop_scans_all_witness :
  let tr := run Demo.engine false Demo.never Demo.files in
  scanned tr = Demo.files
  ∧ progress_indices tr = seq 1 (length Demo.files)
  ∧ length (snapshots tr) = length Demo.files.
Proof.
  apply (X1_run_without_stop_scans_all Demo.engine false Demo.never Demo.files).
  intros k. reflexivity.
Defined.

Lemma run_snapshots
    (eng : Engine) (use_detailed : bool) (stop_during : nat → bool)
    (file_list : list string) :
  snapshots (run eng use_detailed stop_during file_list)
  = map (λ k, snapshot (tally_all eng use_detailed (take k file_list)))
        (seq 1 (length (scanned (run eng use_detailed stop_during file_list)))).
Proof.
  unfold run. simpl. rewrite snapshots_app, scanned_app. simpl.
  rewrite !app_nil_r.
  destruct (run_loop_fold eng use_detailed stop_during file_list 1
              (false || stop_during 0) ScanStats_init) as (_ & _ & Hsn & _).
  exact Hsn.
Qed.

(** X3. The statistics are a fold over the verdicts: the k-th snapshot of
    a run is the tally, from zero, of the verdicts of the first k files of
    the list, for every k up to the number of files scanned. *)
Theorem X3_snapshots_are_tallies
    (eng : Engine) (use_detailed : bool) (stop_during : nat → bool)
    (file_list : list string) :
  let tr := run eng use_detailed stop_during file_list in
  snapshots tr
  = map (λ k, snapshot (tally_all eng use_detailed (take k file_list)))
        (seq 1 (length (scanned tr))).
Proof.
  intros tr. subst tr.
  pose proof (run_snapshots eng use_detailed stop_during file_list) as H.
  destruct (run_scanned_prefix eng use_detailed stop_during file_list) as [_ Hm].
  rewrite H. reflexivity.
Qed.

(** X4. Snapshots never go down: of two snapshots of one run the later
    one has every bucket at least as large, and its total is larger by
    the number of snapshots in between. *)
Theorem X4_snapshots_monotone
    (eng : Engine) (use_detailed : bool) (stop_during : nat → bool)
    (file_list : list string) (i j : nat) (s1 s2 : StatsSnapshot) :
  let tr := run eng use_detailed stop_during file_list in
  i ≤ j →
  snapshots tr !! i = Some s1 →
  snapshots tr !! j = Some s2 →
  snapshot_le s1 s2 ∧ snap_total s2 = snap_total s1 + (j - i).
Proof.
  intros tr Hij H1 H2. subst tr.
  destruct (run_scanned_prefix eng use_detailed stop_during file_list)
    as [_ Hm].
  rewrite run_snapshots in H1, H2.
  rewrite list_lookup_fmap in H1, H2.
  destruct (seq _ _ !! i) as [k1|] eqn:Hk1; [|done].
  destruct (seq _ _ !! j) as [k2|] eqn:Hk2; [|done].
  apply lookup_seq in Hk1 as [-> Hi]. apply lookup_seq in Hk2 as [-> Hj].
  simpl in H1, H2. injection H1 as <-. injection H2 as <-.
  unfold tally_all.
  assert (Hsplit : take (S j) file_list
                   = take (S i) file_list ++ drop (S i) (take (S j) file_list)).
  { rewrite <- (take_drop (S i) (take (S j) file_list)) at 1.
    rewrite take_take. by rewrite Nat.min_l by lia. }
  rewrite Hsplit, foldl_app. split.
  - apply foldl_tally_le.
  - unfold snapshot. simpl. rewrite foldl_tally_total.
    rewrite length_drop, length_take. lia.
Qed.

Lemma X4_snapshots_monotone_witness :
  let s1 := {| snap_total := 1; snap_clean := 1; snap_malicious := 0;
               snap_suspicious := 0; snap_errors := 0 |} in
  let s2 := {| snap_total := 3; snap_clean := 1; snap_malicious := 1;
               snap_suspicious := 1; snap_errors := 0 |} in
  snapshot_le s1 s2 ∧ snap_total s2 = snap_total s1 + (2 - 0).
Proof.
  intros s1 s2.
  apply (X4_snapshots_monotone Demo.engine false Demo.never Demo.files 0 2 s1 s2).
  - lia.
  - reflexivity.
  - reflexivity.
Defined.

(** ** The detailed scan falling back on the basic one *)

Section Fallback.

Variable eng : Engine.

Lemma verdict_fallback filepath :
  has_detailed_scan eng = false ∨ engine_scan_file_detailed eng filepath = None →
  verdict eng true filepath = verdict eng false filepath.
Proof.
  unfold verdict, scan_file_detailed, scan_file_basic.
  intros [H|H].
  - by rewrite H.
  - destruct (has_detailed_scan eng); simpl; [|done]. by rewrite H.
Qed.

(** When both modes give every file the same verdict, they produce the
    same snapshots under the same stop schedule. *)
Lemma run_loop_snapshots_agree stop_during file_list :
  (∀ f, f ∈ file_list → verdict eng true f = verdict eng false f) →
  ∀ i flag st,
    snapshots (run_loop eng true stop_during i flag file_list st).1
    = snapshots (run_loop eng false stop_during i flag file_list st).1.
Proof.
  induction file_list as [|f rest IH]; intros Hagree i flag st;
    cbn [run_loop]; [done|].
  destruct flag; [done|].
  destruct (scan_one_verdict eng true f st) as (sigs1 & -> & Hsigs1).
  destruct (scan_one_verdict eng false f st) as (sigs2 & -> & Hsigs2).
  rewrite (Hagree f) by (by left).
  specialize (IH (λ g Hg, Hagree g (list_elem_of_further _ _ _ Hg)) (S i)
                 (false || stop_during i) (tally (verdict eng false f) st)).
  destruct (run_loop eng true _ (S i) _ rest _) as [later1 st1].
  destruct (run_loop eng false _ (S i) _ rest _) as [later2 st2].
  simpl in IH |- *. rewrite !snapshots_app.
  rewrite (proj1 (result_signals_plain _ Hsigs1)).
  rewrite (proj1 (result_signals_plain _ Hsigs2)). simpl. by rewrite IH.
Qed.

Lemma split_first_plain sep (l rest : list ascii) :
  sep ∉ l → PyStr.split_first_chars sep (l ++ sep :: rest) = l.
Proof.
  induction l as [|c l IH]; intros Hnot; simpl.
  - by destruct (decide (sep = sep)).
  - apply not_elem_of_cons in Hnot as [Hne Hnot].
    destruct (decide (c = sep)) as [->|_]; [done|]. by rewrite IH.
Qed.

Lemma filter_ne_plain (c : ascii) (l : list ascii) :
  c ∉ l → filter (λ x, x ≠ c) l = l.
Proof.
  induction l as [|x l IH]; intros Hnot; [done|].
  apply not_elem_of_cons in Hnot as [Hne Hnot].
  rewrite filter_cons_True by done. by rewrite IH.
Qed.

Lemma bracket_free_spec s :
  bracket_free s = true →
  ("]"%char ∉ PyStr.chars s) ∧ ("["%char ∉ PyStr.chars s).
Proof.
  unfold bracket_free. generalize (PyStr.chars s) as l.
  induction l as [|c l IH]; simpl; intros H.
  - split; apply not_elem_of_nil.
  - apply andb_prop in H as [Hc Hl]. apply andb_prop in Hc as [Hc1 Hc2].
    apply negb_true_iff, bool_decide_eq_false in Hc1, Hc2.
    destruct (IH Hl) as [H1 H2].
    split; apply not_elem_of_cons; split; congruence.
Qed.

Lemma status_text_bracket_free code : bracket_free (status_text code) = true.
Proof. unfold status_text, status_map. repeat case_match; reflexivity. Qed.

End Fallback.

(** X5. An engine without the detailed capability, or one whose detailed
    scan raises for every file of the list, yields in detailed mode the
    same stream of statistics snapshots as in basic mode. *)
Theorem X5_detailed_fallback_same_statistics
    (eng : Engine) (stop_during : nat → bool) (file_list : list string) :
  has_detailed_scan eng = false
  ∨ (∀ f, f ∈ file_list → engine_scan_file_detailed eng f = None) →
  snapshots (run eng true stop_during file_list)
  = snapshots (run eng false stop_during file_list).
Proof.
  intros H. unfold run. rewrite !snapshots_app. f_equal.
  apply run_loop_snapshots_agree. intros f Hf. apply verdict_fallback.
  destruct H as [H|H]; [by left|right; by apply H].
Qed.

Lemma X5_detailed_fallback_same_statistics_witness :
  snapshots (run Sample.failing_detailed true Demo.during_second Demo.files)
  = snapshots (run Sample.failing_detailed false Demo.during_second Demo.files).
Proof.
  apply (X5_detailed_fallback_same_statistics Sample.failing_detailed
           Demo.during_second Demo.files).
  right. intros f _. reflexivity.
Defined.

(** X6. Without the detailed capability the result of
    [scan_file_detailed] carries the status of the basic scan and, as its
    threat name, exactly the status label, whatever characters (brackets
    included) the path consists of; hashes are empty and the size is 0. *)
Theorem X6_fallback_result_from_basic_scan
    (eng : Engine) (filepath : string) :
  has_detailed_scan eng = false →
  let d := scan_file_detailed eng filepath in
  rd_status d = Some (scan_file eng filepath)
  ∧ rd_threat_name d = Some (status_text (scan_file eng filepath))
  ∧ rd_md5 d = Some "" ∧ rd_sha256 d = "" ∧ rd_file_size d = Some 0%Z.
Proof.
  intros Hcap. unfold scan_file_detailed, scan_file_basic. rewrite Hcap. simpl.
  split; [done|]. split; [|done]. f_equal.
  destruct (bracket_free_spec _ (status_text_bracket_free (scan_file eng filepath)))
    as [Hclose Hopen].
  unfold PyStr.remove_char, PyStr.split_first.
  rewrite !chars_app.
  change (PyStr.chars "[") with ["["%char].
  change (PyStr.chars "] ") with ["]"%char; " "%char].
  replace (["["%char] ++ PyStr.chars (status_text (scan_file eng filepath))
             ++ ["]"%char; " "%char] ++ PyStr.chars filepath)
    with (("["%char :: PyStr.chars (status_text (scan_file eng filepath)))
            ++ "]"%char :: (" "%char :: PyStr.chars filepath)) by done.
  rewrite split_first_plain.
  - rewrite chars_of_chars. rewrite filter_cons_False by (by intros H; apply H).
    rewrite filter_ne_plain by done. apply of_chars_chars.
  - apply not_elem_of_cons. split; [done|exact Hclose].
Qed.

Lemma X6_fallback_result_from_basic_scan_witness :
  let d := scan_file_detailed Demo.engine "/tmp/[odd]/virus.exe" in
  rd_status d = Some (scan_file Demo.engine "/tmp/[odd]/virus.exe")
  ∧ rd_threat_name d
    = Some (status_text (scan_file Demo.engine "/tmp/[odd]/virus.exe"))
  ∧ rd_md5 d = Some "" ∧ rd_sha256 d = "" ∧ rd_file_size d = Some 0%Z.
Proof.
  apply (X6_fallback_result_from_basic_scan Demo.engine "/tmp/[odd]/virus.exe").
  reflexivity.
Defined.

(** ** Automatic quarantine and the statistics *)

Section AutoQuarantineCount.

Variable eng : Engine.
Variable stop_during : nat → bool.

(** The files the slot quarantines, from the files scanned. *)
Lemma run_loop_quarantine_calls file_list :
  ∀ i flag st,
    let tr := (run_loop eng true stop_during i flag file_list st).1 in
    Gui.quarantine_calls (Gui.slot_actions true tr)
    = flat_map (λ f, if Gui.is_threat (verdict eng true f)
                     then [(f, default "Unknown"
                                 (rd_threat_name (scan_file_detailed eng f)))]
                     else [])
               (scanned tr).
Proof.
  induction file_list as [|f rest IH]; intros i flag st; simpl; [done|].
  destruct flag; [done|].
  specialize (IH (S i) (false || stop_during i)
                 (tally (default (-1)%Z
                    (rd_status (set_filepath (scan_file_detailed eng f) f))) st)).
  destruct (run_loop eng true _ (S i) _ rest _) as [later st'']. simpl in IH |- *.
  unfold Gui.quarantine_calls in *. rewrite flat_map_app. rewrite IH.
  unfold verdict. simpl. by destruct (Gui.is_threat _).
Qed.

Lemma tally_threats status st :
  malicious_files (tally status st) + suspicious_files (tally status st)
  = malicious_files st + suspicious_files st
    + (if Gui.is_threat status then 1 else 0).
Proof.
  unfold tally, Gui.is_threat.
  destruct (Z.eqb_spec status 0), (Z.eqb_spec status 1), (Z.eqb_spec status 2),
    (Z.eqb_spec status 3); simpl; lia.
Qed.

Lemma foldl_tally_threats l :
  ∀ st,
    let st' := foldl (λ st f, tally (verdict eng true f) st) st l in
    malicious_files st' + suspicious_files st'
    = malicious_files st + suspicious_files st
      + length (flat_map (λ f, if Gui.is_threat (verdict eng true f)
                               then [(f, default "Unknown"
                                          (rd_threat_name
                                             (scan_file_detailed eng f)))]
                               else []) l).
Proof.
  induction l as [|f l IH]; intros st; simpl; [lia|].
  specialize (IH (tally (verdict eng true f) st)). simpl in IH.
  rewrite IH, tally_threats, length_app.
  destruct (Gui.is_threat _); simpl; lia.
Qed.

End AutoQuarantineCount.

(** X7. In detailed mode with automatic quarantine checked, the table
    slot calls [quarantine_file] as many times as the statistics of the
    scanned files count malicious plus suspicious files. *)
Theorem X7_quarantine_calls_match_statistics
    (eng : Engine) (stop_during : nat → bool) (file_list : list string) :
  let tr := run eng true stop_during file_list in
  let stats := tally_all eng true (scanned tr) in
  length (Gui.quarantine_calls (Gui.slot_actions true tr))
  = malicious_files stats + suspicious_files stats.
Proof.
  unfold run. simpl.
  unfold Gui.slot_actions, Gui.quarantine_calls.
  rewrite flat_map_app, flat_map_app, scanned_app. simpl. rewrite !app_nil_r.
  pose proof (run_loop_quarantine_calls eng stop_during file_list 1
                (false || stop_during 0) ScanStats_init) as Hcalls.
  simpl in Hcalls. unfold Gui.slot_actions, Gui.quarantine_calls in Hcalls.
  rewrite Hcalls. unfold tally_all.
  set (l := scanned _).
  pose proof (foldl_tally_threats eng l ScanStats_init) as H.
  cbv zeta in H. rewrite H. reflexivity.
Qed.

(** X28. In detailed mode every completed scan is directly followed in
    the worker's trace, before the next scan, by the [result_detailed]
    signal carrying that file's path; the slot connected to the signal
    calls [quarantine_file] for that file exactly once when the automatic
    quarantine box is checked and the status is 1, 2 or 3, and not at all
    for another status or with the box unchecked. *)
Theorem X28_result_signal_follows_each_scan
    (eng : Engine) (stop_during : nat → bool) (file_list : list string)
    (pre : list Action) (filepath : string) (post : list Action) :
  run eng true stop_during file_list = pre ++ Scan filepath :: post →
  ∃ d post',
    post = Emit (result_detailed d) :: post'
    ∧ rd_filepath d = Some filepath
    ∧ Gui.quarantine_calls (Gui.add_result_to_table true d)
      = (if Gui.is_threat (default (-1)%Z (rd_status d))
         then [(filepath, default "Unknown" (rd_threat_name d))]
         else [])
    ∧ Gui.quarantine_calls (Gui.add_result_to_table false d) = [].
Proof.
  intros H. unfold run in H.
  apply app_eq_inv in H as [(k & Hk1 & Hk2)|(k & Hk1 & Hk2)].
  - destruct k as [|y k]; simpl in Hk2; [discriminate Hk2|].
    injection Hk2 as <- ->.
    apply run_loop_result_follows in Hk1 as [post' ->].
    eexists _, _. split; [reflexivity|]. split; [reflexivity|].
    unfold Gui.add_result_to_table. simpl.
    destruct (Gui.is_threat _); split; reflexivity.
  - destruct k as [|y [|z k]]; simpl in Hk2; discriminate Hk2.
Qed.

Lemma X28_result_signal_follows_each_scan_witness :
  ∃ d post',
    drop 6 (run Demo.engine true Demo.never ["/tmp/clean.txt"; "/tmp/virus.exe"])
    = Emit (result_detailed d) :: post'
    ∧ rd_filepath d = Some "/tmp/virus.exe"
    ∧ Gui.quarantine_calls (Gui.add_result_to_table true d)
      = (if Gui.is_threat (default (-1)%Z (rd_status d))
         then [("/tmp/virus.exe", default "Unknown" (rd_threat_name d))]
         else [])
    ∧ Gui.quarantine_calls (Gui.add_result_to_table false d) = [].
Proof.
  set (tr := run Demo.engine true Demo.never ["/tmp/clean.txt"; "/tmp/virus.exe"]).
  refine (X28_result_signal_follows_each_scan Demo.engine Demo.never
            ["/tmp/clean.txt"; "/tmp/virus.exe"]
            (take 5 tr) "/tmp/virus.exe" (drop 6 tr) _).
  vm_compute. reflexivity.
Defined.

(** ** The outcomes of a quarantine *)

Section QuarantineOutcomes.

Import Quarantine.
Variable os : OS.
Variables filepath qpath : string.

Lemma killed_app l k : killed (l ++ k) = killed l ++ killed k.
Proof. unfold killed. apply flat_map_app. Qed.

Lemma silent_killed l : Forall quiet l → killed l = [].
Proof.
  induction 1 as [|e l He _ IH]; [done|].
  destruct e; simpl in *; done.
Qed.

(** A faulty attempt fails with the exception of its fault. It changes
    nothing but the store path: nothing at all when it raises before the
    store file is opened, and it leaves the complete copy when it gets
    as far as the removal. *)
Lemma attempt_body_faulty attempt w e :
  fault_exc (attempt_fault os attempt) = Some e →
  is_Some (fs w !! filepath) →
  ∃ w1 effs,
    attempt_body os filepath qpath attempt w = (w1, effs, Failed e)
    ∧ (∀ p, p ≠ qpath → fs w1 !! p = fs w !! p)
    ∧ is_Some (fs w1 !! filepath)
    ∧ (reaches_removal (attempt_fault os attempt) = true →
       fs w1 !! qpath = fs w !! filepath)
    ∧ (before_store (attempt_fault os attempt) = true → fs w1 = fs w)
    ∧ procs w1 = procs w ∧ Forall silent effs ∧ Forall quiet effs.
Proof.
  intros Hexc [file_data Hfs]. unfold attempt_body. rewrite Hfs.
  assert (Hkeep : ∀ d : File, is_Some (<[qpath := d]> (fs w) !! filepath)).
  { intros d. destruct (decide (qpath = filepath)) as [->|Hne].
    - rewrite lookup_insert_eq. by eauto.
    - rewrite lookup_insert_ne by done. by eauto. }
  destruct (attempt_fault os attempt) as [|e'|e'|e' remains|e']; simpl in *;
    [done| | | |]; injection Hexc as ->;
    eexists _, _; (split; [reflexivity|]); simpl.
  - repeat split; by eauto.
  - repeat split; by eauto.
  - split; [intros p Hp; by rewrite lookup_insert_ne|].
    split; [apply Hkeep|]. repeat split; done.
  - split; [intros p Hp; by rewrite lookup_insert_ne|].
    split; [apply Hkeep|].
    split; [intros _; by rewrite lookup_insert_eq|].
    split; [done|]. repeat split; by repeat constructor.
Qed.

(** The handler of a failed attempt that is not the last one leaves the
    file system alone. *)
Lemma forced_release_fs w :
  let '(w', effs, closed) := force_close_file_handles os filepath w in
  fs w' = fs w ∧ Forall silent effs.
Proof.
  pose proof (force_close_scope os filepath w) as H.
  pose proof (force_close_silent os filepath w) as Hs.
  destruct (force_close_file_handles os filepath w) as [[w' effs] closed].
  destruct H as (H & _). done.
Qed.

(** After a failed attempt that is not the last one the loop goes on
    with the later attempts, on the same file system. *)
Lemma retry_loop_step a later last_error w w1 effs1 e :
  attempt_body os filepath qpath a w = (w1, effs1, Failed e) →
  a < max_retries - 1 →
  ∃ w2 mid last_error',
    fs w2 = fs w1 ∧ Forall silent mid
    ∧ retry_loop os filepath qpath (a :: later) last_error w
      = let '(w', effs', out) :=
          retry_loop os filepath qpath later last_error' w2 in
        (w', effs1 ++ mid ++ effs', out).
Proof.
  intros Hbody Hlt. cbn [retry_loop]. rewrite Hbody.
  apply Nat.ltb_lt in Hlt. rewrite Hlt. destruct e.
  - destruct (2 <=? a).
    + pose proof (forced_release_fs w1) as Hfc.
      destruct (force_close_file_handles os filepath w1) as [[w2 kills] closed].
      destruct Hfc as [Hfs2 Hsil2].
      exists w2, (Sleep (500 * (a + 1)) :: ForceClose a
                  :: kills ++ (if closed then [Sleep 1000] else [])),
        (Some PermissionError).
      split; [done|]. split.
      * apply Forall_cons. split; [done|]. apply Forall_cons. split; [done|].
        apply Forall_app. split; [done|]. destruct closed; by repeat constructor.
      * by destruct (retry_loop os filepath qpath later _ w2) as [[w3 effs3] out].
    + exists w1, [Sleep (500 * (a + 1))], (Some PermissionError).
      split; [done|]. split; [by repeat constructor|].
      by destruct (retry_loop os filepath qpath later _ w1) as [[w3 effs3] out].
  - exists w1, [Sleep 500], (Some OtherException).
    split; [done|]. split; [by repeat constructor|].
    by destruct (retry_loop os filepath qpath later _ w1) as [[w3 effs3] out].
Qed.

(** The first attempt without a fault, after faulty attempts none of
    which is the last of the window, ends the loop with success: the
    original is gone, the store path holds what the original held, and
    no other path changed. *)
Lemma retry_loop_first_success pre :
  ∀ k post last_error w,
    Forall (λ a, attempt_fault os a ≠ NoFault ∧ a < max_retries - 1) pre →
    attempt_fault os k = NoFault →
    is_Some (fs w !! filepath) →
    let '(w', effs, out) :=
      retry_loop os filepath qpath (pre ++ k :: post) last_error w in
    (∃ e, out = Finished true e)
    ∧ fs w' !! filepath = None
    ∧ (qpath ≠ filepath → fs w' !! qpath = fs w !! filepath)
    ∧ (∀ p, p ≠ filepath → p ≠ qpath → fs w' !! p = fs w !! p)
    ∧ Forall silent effs.
Proof.
  induction pre as [|a pre IH]; intros k post last_error w Hpre Hk Hfs.
  - cbn [retry_loop app]. unfold attempt_body. rewrite Hk.
    destruct Hfs as [d Hfs]. rewrite Hfs. simpl.
    split; [by eauto|]. split; [apply lookup_delete_eq|].
    split; [|split; [|by repeat constructor]].
    + intros Hne. rewrite lookup_delete_ne by done. apply lookup_insert_eq.
    + intros p Hp1 Hp2. rewrite lookup_delete_ne by done.
      by rewrite lookup_insert_ne.
  - apply Forall_cons in Hpre as [[Hfault Hlt] Hpre].
    destruct (fault_exc (attempt_fault os a)) as [e|] eqn:Hexc;
      [|by destruct (attempt_fault os a)].
    destruct (attempt_body_faulty a w e Hexc Hfs)
      as (w1 & effs1 & Hbody & Hframe1 & Hsome1 & _ & _ & _ & Hsil1 & _).
    cbn [app].
    destruct (retry_loop_step a (pre ++ k :: post) last_error w w1 effs1 e
                Hbody Hlt) as (w2 & mid & le & Hfs2 & Hsilm & ->).
    rewrite <- Hfs2 in Hsome1.
    specialize (IH k post le w2 Hpre Hk Hsome1).
    destruct (retry_loop os filepath qpath _ _ w2) as [[w3 effs3] out].
    destruct IH as (Hout & Hgone & Hcopy & Hframe & Hsil3).
    split; [done|]. split; [done|]. split; [|split].
    + intros Hne. rewrite Hcopy, Hfs2 by done. apply Hframe1. by apply not_eq_sym.
    + intros p Hp1 Hp2. rewrite Hframe, Hfs2 by done. by apply Hframe1.
    + apply Forall_app. split; [done|]. by apply Forall_app.
Qed.

(** Faulty attempts up to and including the last one of the window: the
    kind of the last exception decides between a partial success and a
    raised error. Nothing but the store path changes; it holds the
    complete copy when the last attempt got as far as the removal, and
    nothing changes at all when every attempt raised before the store
    file was opened. *)
Lemma retry_loop_all_faulty pre :
  ∀ k e last_error w,
    Forall (λ a, attempt_fault os a ≠ NoFault ∧ a < max_retries - 1) pre →
    fault_exc (attempt_fault os k) = Some e →
    ¬ k < max_retries - 1 →
    is_Some (fs w !! filepath) →
    let '(w', effs, out) :=
      retry_loop os filepath qpath (pre ++ [k]) last_error w in
    out = match e with
          | PermissionError => Finished false (Some PermissionError)
          | OtherException => Raised OtherException
          end
    ∧ (∀ p, p ≠ qpath → fs w' !! p = fs w !! p)
    ∧ (reaches_removal (attempt_fault os k) = true → qpath ≠ filepath →
       fs w' !! qpath = fs w !! filepath)
    ∧ (Forall (λ a, before_store (attempt_fault os a) = true) (pre ++ [k]) →
       fs w' = fs w)
    ∧ Forall silent effs.
Proof.
  induction pre as [|a pre IH]; intros k e last_error w Hpre Hk Hlast Hfs.
  - cbn [retry_loop app].
    destruct (attempt_body_faulty k w e Hk Hfs)
      as (w1 & effs1 & -> & Hframe1 & _ & Hcopy1 & Hsame1 & _ & Hsil1 & _).
    apply Nat.ltb_nlt in Hlast. rewrite Hlast.
    destruct e; (split; [done|]); (split; [done|]);
      (split; [by intros Hr _; apply Hcopy1|]); (split; [|done]);
      intros Hb; apply Forall_cons in Hb as [Hb _]; by apply Hsame1.
  - apply Forall_cons in Hpre as [[Hfault Hlt] Hpre].
    destruct (fault_exc (attempt_fault os a)) as [e0|] eqn:Hexc;
      [|by destruct (attempt_fault os a)].
    destruct (attempt_body_faulty a w e0 Hexc Hfs)
      as (w1 & effs1 & Hbody & Hframe1 & Hsome1 & _ & Hsame1 & _ & Hsil1 & _).
    cbn [app].
    destruct (retry_loop_step a (pre ++ [k]) last_error w w1 effs1 e0
                Hbody Hlt) as (w2 & mid & le & Hfs2 & Hsilm & ->).
    rewrite <- Hfs2 in Hsome1.
    specialize (IH k e le w2 Hpre Hk Hlast Hsome1).
    destruct (retry_loop os filepath qpath _ _ w2) as [[w3 effs3] out].
    destruct IH as (Hout & Hframe & Hcopy & Hsame & Hsil3).
    split; [done|]. split; [|split; [|split]].
    + intros p Hp. rewrite Hframe, Hfs2 by done. by apply Hframe1.
    + intros Hr Hne. rewrite Hcopy, Hfs2 by done. apply Hframe1.
      by apply not_eq_sym.
    + intros Hb. apply Forall_cons in Hb as [Hb1 Hb].
      rewrite Hsame, Hfs2 by done. by apply Hsame1.
    + apply Forall_app. split; [done|]. by apply Forall_app.
Qed.

End QuarantineOutcomes.

Lemma attempts_split k :
  k < Quarantine.max_retries →
  seq 0 Quarantine.max_retries
  = seq 0 k ++ k :: seq (S k) (Quarantine.max_retries - S k).
Proof.
  intros Hk. replace Quarantine.max_retries
    with (k + S (Quarantine.max_retries - S k)) at 1 by lia.
  by rewrite seq_app.
Qed.

(** The file system after a quarantine whose retry loop succeeded. *)
Lemma success_fs (filepath qpath : string) (file_data : File)
    (f f1 : gmap string File) :
  f !! filepath = Some file_data →
  f1 !! filepath = None →
  (qpath ≠ filepath → f1 !! qpath = f !! filepath) →
  (∀ p, p ≠ filepath → p ≠ qpath → f1 !! p = f !! p) →
  f1 = delete filepath (<[qpath := file_data]> f).
Proof.
  intros Hfs Hgone Hcopy Hframe. apply map_eq. intros p.
  destruct (decide (p = filepath)) as [->|Hp1].
  { by rewrite Hgone, lookup_delete_eq. }
  rewrite lookup_delete_ne by done.
  destruct (decide (p = qpath)) as [->|Hp2].
  - rewrite lookup_insert_eq, Hcopy by done. done.
  - rewrite lookup_insert_ne by done. by apply Hframe.
Qed.

(** X8. If the file exists, some attempt of the window has no fault,
    every attempt before it has one (of whatever kind, at whatever
    stage) and the sidecar can be written, then the quarantine is a full
    success: the original is removed, the store holds the copy and a
    sidecar with [original_deleted = true], the success box is shown and
    the quarantine counter grows by one. *)
Theorem X8_quarantine_succeeds_at_first_clean_attempt
    (QUARANTINE_DIR : string) (os : OS) (filepath threat : string)
    (w : World) (st : ScanStats) (file_data : File) (k : nat) :
  fs w !! filepath = Some file_data →
  k < Quarantine.max_retries →
  (∀ a, a < k → attempt_fault os a ≠ NoFault) →
  attempt_fault os k = NoFault →
  meta_write_raises os = false →
  let '(w', st', effs) :=
    Quarantine.quarantine_file QUARANTINE_DIR os filepath threat w st in
  let qpath := Quarantine.quarantine_path QUARANTINE_DIR (now_name os) filepath in
  fs w'
  = <[qpath +:+ ".meta" :=
        MetaJson {| original_path := filepath;
                    original_filename := PyStr.basename filepath;
                    threat_name := threat;
                    quarantine_time := strftime_iso (now_meta os);
                    original_deleted := true |}]>
      (delete filepath (<[qpath := file_data]> (fs w)))
  ∧ (filepath ≠ qpath +:+ ".meta" → fs w' !! filepath = None)
  ∧ (filepath ≠ qpath → fs w' !! qpath = Some file_data)
  ∧ last effs = Some (Dialog Information "성공")
  ∧ quarantined st' = quarantined st + 1.
Proof.
  intros Hfs Hk Hfaulty Hclean Hmeta. unfold Quarantine.quarantine_file.
  rewrite Hfs, Hmeta, (attempts_split k Hk).
  set (qpath := Quarantine.quarantine_path QUARANTINE_DIR (now_name os) filepath).
  pose proof (retry_loop_first_success os filepath qpath (seq 0 k) k
                (seq (S k) (Quarantine.max_retries - S k)) None w) as Hloop.
  destruct (Quarantine.retry_loop _ _ _ _ _ _) as [[w1 effs] out].
  destruct Hloop as ([e ->] & Hgone & Hcopy & Hframe & Hsil); [|done|by eauto|].
  { apply Forall_forall. intros a Ha. apply elem_of_seq in Ha.
    split; [apply Hfaulty; lia|]. unfold Quarantine.max_retries in *. lia. }
  simpl. rewrite (success_fs filepath qpath file_data (fs w) (fs w1))
    by done.
  split; [done|]. split; [|split; [|split]].
  - intros Hne. rewrite lookup_insert_ne by done. apply lookup_delete_eq.
  - intros Hne. rewrite lookup_insert_ne by apply meta_path_fresh.
    rewrite lookup_delete_ne by done. apply lookup_insert_eq.
  - apply last_snoc.
  - done.
Qed.

Lemma X8_quarantine_succeeds_at_first_clean_attempt_witness :
  let '(w', st', effs) :=
    Quarantine.quarantine_file "/q" Sample.free_at_third "/home/a/evil.exe"
      "Trojan" Demo.world ScanStats_init in
  let qpath := Quarantine.quarantine_path "/q" Demo.now "/home/a/evil.exe" in
  fs w'
  = <[qpath +:+ ".meta" :=
        MetaJson {| original_path := "/home/a/evil.exe";
                    original_filename := PyStr.basename "/home/a/evil.exe";
                    threat_name := "Trojan";
                    quarantine_time := strftime_iso Demo.a_second_later;
                    original_deleted := true |}]>
      (delete "/home/a/evil.exe"
         (<[qpath := Data [Byte.x4d; Byte.x5a]]> (fs Demo.world)))
  ∧ ("/home/a/evil.exe" ≠ qpath +:+ ".meta" → fs w' !! "/home/a/evil.exe" = None)
  ∧ ("/home/a/evil.exe" ≠ qpath →
     fs w' !! qpath = Some (Data [Byte.x4d; Byte.x5a]))
  ∧ last effs = Some (Dialog Information "성공")
  ∧ quarantined st' = quarantined ScanStats_init + 1.
Proof.
  apply (X8_quarantine_succeeds_at_first_clean_attempt "/q" Sample.free_at_third
           "/home/a/evil.exe" "Trojan" Demo.world ScanStats_init
           (Data [Byte.x4d; Byte.x5a]) 2).
  - reflexivity.
  - unfold Quarantine.max_retries. lia.
  - intros [|[|a]] Ha; [discriminate | discriminate | lia].
  - reflexivity.
  - reflexivity.
Defined.

(** X9. If every attempt of the window has a fault and the fault of the
    last attempt is not a permission error, [quarantine_file] ends in the
    error box: no sidecar is written, the quarantine counter does not
    move and no path other than the store path of the copy changes. The
    store path itself may hold a file all the same; when the last
    attempt failed at the removal it holds the complete copy. *)
Theorem X9_quarantine_error_leaves_no_record
    (QUARANTINE_DIR : string) (os : OS) (filepath threat : string)
    (w : World) (st : ScanStats) (file_data : File) :
  fs w !! filepath = Some file_data →
  (∀ a, a < Quarantine.max_retries - 1 → attempt_fault os a ≠ NoFault) →
  fault_exc (attempt_fault os (Quarantine.max_retries - 1)) = Some OtherException →
  let '(w', st', effs) :=
    Quarantine.quarantine_file QUARANTINE_DIR os filepath threat w st in
  let qpath := Quarantine.quarantine_path QUARANTINE_DIR (now_name os) filepath in
  (∀ p, p ≠ qpath → fs w' !! p = fs w !! p)
  ∧ fs w' !! (qpath +:+ ".meta") = fs w !! (qpath +:+ ".meta")
  ∧ (reaches_removal (attempt_fault os (Quarantine.max_retries - 1)) = true →
     filepath ≠ qpath → fs w' !! qpath = Some file_data)
  ∧ st' = st
  ∧ last effs = Some (Dialog Critical "오류").
Proof.
  intros Hfs Hfaulty Hlast. unfold Quarantine.quarantine_file. rewrite Hfs.
  set (qpath := Quarantine.quarantine_path QUARANTINE_DIR (now_name os) filepath).
  pose proof (retry_loop_all_faulty os filepath qpath
                (seq 0 (Quarantine.max_retries - 1)) (Quarantine.max_retries - 1)
                OtherException None w) as Hloop.
  change (seq 0 (Quarantine.max_retries - 1) ++ [Quarantine.max_retries - 1])
    with (seq 0 Quarantine.max_retries) in Hloop.
  destruct (Quarantine.retry_loop _ _ _ _ _ _) as [[w1 effs] out].
  destruct Hloop as (-> & Hframe & Hcopy & _ & Hsil); [|done|lia|by eauto|].
  { apply Forall_forall. intros a Ha. apply elem_of_seq in Ha.
    split; [apply Hfaulty; lia|lia]. }
  split; [done|]. split; [apply Hframe, meta_path_fresh|].
  split; [|split; [done|apply last_snoc]].
  intros Hr Hne. rewrite Hcopy by done. done.
Qed.

Lemma X9_quarantine_error_leaves_no_record_witness :
  let '(w', st', effs) :=
    Quarantine.quarantine_file "/q" Sample.broken "/home/a/evil.exe" "Trojan"
      Demo.world ScanStats_init in
  let qpath := Quarantine.quarantine_path "/q" Demo.now "/home/a/evil.exe" in
  (∀ p, p ≠ qpath → fs w' !! p = fs Demo.world !! p)
  ∧ fs w' !! (qpath +:+ ".meta") = fs Demo.world !! (qpath +:+ ".meta")
  ∧ (reaches_removal
       (attempt_fault Sample.broken (Quarantine.max_retries - 1)) = true →
     "/home/a/evil.exe" ≠ qpath →
     fs w' !! qpath = Some (Data [Byte.x4d; Byte.x5a]))
  ∧ st' = ScanStats_init
  ∧ last effs = Some (Dialog Critical "오류").
Proof.
  apply (X9_quarantine_error_leaves_no_record "/q" Sample.broken
           "/home/a/evil.exe" "Trojan" Demo.world ScanStats_init
           (Data [Byte.x4d; Byte.x5a])).
  - reflexivity.
  - intros a _. discriminate.
  - reflexivity.
Defined.

(** X10. If every attempt raises before anything is created in the store
    (at reading the original or at opening the store file), the last one
    with a permission error, the sidecar can be written and the store
    had no file under the name of the copy, then the sidecar is written
    all the same, with [original_deleted = false], and counted, while
    the store holds no copy of the file. *)
Theorem X10_quarantine_record_without_copy
    (QUARANTINE_DIR : string) (os : OS) (filepath threat : string)
    (w : World) (st : ScanStats) (file_data : File) :
  fs w !! filepath = Some file_data →
  (∀ a, a < Quarantine.max_retries →
        before_store (attempt_fault os a) = true) →
  fault_exc (attempt_fault os (Quarantine.max_retries - 1)) = Some PermissionError →
  meta_write_raises os = false →
  let qpath := Quarantine.quarantine_path QUARANTINE_DIR (now_name os) filepath in
  fs w !! qpath = None →
  let '(w', st', effs) :=
    Quarantine.quarantine_file QUARANTINE_DIR os filepath threat w st in
  fs w' !! qpath = None
  ∧ fs w' !! (qpath +:+ ".meta")
    = Some (MetaJson {| original_path := filepath;
                        original_filename := PyStr.basename filepath;
                        threat_name := threat;
                        quarantine_time := strftime_iso (now_meta os);
                        original_deleted := false |})
  ∧ quarantined st' = quarantined st + 1.
Proof.
  intros Hfs Hearly Hlast Hmeta qpath Hfree. unfold Quarantine.quarantine_file.
  rewrite Hfs, Hmeta. fold qpath.
  pose proof (retry_loop_all_faulty os filepath qpath
                (seq 0 (Quarantine.max_retries - 1)) (Quarantine.max_retries - 1)
                PermissionError None w) as Hloop.
  change (seq 0 (Quarantine.max_retries - 1) ++ [Quarantine.max_retries - 1])
    with (seq 0 Quarantine.max_retries) in Hloop.
  destruct (Quarantine.retry_loop _ _ _ _ _ _) as [[w1 effs] out].
  destruct Hloop as (-> & _ & _ & Hsame & Hsil); [|done|lia|by eauto|].
  { apply Forall_forall. intros a Ha. apply elem_of_seq in Ha.
    split; [|lia]. intros Hno.
    specialize (Hearly a ltac:(unfold Quarantine.max_retries in *; lia)).
    by rewrite Hno in Hearly. }
  simpl. rewrite Hsame.
  2: { apply Forall_forall. intros a Ha. apply elem_of_seq in Ha.
       apply Hearly. lia. }
  split; [|split; [apply lookup_insert_eq|done]].
  by rewrite lookup_insert_ne by apply meta_path_fresh.
Qed.

Lemma X10_quarantine_record_without_copy_witness :
  let qpath := Quarantine.quarantine_path "/q" Demo.now "/home/a/evil.exe" in
  let '(w', st', effs) :=
    Quarantine.quarantine_file "/q" Sample.unreadable "/home/a/evil.exe"
      "Trojan" Demo.world ScanStats_init in
  fs w' !! qpath = None
  ∧ fs w' !! (qpath +:+ ".meta")
    = Some (MetaJson {| original_path := "/home/a/evil.exe";
                        original_filename := PyStr.basename "/home/a/evil.exe";
                        threat_name := "Trojan";
                        quarantine_time := strftime_iso Demo.a_second_later;
                        original_deleted := false |})
  ∧ quarantined st' = quarantined ScanStats_init + 1.
Proof.
  apply (X10_quarantine_record_without_copy "/q" Sample.unreadable
           "/home/a/evil.exe" "Trojan" Demo.world ScanStats_init
           (Data [Byte.x4d; Byte.x5a])).
  - reflexivity.
  - intros a _. reflexivity.
  - reflexivity.
  - reflexivity.
  - vm_compute. reflexivity.
Defined.

(** ** What a quarantine leaves alone *)

Section QuarantineFrame.

Import Quarantine.
Variable os : OS.
Variables filepath qpath : string.

Lemma attempt_body_frame attempt w p :
  p ≠ filepath → p ≠ qpath →
  fs (attempt_body os filepath qpath attempt w).1.1 !! p = fs w !! p.
Proof.
  intros Hp1 Hp2. unfold attempt_body.
  destruct (attempt_fault os attempt); destruct (fs w !! filepath); simpl;
    try done; rewrite ?lookup_delete_ne by done; by rewrite ?lookup_insert_ne.
Qed.

Lemma retry_loop_frame attempts p :
  p ≠ filepath → p ≠ qpath →
  ∀ last_error w,
    fs (retry_loop os filepath qpath attempts last_error w).1.1 !! p = fs w !! p.
Proof.
  intros Hp1 Hp2. induction attempts as [|attempt later IH];
    intros last_error w; cbn [retry_loop]; [done|].
  pose proof (attempt_body_frame attempt w p Hp1 Hp2) as Hbody.
  destruct (attempt_body os filepath qpath attempt w) as [[w1 effs1] r].
  simpl in Hbody.
  destruct r as [|[|]]; [done| |].
  - destruct (attempt <? max_retries - 1); [|done].
    destruct (2 <=? attempt).
    + pose proof (forced_release_fs os filepath w1) as Hfc.
      destruct (force_close_file_handles os filepath w1) as [[w2 kills] closed].
      destruct Hfc as [Hfs2 _].
      specialize (IH (Some PermissionError) w2).
      destruct (retry_loop os filepath qpath later _ w2) as [[w3 effs3] out].
      simpl in *. by rewrite IH, Hfs2.
    + specialize (IH (Some PermissionError) w1).
      destruct (retry_loop os filepath qpath later _ w1) as [[w3 effs3] out].
      simpl in *. by rewrite IH.
  - destruct (attempt <? max_retries - 1); [|done].
    specialize (IH (Some OtherException) w1).
    destruct (retry_loop os filepath qpath later _ w1) as [[w3 effs3] out].
    simpl in *. by rewrite IH.
Qed.

Lemma killed_sleep n l : killed (Sleep n :: l) = killed l.
Proof. reflexivity. Qed.

Lemma killed_force a l : killed (ForceClose a :: l) = killed l.
Proof. reflexivity. Qed.

Lemma process_loop_count lower abs_path ps :
  ∀ closed_count,
    let '(effs, alive, r) := process_loop lower abs_path ps closed_count in
    length alive + length (killed effs) = length ps.
Proof.
  induction ps as [|proc rest IH]; intros closed_count; simpl; [done|].
  pose proof (IH closed_count) as IH0. pose proof (IH (closed_count + 1)) as IH1.
  destruct (process_loop lower abs_path rest closed_count) as [[effs0 alive0] r0].
  destruct (process_loop lower abs_path rest (closed_count + 1)) as [[effs1 alive1] r1].
  destruct (open_files proc); [simpl; lia|].
  destruct (visit_open_files _ _ _ _); [simpl; lia| |simpl; lia].
  destruct (kill_result proc); simpl; lia.
Qed.

Lemma force_close_count w :
  let '(w', effs, closed) := force_close_file_handles os filepath w in
  length (procs w') + length (killed effs) = length (procs w).
Proof.
  unfold force_close_file_handles. destruct (has_psutil os); simpl; [|lia].
  pose proof (process_loop_count (str_lower os) (str_lower os (abspath os filepath)) (procs w) 0)
    as H.
  by destruct (process_loop _ _ (procs w) 0) as [[effs alive] r].
Qed.

Lemma retry_loop_count attempts :
  ∀ last_error w,
    let '(w', effs, out) := retry_loop os filepath qpath attempts last_error w in
    length (procs w') + length (killed effs) = length (procs w).
Proof.
  induction attempts as [|attempt later IH]; intros last_error w;
    cbn [retry_loop]; [simpl; lia|].
  pose proof (attempt_body_shape os filepath qpath attempt w) as Hbody.
  destruct (attempt_body os filepath qpath attempt w) as [[w1 effs1] r].
  destruct Hbody as [Hprocs Hq1].
  pose proof (silent_killed _ Hq1) as Hk1.
  destruct r as [|[|]]; [rewrite Hk1, Hprocs; simpl; lia| |].
  - destruct (attempt <? max_retries - 1);
      [|rewrite Hk1, Hprocs; simpl; lia].
    destruct (2 <=? attempt).
    + pose proof (force_close_count w1) as Hfc.
      destruct (force_close_file_handles os filepath w1) as [[w2 kills] closed].
      specialize (IH (Some PermissionError) w2).
      destruct (retry_loop os filepath qpath later _ w2) as [[w3 effs3] out].
      rewrite killed_app, Hk1, killed_sleep. cbn [app].
      rewrite killed_force, !killed_app.
      assert (killed (if closed then [Sleep 1000] else []) = []) as ->
        by (by destruct closed).
      rewrite app_nil_r, length_app. cbn [app]. rewrite <- Hprocs. lia.
    + specialize (IH (Some PermissionError) w1).
      destruct (retry_loop os filepath qpath later _ w1) as [[w3 effs3] out].
      rewrite killed_app, Hk1, killed_sleep. cbn [app]. rewrite <- Hprocs. lia.
  - destruct (attempt <? max_retries - 1);
      [|rewrite Hk1, Hprocs; simpl; lia].
    specialize (IH (Some OtherException) w1).
    destruct (retry_loop os filepath qpath later _ w1) as [[w3 effs3] out].
    rewrite killed_app, Hk1, killed_sleep. cbn [app]. rewrite <- Hprocs. lia.
Qed.

End QuarantineFrame.

(** X11. Whatever the operating system does, [quarantine_file] changes no
    file other than the original, the copy and the sidecar, and no
    counter other than [quarantined], which it raises by one at most. *)
Theorem X11_quarantine_touches_three_paths_only
    (QUARANTINE_DIR : string) (os : OS) (filepath threat : string)
    (w : World) (st : ScanStats) :
  let '(w', st', effs) :=
    Quarantine.quarantine_file QUARANTINE_DIR os filepath threat w st in
  let qpath := Quarantine.quarantine_path QUARANTINE_DIR (now_name os) filepath in
  (∀ p, p ≠ filepath → p ≠ qpath → p ≠ qpath +:+ ".meta" →
        fs w' !! p = fs w !! p)
  ∧ total_scanned st' = total_scanned st ∧ clean_files st' = clean_files st
  ∧ malicious_files st' = malicious_files st
  ∧ suspicious_files st' = suspicious_files st ∧ errors st' = errors st
  ∧ quarantined st ≤ quarantined st' ≤ quarantined st + 1.
Proof.
  unfold Quarantine.quarantine_file.
  destruct (fs w !! filepath) as [file_data|]; [|simpl; repeat split; lia].
  set (qpath := Quarantine.quarantine_path QUARANTINE_DIR (now_name os) filepath).
  pose proof (λ p H1 H2, retry_loop_frame os filepath qpath
                (seq 0 Quarantine.max_retries) p H1 H2 None w) as Hframe.
  destruct (Quarantine.retry_loop _ _ _ _ _ _) as [[w1 effs] out].
  simpl in Hframe.
  destruct out as [success last_error|e].
  - destruct (meta_write_raises os); simpl.
    + split; [by auto|]. repeat split; lia.
    + split; [|repeat split; lia].
      intros p H1 H2 H3. rewrite lookup_insert_ne by done. by apply Hframe.
  - simpl. split; [by auto|]. repeat split; lia.
Qed.

(** X12. The processes alive after a quarantine are processes that were
    alive before it, and together with the killed ones they are as many
    as before: every process is either left alone or killed once. *)
Theorem X12_processes_killed_or_left_alone
    (QUARANTINE_DIR : string) (os : OS) (filepath threat : string)
    (w : World) (st : ScanStats) :
  let '(w', st', effs) :=
    Quarantine.quarantine_file QUARANTINE_DIR os filepath threat w st in
  procs w' ⊆ procs w
  ∧ length (procs w') + length (Quarantine.killed effs) = length (procs w).
Proof.
  unfold Quarantine.quarantine_file.
  destruct (fs w !! filepath) as [file_data|]; [|simpl; split; [done|lia]].
  set (qpath := Quarantine.quarantine_path QUARANTINE_DIR (now_name os) filepath).
  pose proof (retry_loop_scope os filepath qpath (seq 0 Quarantine.max_retries)
                None w) as Hscope.
  pose proof (retry_loop_count os filepath qpath (seq 0 Quarantine.max_retries)
                None w) as Hcount.
  destruct (Quarantine.retry_loop _ _ _ _ _ _) as [[w1 effs] out].
  destruct Hscope as (Hsub & _).
  assert (Htail : ∀ tail, Forall Quarantine.quiet tail →
            length (Quarantine.killed (effs ++ tail))
            = length (Quarantine.killed effs)).
  { intros tail Hq. rewrite killed_app, (silent_killed _ Hq).
    by rewrite app_nil_r. }
  destruct out as [success last_error|e].
  - destruct (meta_write_raises os); simpl; (split; [done|]);
      rewrite Htail; try done;
      destruct success, (answer_yes os); repeat constructor.
  - simpl. split; [done|]. rewrite Htail; [done|repeat constructor].
Qed.

(** ** How long a quarantine sleeps *)

Section SleepBudget.

Import Quarantine.
Variable os : OS.
Variables filepath qpath : string.

Lemma total_sleep_app l k : total_sleep (l ++ k) = total_sleep l + total_sleep k.
Proof.
  induction l as [|e l IH]; simpl; [done|].
  fold (total_sleep (l ++ k)) (total_sleep l). destruct e; lia.
Qed.

Lemma process_loop_sleep lower abs_path ps :
  ∀ closed_count,
    let '(effs, alive, r) := process_loop lower abs_path ps closed_count in
    total_sleep effs = 300 * length (killed effs).
Proof.
  induction ps as [|proc rest IH]; intros closed_count; simpl; [done|].
  pose proof (IH closed_count) as IH0. pose proof (IH (closed_count + 1)) as IH1.
  destruct (process_loop lower abs_path rest closed_count) as [[effs0 alive0] r0].
  destruct (process_loop lower abs_path rest (closed_count + 1)) as [[effs1 alive1] r1].
  destruct (open_files proc); [done|].
  destruct (visit_open_files _ _ _ _); [done| |done].
  destruct (kill_result proc); [done|].
  cbn [total_sleep foldr killed flat_map app length].
  fold (total_sleep effs1) (killed effs1). lia.
Qed.

Lemma force_close_sleep w :
  let '(w', effs, closed) := force_close_file_handles os filepath w in
  total_sleep effs = 300 * length (killed effs).
Proof.
  unfold force_close_file_handles. destruct (has_psutil os); simpl; [|done].
  pose proof (process_loop_sleep (str_lower os) (str_lower os (abspath os filepath)) (procs w) 0)
    as H.
  by destruct (process_loop _ _ (procs w) 0) as [[effs alive] r].
Qed.

Lemma attempt_body_sleep attempt w :
  let '(w', effs, r) := attempt_body os filepath qpath attempt w in
  total_sleep effs ≤ 200 ∧ killed effs = [].
Proof.
  unfold attempt_body.
  destruct (attempt_fault os attempt); destruct (fs w !! filepath);
    simpl; split; (lia || done).
Qed.

(** What one attempt may sleep at most, kills aside: the pause before
    the removal, the growing back-off and the pause after a forced
    release that closed something. *)
Lemma retry_loop_sleep attempts :
  ∀ last_error w,
    let '(w', effs, out) := retry_loop os filepath qpath attempts last_error w in
    total_sleep effs
    ≤ sum_list_with
        (λ a, 200 + (if a <? max_retries - 1
                     then 500 * (a + 1) + (if 2 <=? a then 1000 else 0)
                     else 0)) attempts
      + 300 * length (killed effs).
Proof.
  induction attempts as [|attempt later IH]; intros last_error w;
    cbn [retry_loop sum_list_with]; [simpl; lia|].
  pose proof (attempt_body_sleep attempt w) as Hbody.
  destruct (attempt_body os filepath qpath attempt w) as [[w1 effs1] r].
  destruct Hbody as [Hs1 Hk1].
  destruct r as [|[|]]; [rewrite Hk1; simpl; lia| |].
  - destruct (attempt <? max_retries - 1); [|rewrite Hk1; simpl; lia].
    destruct (2 <=? attempt).
    + pose proof (force_close_sleep w1) as Hfc.
      destruct (force_close_file_handles os filepath w1) as [[w2 kills] closed].
      specialize (IH (Some PermissionError) w2).
      destruct (retry_loop os filepath qpath later _ w2) as [[w3 effs3] out].
      rewrite total_sleep_app, killed_app, Hk1. cbn [app].
      rewrite killed_sleep, killed_force, !killed_app.
      assert (killed (if closed then [Sleep 1000] else []) = []) as ->
        by (by destruct closed).
      rewrite app_nil_r, length_app.
      cbn [total_sleep foldr].
      fold (total_sleep ((kills ++ (if closed then [Sleep 1000] else []))
                           ++ effs3)).
      rewrite !total_sleep_app.
      assert (total_sleep (if closed then [Sleep 1000] else []) ≤ 1000)
        by (destruct closed; simpl; lia).
      lia.
    + specialize (IH (Some PermissionError) w1).
      destruct (retry_loop os filepath qpath later _ w1) as [[w3 effs3] out].
      rewrite total_sleep_app, killed_app, Hk1. cbn [app].
      rewrite killed_sleep. cbn [total_sleep foldr]. fold (total_sleep effs3).
      lia.
  - destruct (attempt <? max_retries - 1); [|rewrite Hk1; simpl; lia].
    specialize (IH (Some OtherException) w1).
    destruct (retry_loop os filepath qpath later _ w1) as [[w3 effs3] out].
    rewrite total_sleep_app, killed_app, Hk1. cbn [app].
    rewrite killed_sleep. cbn [total_sleep foldr]. fold (total_sleep effs3).
    destruct (2 <=? attempt); lia.
Qed.

End SleepBudget.

(** X13. A call of [quarantine_file] sleeps 8 seconds at most, plus 0.3
    seconds for every process it kills, whatever the operating system
    does: five pauses before a removal, the back-off of 0.5, 1, 1.5 and 2
    seconds and two pauses of one second after a forced release. *)
Theorem X13_quarantine_sleep_budget
    (QUARANTINE_DIR : string) (os : OS) (filepath threat : string)
    (w : World) (st : ScanStats) :
  let '(w', st', effs) :=
    Quarantine.quarantine_file QUARANTINE_DIR os filepath threat w st in
  (Z.of_nat (total_sleep effs)
   ≤ 8000 + 300 * Z.of_nat (length (Quarantine.killed effs)))%Z.
Proof.
  unfold Quarantine.quarantine_file.
  destruct (fs w !! filepath) as [file_data|]; [|simpl; lia].
  set (qpath := Quarantine.quarantine_path QUARANTINE_DIR (now_name os) filepath).
  pose proof (retry_loop_sleep os filepath qpath (seq 0 Quarantine.max_retries)
                None w) as Hsleep.
  destruct (Quarantine.retry_loop _ _ _ _ _ _) as [[w1 effs] out].
  assert (Hbudget :
    Z.of_nat (sum_list_with
      (λ a, 200 + (if a <? Quarantine.max_retries - 1
                   then 500 * (a + 1) + (if 2 <=? a then 1000 else 0)
                   else 0)) (seq 0 Quarantine.max_retries)) = 8000%Z)
    by (vm_compute; reflexivity).
  assert (Htail : ∀ tail, Forall Quarantine.quiet tail → total_sleep tail = 0 →
    (Z.of_nat (total_sleep (effs ++ tail))
     ≤ 8000 + 300 * Z.of_nat (length (Quarantine.killed (effs ++ tail))))%Z).
  { intros tail Hq Hz. rewrite total_sleep_app, killed_app, Hz.
    rewrite (silent_killed _ Hq), app_nil_r. lia. }
  destruct out as [success last_error|e].
  - destruct (meta_write_raises os); simpl; apply Htail;
      destruct success, (answer_yes os); (repeat constructor) || reflexivity.
  - simpl. apply Htail; [repeat constructor|reflexivity].
Qed.

(** ** Emptying the store touches listed entries only *)

Lemma clear_loop_frame (QUARANTINE_DIR : string) (remove_raises : string → bool)
    (listing : list string) :
  ∀ (f : gmap string File) p,
    let f' := (Quarantine.clear_loop QUARANTINE_DIR remove_raises listing f).1 in
    (f' !! p = f !! p ∨ f' !! p = None)
    ∧ (p ∉ map (PyStr.join QUARANTINE_DIR) listing → f' !! p = f !! p).
Proof.
  induction listing as [|x rest IH]; intros f p; simpl; [by auto|].
  destruct (remove_raises _); [by auto|].
  destruct (f !! PyStr.join QUARANTINE_DIR x) eqn:Hx; [|by auto].
  specialize (IH (delete (PyStr.join QUARANTINE_DIR x) f) p).
  simpl in IH. destruct IH as [IH1 IH2].
  destruct (decide (p = PyStr.join QUARANTINE_DIR x)) as [->|Hne].
  - split.
    + right. destruct IH1 as [IH1|IH1]; [|done].
      by rewrite IH1, lookup_delete_eq.
    + intros Hnot. exfalso. apply Hnot. by left.
  - rewrite lookup_delete_ne in IH1, IH2 by done. split; [done|].
    intros Hnot. apply IH2. intros Hin. apply Hnot. by right.
Qed.

(** X14. Whatever the answer and whatever fails, [clear_quarantine] never
    creates or changes a file: every path keeps its content or is
    removed, and a path that is not an entry of the listing is never
    removed. *)
Theorem X14_clear_quarantine_removes_listed_entries_only
    (QUARANTINE_DIR : string) (reply_yes : bool) (remove_raises : string → bool)
    (listing : list string) (f : gmap string File) (p : string) :
  let f' := (Quarantine.clear_quarantine QUARANTINE_DIR reply_yes remove_raises
               listing f).1 in
  (f' !! p = f !! p ∨ f' !! p = None)
  ∧ (p ∉ map (PyStr.join QUARANTINE_DIR) listing → f' !! p = f !! p).
Proof.
  unfold Quarantine.clear_quarantine. destruct reply_yes; [|by auto].
  pose proof (clear_loop_frame QUARANTINE_DIR remove_raises listing f p) as H.
  by destruct (Quarantine.clear_loop _ _ _ _) as [f' ok].
Qed.

(** ** Restoring and deleting quarantined files *)

Section RestoreDelete.

Variable QUARANTINE_DIR : string.
Variable os : OS.
Variables filepath threat : string.
Variable w : World.
Variable st : ScanStats.
Variable file_data : File.
Variable k : nat.

Hypothesis original_exists : fs w !! filepath = Some file_data.
Hypothesis within_window : k < Quarantine.max_retries.
Hypothesis faulty_before : ∀ a, a < k → attempt_fault os a ≠ NoFault.
Hypothesis clean_at : attempt_fault os k = NoFault.
Hypothesis sidecar_written : meta_write_raises os = false.

Local Abbreviation qpath :=
  (Quarantine.quarantine_path QUARANTINE_DIR (now_name os) filepath).

(** The file system after a fully successful quarantine. *)
Lemma quarantine_success_fs :
  fs (Quarantine.quarantine_file QUARANTINE_DIR os filepath threat w st).1.1
  = <[qpath +:+ ".meta" :=
        MetaJson {| original_path := filepath;
                    original_filename := PyStr.basename filepath;
                    threat_name := threat;
                    quarantine_time := strftime_iso (now_meta os);
                    original_deleted := true |}]>
      (delete filepath (<[qpath := file_data]> (fs w))).
Proof.
  unfold Quarantine.quarantine_file.
  rewrite original_exists, sidecar_written, (attempts_split k within_window).
  pose proof (retry_loop_first_success os filepath qpath (seq 0 k) k
                (seq (S k) (Quarantine.max_retries - S k)) None w) as Hloop.
  destruct (Quarantine.retry_loop _ _ _ _ _ _) as [[w1 effs] out].
  destruct Hloop as ([e ->] & Hgone & Hcopy & Hframe & Hsil);
    [|done|by eauto|].
  { apply Forall_forall. intros a Ha. apply elem_of_seq in Ha.
    split; [apply faulty_before; lia|].
    unfold Quarantine.max_retries in *. lia. }
  simpl. by rewrite (success_fs filepath qpath file_data (fs w) (fs w1)).
Qed.

End RestoreDelete.



(** X17. A file is quarantined with full success into a store that had no
    entry under the names used, and the stored copy is then deleted with
    nothing failing: copy and sidecar are gone again and, of the file
    system before the quarantine, exactly the original is missing. *)
Theorem X17_quarantine_then_delete_removes_the_file
    (QUARANTINE_DIR : string) (os : OS) (sos : StoreOS)
    (filepath threat : string) (w : World) (st : ScanStats)
    (file_data : File) (k : nat) :
  let qpath := Quarantine.quarantine_path QUARANTINE_DIR (now_name os) filepath in
  fs w !! filepath = Some file_data →
  k < Quarantine.max_retries →
  (∀ a, a < k → attempt_fault os a ≠ NoFault) →
  attempt_fault os k = NoFault →
  meta_write_raises os = false →
  filepath ≠ qpath → filepath ≠ qpath +:+ ".meta" →
  fs w !! qpath = None → fs w !! (qpath +:+ ".meta") = None →
  confirm sos = true →
  store_remove_raises sos qpath = false →
  store_remove_raises sos (qpath +:+ ".meta") = false →
  Store.delete_file sos qpath
    (fs (Quarantine.quarantine_file QUARANTINE_DIR os filepath threat w st).1.1)
  = (delete filepath (fs w),
     [Dialog Question "확인"; Dialog Information "성공"]).
Proof.
  intros qpath Hfs Hk Hfaulty Hclean Hmeta Hne1 Hne2 Hfree1 Hfree2 Hyes
    Hrm1 Hrm2.
  rewrite (quarantine_success_fs QUARANTINE_DIR os filepath threat w st
             file_data k Hfs Hk Hfaulty Hclean Hmeta).
  fold qpath. set (meta := MetaJson _).
  assert (Hmq : qpath +:+ ".meta" ≠ qpath) by apply meta_path_fresh.
  unfold Store.delete_file, Store.os_remove. rewrite Hyes.
  rewrite (lookup_insert_ne _ (qpath +:+ ".meta") qpath) by done.
  rewrite (lookup_delete_ne _ filepath qpath) by done.
  rewrite lookup_insert_eq, Hrm1.
  rewrite (lookup_delete_ne _ qpath (qpath +:+ ".meta")) by done.
  rewrite lookup_insert_eq, Hrm2.
  f_equal. apply map_eq. intros p.
  destruct (decide (p = qpath +:+ ".meta")) as [->|Hp1].
  { rewrite lookup_delete_eq. by rewrite lookup_delete_ne by done. }
  rewrite lookup_delete_ne by done.
  destruct (decide (p = qpath)) as [->|Hp2].
  { rewrite lookup_delete_eq. by rewrite lookup_delete_ne by done. }
  rewrite lookup_delete_ne by done. rewrite lookup_insert_ne by done.
  destruct (decide (p = filepath)) as [->|Hp3].
  { by rewrite !lookup_delete_eq. }
  rewrite !lookup_delete_ne by done. by rewrite lookup_insert_ne.
Qed.

Lemma X17_quarantine_then_delete_removes_the_file_witness :
  Store.delete_file Sample.willing
    (Quarantine.quarantine_path "/q" Demo.now "/home/a/evil.exe")
    (fs (Quarantine.quarantine_file "/q" Sample.free_at_third "/home/a/evil.exe"
           "Trojan" Demo.world ScanStats_init).1.1)
  = (delete "/home/a/evil.exe" (fs Demo.world),
     [Dialog Question "확인"; Dialog Information "성공"]).
Proof.
  apply (X17_quarantine_then_delete_removes_the_file "/q" Sample.free_at_third
           Sample.willing "/home/a/evil.exe" "Trojan" Demo.world ScanStats_init
           (Data [Byte.x4d; Byte.x5a]) 2).
  - reflexivity.
  - unfold Quarantine.max_retries. lia.
  - intros [|[|a]] Ha; [discriminate | discriminate | lia].
  - reflexivity.
  - reflexivity.
  - vm_compute. discriminate.
  - vm_compute. discriminate.
  - vm_compute. reflexivity.
  - vm_compute. reflexivity.
  - reflexivity.
  - reflexivity.
  - reflexivity.
Defined.

(** ** The quarantine table *)

Section QuarantineTable.

Variable QUARANTINE_DIR : string.

Lemma endswith_app a b : PyPath.endswith (a +:+ b) b = true.
Proof.
  unfold PyPath.endswith. rewrite chars_app, length_app.
  apply bool_decide_eq_true.
  replace (length (PyStr.chars a) + length (PyStr.chars b)
           - length (PyStr.chars b)) with (length (PyStr.chars a)) by lia.
  apply drop_app_length.
Qed.

Lemma refresh_quarantine_app l1 l2 f :
  Store.refresh_quarantine QUARANTINE_DIR (l1 ++ l2) f
  = Store.refresh_quarantine QUARANTINE_DIR l1 f
    ++ Store.refresh_quarantine QUARANTINE_DIR l2 f.
Proof.
  induction l1 as [|x l1 IH]; simpl; [done|].
  destruct (PyPath.endswith x ".meta"); [done|]. by rewrite IH.
Qed.

Lemma quarantine_filename_ext now filepath :
  Quarantine.quarantine_filename now filepath
  = (strftime_compact now +:+ "_"
     +:+ PyStr.of_chars
           (take 8 (PyStr.chars
                      (Md5.hexdigest
                         (PyStr.splitext (PyStr.basename filepath)).1))))
    +:+ (PyStr.splitext (PyStr.basename filepath)).2.
Proof.
  unfold Quarantine.quarantine_filename.
  destruct (PyStr.splitext _) as [name_part ext_part]. simpl.
  apply chars_inj. rewrite !chars_app. by rewrite <- !app_assoc.
Qed.

End QuarantineTable.

(** X18. The table reads back what the quarantine wrote. After a fully
    successful quarantine whose stored name does not end in [.meta], a
    refresh of the table over any listing of the store that holds the
    stored name shows a row with the base name of the original, the time
    and the threat name of the quarantine, bound to the path of the
    stored copy. *)
Theorem X18_table_shows_what_was_quarantined
    (QUARANTINE_DIR : string) (os : OS) (filepath threat : string)
    (w : World) (st : ScanStats) (file_data : File) (k : nat)
    (listing : list string) :
  let stored_name := Quarantine.quarantine_filename (now_name os) filepath in
  fs w !! filepath = Some file_data →
  k < Quarantine.max_retries →
  (∀ a, a < k → attempt_fault os a ≠ NoFault) →
  attempt_fault os k = NoFault →
  meta_write_raises os = false →
  PyPath.endswith stored_name ".meta" = false →
  stored_name ∈ listing →
  {| Store.row_original_filename := PyStr.basename filepath;
     Store.row_quarantine_time := strftime_iso (now_meta os);
     Store.row_threat_name := threat;
     Store.row_filepath := PyStr.join QUARANTINE_DIR stored_name |}
  ∈ Store.refresh_quarantine QUARANTINE_DIR listing
      (fs (Quarantine.quarantine_file QUARANTINE_DIR os filepath threat w st).1.1).
Proof.
  intros stored_name Hfs Hk Hfaulty Hclean Hmeta Hend Hin.
  rewrite (quarantine_success_fs QUARANTINE_DIR os filepath threat w st
             file_data k Hfs Hk Hfaulty Hclean Hmeta).
  apply list_elem_of_split in Hin as (before & after & ->).
  rewrite refresh_quarantine_app. apply elem_of_app. right.
  cbn [Store.refresh_quarantine]. rewrite Hend.
  unfold Quarantine.quarantine_path. fold stored_name.
  rewrite lookup_insert_eq. by left.
Qed.

Lemma X18_table_shows_what_was_quarantined_witness :
  {| Store.row_original_filename := PyStr.basename "/home/a/evil.exe";
     Store.row_quarantine_time := strftime_iso Demo.a_second_later;
     Store.row_threat_name := "Trojan";
     Store.row_filepath :=
       PyStr.join "/q" (Quarantine.quarantine_filename Demo.now "/home/a/evil.exe") |}
  ∈ Store.refresh_quarantine "/q"
      ["old.bin"; Quarantine.quarantine_filename Demo.now "/home/a/evil.exe"]
      (fs (Quarantine.quarantine_file "/q" Sample.free_at_third
             "/home/a/evil.exe" "Trojan" Demo.world ScanStats_init).1.1).
Proof.
  apply (X18_table_shows_what_was_quarantined "/q" Sample.free_at_third
           "/home/a/evil.exe" "Trojan" Demo.world ScanStats_init
           (Data [Byte.x4d; Byte.x5a]) 2).
  - reflexivity.
  - unfold Quarantine.max_retries. lia.
  - intros [|[|a]] Ha; [discriminate | discriminate | lia].
  - reflexivity.
  - reflexivity.
  - vm_compute. reflexivity.
  - right. left.
Defined.

(** X19. A quarantined file whose own extension is [.meta] never shows
    in the table: its stored name ends in [.meta], so
    [refresh_quarantine] takes it for a sidecar and skips it. *)
Theorem X19_quarantined_meta_file_is_not_listed
    (QUARANTINE_DIR : string) (now : Datetime) (filepath : string)
    (before after : list string) (f : gmap string File) :
  (PyStr.splitext (PyStr.basename filepath)).2 = ".meta" →
  Store.refresh_quarantine QUARANTINE_DIR
    (before ++ Quarantine.quarantine_filename now filepath :: after) f
  = Store.refresh_quarantine QUARANTINE_DIR (before ++ after) f.
Proof.
  intros Hext. rewrite !refresh_quarantine_app. f_equal. simpl.
  rewrite quarantine_filename_ext, Hext. by rewrite endswith_app.
Qed.

Lemma X19_quarantined_meta_file_is_not_listed_witness :
  Store.refresh_quarantine "/q"
    (["a.bin"] ++ Quarantine.quarantine_filename Demo.now "/home/a/notes.meta"
       :: []) ∅
  = Store.refresh_quarantine "/q" (["a.bin"] ++ []) ∅.
Proof.
  apply (X19_quarantined_meta_file_is_not_listed "/q" Demo.now
           "/home/a/notes.meta" ["a.bin"] [] ∅).
  reflexivity.
Defined.

(** X20. The restore button above the table builds its path from the
    first column of the selected row, which shows the original file name
    and not the stored one: for the row of an entry with a sidecar, if
    the store has no file under the original name, nothing is restored
    and only the not-found box appears. *)
Theorem X20_toolbar_restore_looks_up_the_original_name
    (QUARANTINE_DIR : string) (sos : StoreOS) (filename : string)
    (f : gmap string File) (meta : QuarantineMeta) :
  PyPath.endswith filename ".meta" = false →
  f !! (PyStr.join QUARANTINE_DIR filename +:+ ".meta") = Some (MetaJson meta) →
  f !! PyStr.join QUARANTINE_DIR (original_filename meta) = None →
  Store.restore_from_quarantine QUARANTINE_DIR sos
    (head (Store.refresh_quarantine QUARANTINE_DIR [filename] f)) f
  = (f, [Dialog Warning "오류"]).
Proof.
  intros Hext Hmeta Hnone. simpl. rewrite Hext, Hmeta. simpl.
  unfold Store.restore_file. by rewrite Hnone.
Qed.

Lemma X20_toolbar_restore_looks_up_the_original_name_witness :
  let f : gmap string File :=
    {[ "/q/a.bin" := Data [];
       "/q/a.bin.meta" :=
         MetaJson {| original_path := "/home/a/x.bin";
                     original_filename := "x.bin"; threat_name := "T";
                     quarantine_time := "2026-01-08 09:05:01";
                     original_deleted := true |} ]} in
  Store.restore_from_quarantine "/q" Sample.willing
    (head (Store.refresh_quarantine "/q" ["a.bin"] f)) f
  = (f, [Dialog Warning "오류"]).
Proof.
  intros f.
  apply (X20_toolbar_restore_looks_up_the_original_name "/q" Sample.willing
           "a.bin" f
           {| original_path := "/home/a/x.bin"; original_filename := "x.bin";
              threat_name := "T"; quarantine_time := "2026-01-08 09:05:01";
              original_deleted := true |}); reflexivity.
Defined.

(** ** Settings *)

(** X21. From a settings file holding a JSON object, [load_settings]
    returns that object with the default added for [quarantine_dir] if
    the key is missing: the key is always there afterwards and every
    stored key keeps its value. With no file, or one that cannot be read
    or decoded, it returns the defaults. *)
Theorem X21_load_settings_fills_defaults
    (V : Type) (text : string → V) (script_dir : string) (d : gmap string V) :
  let default := Settings.default_settings V text script_dir in
  Settings.load_settings V text script_dir (Settings.JsonObject V d)
  = Settings.Dict V (d ∪ default)
  ∧ is_Some ((d ∪ default) !! "quarantine_dir")
  ∧ (∀ key v, d !! key = Some v → (d ∪ default) !! key = Some v)
  ∧ Settings.load_settings V text script_dir (Settings.NoFile V)
    = Settings.Dict V default
  ∧ Settings.load_settings V text script_dir (Settings.Unreadable V)
    = Settings.Dict V default.
Proof.
  intros default. split; [|split; [|split; [|split; reflexivity]]].
  - unfold Settings.load_settings, Settings.fill_defaults. f_equal.
    fold default. unfold default, Settings.default_settings.
    rewrite map_fold_singleton.
    apply map_eq. intros key. rewrite lookup_union.
    destruct (decide (key = "quarantine_dir")) as [->|Hne].
    + destruct (d !! "quarantine_dir") as [v|] eqn:Hd.
      * by rewrite ?Hd, ?lookup_singleton_eq.
      * by rewrite ?lookup_insert_eq, ?Hd, ?lookup_singleton_eq.
    + rewrite lookup_singleton_ne by done.
      destruct (d !! "quarantine_dir") as [v|] eqn:Hd.
      * by destruct (d !! key).
      * rewrite lookup_insert_ne by done. by destruct (d !! key).
  - rewrite lookup_union. unfold default, Settings.default_settings.
    rewrite lookup_singleton_eq. destruct (d !! "quarantine_dir"); by eauto.
  - intros key v Hkey. rewrite lookup_union, Hkey.
    by destruct (default !! key).
Qed.

(** ** History *)

(** X22. The history table shows the fifty most recent entries and no
    more, newest first: row [i] is the entry [i] places from the end of
    [scan_history]. *)
Theorem X22_history_shows_last_fifty_newest_first
    (scan_history : list HistoryEntry) :
  let rows := Consumer.refresh_history scan_history in
  length rows = min 50 (length scan_history)
  ∧ ∀ i, i < length rows →
         rows !! i = scan_history !! (length scan_history - S i).
Proof.
  unfold Consumer.refresh_history. rewrite rev_alt. fold (reverse (drop (length scan_history - 50) scan_history)).
  rewrite length_reverse, length_drop. split; [lia|].
  intros i Hi. rewrite reverse_lookup by (rewrite length_drop; lia).
  rewrite lookup_drop, length_drop. f_equal. lia.
Qed.

(** ** A job as the window records it *)

Section ConsumerJob.

Variable now : Datetime.
Variable scan_type : string.
Variable total_files : nat.

(** The signals of the loop change the statistics and the bar's value,
    not its range and not the history. *)
Lemma deliver_loop tr :
  ∀ v,
    finished_count tr = 0 →
    let v' := foldl (Consumer.deliver now scan_type total_files) v tr in
    Consumer.view_progress_max v' = Consumer.view_progress_max v
    ∧ Consumer.view_history v' = Consumer.view_history v
    ∧ Consumer.view_stats v'
      = default (Consumer.view_stats v) (last (snapshots tr)).
Proof.
  induction tr as [|a tr IH]; intros v Hfin; [done|].
  cbn [foldl].
  pose proof (IH (Consumer.deliver now scan_type total_files v a)) as IHa.
  destruct a as [p|[i|msg|d|s|]]; cbn [finished_count] in Hfin;
    try discriminate Hfin;
    destruct (IHa Hfin) as (H1 & H2 & H3);
    cbn [Consumer.deliver] in *; cbn [snapshots].
  - done.
  - rewrite H1, H2, H3. unfold Consumer.set_progress.
    by destruct (i <=? Consumer.view_progress_max v).
  - done.
  - done.
  - rewrite H1, H2, H3. cbn [Consumer.update_stats Consumer.view_stats
      Consumer.view_progress_max Consumer.view_history].
    split; [done|]. split; [done|].
    rewrite last_cons. by destruct (last (snapshots tr)).
Qed.

End ConsumerJob.

(** X23. Whatever the stop schedule, when the job's signals have all been
    handled the window shows the last snapshot as its statistics (the
    previous ones if no file was scanned), the bar stands at its maximum,
    the number of files submitted, and one history entry has been
    appended, with status [완료], with that number as its total, and with
    the malicious plus suspicious count of those statistics as its
    threats. The statistics' own total is the number of files actually
    scanned. *)
Theorem X23_job_as_the_window_records_it
    (eng : Engine) (use_detailed : bool) (stop_during : nat → bool)
    (now : Datetime) (scan_type : string) (file_list : list string)
    (v : Consumer.View) :
  let tr := run eng use_detailed stop_during file_list in
  let v' := Consumer.job now scan_type file_list tr v in
  let s := default (Consumer.view_stats v) (last (snapshots tr)) in
  Consumer.view_stats v' = s
  ∧ Consumer.view_progress v' = length file_list
  ∧ Consumer.view_history v'
    = Consumer.view_history v
      ++ [{| h_time := strftime_iso now; h_type := scan_type;
             h_total := length file_list;
             h_threats := snap_malicious s + snap_suspicious s;
             h_status := "완료" |}]
  ∧ (scanned tr ≠ [] → snap_total s = length (scanned tr)).
Proof.
  intros tr v' s.
  assert (Hsnap : snapshots tr
                  = snapshots (run_loop eng use_detailed stop_during 1
                                 (false || stop_during 0) file_list
                                 ScanStats_init).1).
  { subst tr. unfold run. rewrite snapshots_app. simpl. by rewrite app_nil_r. }
  destruct (run_loop_fold eng use_detailed stop_during file_list 1
              (false || stop_during 0) ScanStats_init) as (_ & _ & _ & Hfin).
  pose proof (deliver_loop now scan_type (length file_list) _
                (Consumer.start file_list v) Hfin) as (Hmax & Hhist & Hstats).
  subst v'. unfold Consumer.job. subst tr. unfold run.
  rewrite foldl_app. cbn [foldl Consumer.deliver].
  unfold Consumer.scan_finished. cbn [Consumer.view_stats Consumer.view_progress
    Consumer.view_history].
  rewrite Hmax, Hhist, Hstats. cbn [Consumer.start Consumer.view_stats
    Consumer.view_progress_max Consumer.view_history].
  subst s. rewrite Hsnap. split; [done|]. split; [done|]. split; [done|].
  intros Hsome.
  destruct (run_scanned_prefix eng use_detailed stop_during file_list) as [_ Hm].
  fold (run eng use_detailed stop_during file_list) in Hsome.
  rewrite <- Hsnap, run_snapshots.
  destruct (length (scanned (run eng use_detailed stop_during file_list)))
    as [|m] eqn:Hlen.
  { by destruct (scanned (run eng use_detailed stop_during file_list)). }
  fold (run eng use_detailed stop_during file_list). rewrite Hlen.
  rewrite seq_S, map_app. cbn [map]. rewrite last_snoc.
  cbn [default snapshot snap_total].
  unfold tally_all, id, snapshot. cbn [snap_total].
  rewrite foldl_tally_total, length_take.
  change (total_scanned ScanStats_init) with 0. lia.
Qed.

(** ** The capped enumerations once more *)

Section EnumerateBounds.

Import Enumerate.
Variable limit : Z.

Lemma add_files_under root files :
  ∀ file_list,
    (Z.of_nat (length file_list + length files) ≤ limit)%Z →
    add_files limit root files file_list
    = file_list ++ map (PyStr.join root) files.
Proof.
  induction files as [|name rest IH]; intros file_list Hle; simpl.
  - by rewrite app_nil_r.
  - destruct (Z.ltb_spec limit
                (Z.of_nat (length (file_list ++ [PyStr.join root name]))))
      as [Hbrk|Hgo]; rewrite length_app in *; simpl in *; [lia|].
    rewrite IH by (rewrite length_app; simpl; lia).
    by rewrite <- app_assoc.
Qed.

Lemma walk_collect_under w :
  ∀ file_list,
    (Z.of_nat (length file_list + length (walk_all w)) ≤ limit)%Z →
    walk_collect limit w file_list = file_list ++ walk_all w.
Proof.
  induction w as [|[root files] later IH]; intros file_list Hle; simpl.
  - by rewrite app_nil_r.
  - simpl in Hle. rewrite length_app, length_map in Hle.
    rewrite add_files_under by lia.
    rewrite IH by (rewrite length_app, length_map; lia).
    by rewrite <- app_assoc.
Qed.

Lemma add_files_bound root files :
  ∀ file_list,
    (Z.of_nat (length (add_files limit root files file_list))
     ≤ Z.max (Z.of_nat (length file_list)) limit + 1)%Z.
Proof.
  induction files as [|name rest IH]; intros file_list; simpl; [lia|].
  destruct (Z.ltb_spec limit
              (Z.of_nat (length (file_list ++ [PyStr.join root name]))))
    as [Hbrk|Hgo].
  - rewrite length_app. simpl. lia.
  - specialize (IH (file_list ++ [PyStr.join root name])).
    rewrite length_app in *. simpl in *. lia.
Qed.

Lemma walk_collect_bound w :
  ∀ file_list,
    (Z.of_nat (length (walk_collect limit w file_list))
     ≤ Z.max (Z.of_nat (length file_list)) limit + Z.of_nat (length w))%Z.
Proof.
  induction w as [|[root files] later IH]; intros file_list; simpl; [lia|].
  specialize (IH (add_files limit root files file_list)).
  pose proof (add_files_bound root files file_list). lia.
Qed.

Lemma add_files_sublist root files :
  ∀ file_list,
    add_files limit root files file_list
    `sublist_of` file_list ++ map (PyStr.join root) files.
Proof.
  induction files as [|name rest IH]; intros file_list; simpl.
  - by rewrite app_nil_r.
  - destruct (_ <? _)%Z.
    + apply sublist_app; [done|]. apply sublist_skip, sublist_nil_l.
    + specialize (IH (file_list ++ [PyStr.join root name])).
      by rewrite <- app_assoc in IH.
Qed.

Lemma walk_collect_sublist w :
  ∀ file_list,
    walk_collect limit w file_list `sublist_of` file_list ++ walk_all w.
Proof.
  induction w as [|[root files] later IH]; intros file_list; simpl.
  - by rewrite app_nil_r.
  - etrans; [apply IH|]. rewrite app_assoc.
    apply sublist_app; [apply add_files_sublist|done].
Qed.

End EnumerateBounds.

(** X24. A walk with at most 10000 files is enumerated completely and in
    order by the full-system, the drive and the USB scan: nothing is
    cut, and the list is the one the uncapped loops of [scan_folder]
    give. *)
Theorem X24_enumeration_complete_under_the_cap (w : Walk) :
  (Z.of_nat (length (walk_all w)) ≤ 10000)%Z →
  Enumerate.full_system_scan w = walk_all w
  ∧ Enumerate.scan_drive w = walk_all w
  ∧ Enumerate.scan_usb w = walk_all w.
Proof.
  unfold Enumerate.full_system_scan, Enumerate.scan_drive, Enumerate.scan_usb.
  intros H. split; [|split]; rewrite walk_collect_under; try done;
    cbn [length Nat.add]; lia.
Qed.

Lemma X24_enumeration_complete_under_the_cap_witness :
  Enumerate.full_system_scan [("/", ["a"; "b"]); ("/sub", ["c"])]
  = walk_all [("/", ["a"; "b"]); ("/sub", ["c"])]
  ∧ Enumerate.scan_drive [("/", ["a"; "b"]); ("/sub", ["c"])]
    = walk_all [("/", ["a"; "b"]); ("/sub", ["c"])]
  ∧ Enumerate.scan_usb [("/", ["a"; "b"]); ("/sub", ["c"])]
    = walk_all [("/", ["a"; "b"]); ("/sub", ["c"])].
Proof.
  apply (X24_enumeration_complete_under_the_cap
           [("/", ["a"; "b"]); ("/sub", ["c"])]).
  simpl. lia.
Defined.

(** X25. The bound the capped enumerations do keep: the list is never
    longer than the constant of the test plus the number of directories
    the walk yields. *)
Theorem X25_enumeration_length_bound (w : Walk) :
  (Z.of_nat (length (Enumerate.full_system_scan w))
   ≤ 10000 + Z.of_nat (length w))%Z
  ∧ (Z.of_nat (length (Enumerate.scan_drive w))
     ≤ 50000 + Z.of_nat (length w))%Z
  ∧ (Z.of_nat (length (Enumerate.scan_usb w))
     ≤ 50000 + Z.of_nat (length w))%Z.
Proof.
  unfold Enumerate.full_system_scan, Enumerate.scan_drive, Enumerate.scan_usb.
  pose proof (walk_collect_bound 10000 w []) as H1.
  pose proof (walk_collect_bound 50000 w []) as H2.
  simpl in H1, H2. lia.
Qed.

(** X26. The capped enumerations invent nothing and keep the order: the
    list is a sub-list of the complete enumeration of the walk. *)
Theorem X26_enumeration_is_a_sublist (w : Walk) :
  Enumerate.full_system_scan w `sublist_of` walk_all w
  ∧ Enumerate.scan_drive w `sublist_of` walk_all w
  ∧ Enumerate.scan_usb w `sublist_of` walk_all w.
Proof.
  unfold Enumerate.full_system_scan, Enumerate.scan_drive, Enumerate.scan_usb.
  split; [|split]; apply (walk_collect_sublist _ w []).
Qed.
